(** * Engagement and fan-out engine of the Q&A platform

    A shallow embedding of [server/models/application.ts]: question ranking,
    notification fan-out, question votes, poll voting and closure, and
    challenge progress, subscriptions and view counts, the inbox, tags and
    search.

    Conventions of the embedding.
    - A [Date] is its time value, a [Z] number of milliseconds; the clock
      read [new Date()] of the source is the explicit argument [now].
    - A collection of the document store is the list of its documents, in
      insertion order; [findOne] is the first match, [find] the matches in
      order, [findOneAndUpdate] rewrites the first match.
    - A JavaScript array that the code sorts in place lives in a heap of
      arrays and is passed by its location.
    - A path that a schema does not declare is undefined on a fetched
      document and is dropped from an update; [pollSchema] declares no
      [isClosed].  How a query filter treats such a path depends on the
      model's [strictQuery] option, which is an argument where it matters. *)

From stdpp Require Import base decidable option list sorting gmap strings.
From Stdlib Require Import ZArith Lia Ascii.

Open Scope Z_scope.

(** ** Data model *)

Record Answer := mkAnswer {
  a_id : string;
  ansBy : string;
  ansDateTime : Z;
}.

Record Question := mkQuestion {
  q_id : option string;          (* [_id?: ObjectId] *)
  askedBy : string;
  askDateTime : Z;
  answers : list Answer;         (* populated, newest first *)
  views : list string;
  upVotes : list string;
  downVotes : list string;
  subscribers : list string;
}.

Inductive OrderType := newest | unanswered | active | mostViewed.

(** ** [Array.prototype.sort]

    The engine's sort (V8's merge sort with binary insertion) is stable,
    hands the comparator the later element first, and only tests whether
    the result is negative.  When the negative results of the comparator
    form a strict weak order, every such procedure returns the same array;
    the embedding inserts the elements one by one, each before the first
    element it compares below.  The comparators of this file need this
    reading: [compareActive] returns 1 for two questions without answers,
    whichever comes first. *)
Section array_sort.
Context {A : Type} (comparefn : A → A → Z).

Fixpoint sort_insert (x : A) (sorted : list A) : list A :=
  match sorted with
  | [] => [x]
  | y :: rest =>
      if decide (comparefn x y < 0) then x :: y :: rest
      else y :: sort_insert x rest
  end.

Definition js_sort (l : list A) : list A :=
  fold_left (fun acc x => sort_insert x acc) l [].

(** The order a stable sort produces from a list already ordered by [R]:
    first by the comparator, then, among elements the comparator does not
    separate, by [R]. *)
Definition refined (R : relation A) : relation A :=
  fun a b => comparefn a b < 0 ∨ (¬ comparefn b a < 0 ∧ R a b).
End array_sort.

(** ** Ranking *)
Module Rank.

Abbreviation loc := nat.
Abbreviation Heap := (gmap nat (list Question)).

Definition read (h : Heap) (l : loc) : list Question := default [] (h !! l).

(** [arr.sort(f)]: sorts the array at [l] in place and returns [l]. *)
Definition array_sort (comparefn : Question → Question → Z) (l : loc) (h : Heap)
  : loc * Heap :=
  (l, alter (js_sort comparefn) l h).

(** [arr.filter(p)]: allocates a new array. *)
Definition array_filter (P : Question → Prop) `{∀ q, Decision (P q)}
    (l : loc) (h : Heap) : loc * Heap :=
  let r := fresh (dom h) in
  (r, <[r := filter P (read h l)]> h).

Definition compareNewest (a b : Question) : Z :=
  if decide (askDateTime a > askDateTime b) then -1
  else if decide (askDateTime a < askDateTime b) then 1
  else 0.

Definition sortQuestionsByNewest (qlist : loc) (h : Heap) : loc * Heap :=
  array_sort compareNewest qlist h.

Definition sortQuestionsByUnanswered (qlist : loc) (h : Heap) : loc * Heap :=
  let '(sorted, h1) := sortQuestionsByNewest qlist h in
  array_filter (fun q => length (answers q) = 0%nat) sorted h1.

Definition getMostRecentAnswerTime (question : Question) (mp : gmap string Z)
  : gmap string Z :=
  fold_left
    (fun mp answer =>
       match q_id question with
       | Some id =>
           match mp !! id with
           | Some currentMostRecent =>
               if decide (currentMostRecent < ansDateTime answer)
               then <[id := ansDateTime answer]> mp
               else mp
           | None => <[id := ansDateTime answer]> mp
           end
       | None => mp
       end)
    (answers question) mp.

(** [mp.get(a._id?.toString())] *)
Definition mp_get (mp : gmap string Z) (q : Question) : option Z :=
  match q_id q with
  | Some id => mp !! id
  | None => None
  end.

Definition compareActive (mp : gmap string Z) (a b : Question) : Z :=
  match mp_get mp a with
  | None => 1
  | Some adate =>
      match mp_get mp b with
      | None => -1
      | Some bdate =>
          if decide (adate > bdate) then -1
          else if decide (adate < bdate) then 1
          else 0
      end
  end.

Definition answerTimes (qs : list Question) : gmap string Z :=
  fold_left (fun mp q => getMostRecentAnswerTime q mp) qs ∅.

Definition sortQuestionsByActive (qlist : loc) (h : Heap) : loc * Heap :=
  let mp := answerTimes (read h qlist) in
  let '(sorted, h1) := sortQuestionsByNewest qlist h in
  array_sort (compareActive mp) sorted h1.

Definition compareViews (a b : Question) : Z :=
  Z.of_nat (length (views b)) - Z.of_nat (length (views a)).

Definition sortQuestionsByMostViews (qlist : loc) (h : Heap) : loc * Heap :=
  let '(sorted, h1) := sortQuestionsByNewest qlist h in
  array_sort compareViews sorted h1.

(** The ordering step of [getQuestionsByOrder]; [qlist] is the array the
    query returned. *)
Definition getQuestionsByOrder (order : OrderType) (qlist : loc) (h : Heap)
  : loc * Heap :=
  match order with
  | active => sortQuestionsByActive qlist h
  | unanswered => sortQuestionsByUnanswered qlist h
  | newest => sortQuestionsByNewest qlist h
  | mostViewed => sortQuestionsByMostViews qlist h
  end.

(** The specification's [latestAnswerTime]: the maximum answer time of a
    question, undefined when it has no answer. *)
Definition latestAnswerTime (q : Question) : option Z :=
  match answers q with
  | [] => None
  | a :: rest => Some (fold_left Z.max (ansDateTime <$> rest) (ansDateTime a))
  end.

(** The sequence a ranking returns, and its input array after the call. *)
Definition ranked (order : OrderType) (qlist : loc) (h : Heap) : list Question :=
  let '(r, h1) := getQuestionsByOrder order qlist h in read h1 r.

Definition inputAfter (order : OrderType) (qlist : loc) (h : Heap) : list Question :=
  let '(_, h1) := getQuestionsByOrder order qlist h in read h1 qlist.

(** Questions read from the store: every one has an id, no two share it. *)
Definition keyed (qs : list Question) : Prop :=
  NoDup (q_id <$> qs) ∧ Forall (fun q => is_Some (q_id q)) qs.

End Rank.

(** ** The document store *)

Module NotificationType.
Inductive t :=
  | Answer | Comment | AnswerComment | Upvote | NewQuestion
  | NewPoll | PollClosed | NewArticle | ArticleUpdate | NewReward.

#[global] Instance eq_dec : EqDecision t.
Proof. solve_decision. Defined.
End NotificationType.

(** A notification; [n_id] is assigned by the store when it is saved. *)
Record Notification := mkNotification {
  n_id : option nat;
  notificationType : option NotificationType.t;
  isRead : option bool;
}.

Record User := mkUser {
  u_id : string;
  username : string;
  notifications : list nat;            (* the ids in the array, newest first *)
  blockedNotifications : list NotificationType.t;
  unlockedTitles : list string;
}.

Record Community := mkCommunity {
  members : list string;
  questions : list string;
  polls : list string;
  articles : list string;
}.

Record PollOption := mkPollOption {
  o_id : string;
  usersVoted : list string;
}.

(** A stored poll holds references to its options.  [isClosed] is the field
    of the stored document, absent on a document written without it;
    [pollSchema] declares no such path. *)
Record PollDoc := mkPollDoc {
  p_id : string;
  optionRefs : list string;
  createdBy : string;
  pollDueDate : Z;
  isClosed : option bool;
}.

(** A poll with its options populated. *)
Record Poll := mkPoll {
  poll : PollDoc;
  options : list PollOption;
}.

Record Challenge := mkChallenge {
  c_id : string;
  challengeType : string;
  actionAmount : Z;
  reward : string;
  hoursToComplete : option Z;
}.

Record UserChallengeDoc := mkUserChallengeDoc {
  d_id : nat;
  d_username : string;
  d_challenge : string;                             (* ref *)
  d_progress : list Z;
}.

(** A user challenge whose challenge reference resolved. *)
Record UserChallenge := mkUserChallenge {
  uc_id : nat;
  uc_username : string;
  challenge : Challenge;
  progress : list Z;
}.

Record Store := mkStore {
  QuestionModel : list Question;
  AnswerModel : list Answer;
  UserModel : list User;
  NotificationModel : list Notification;
  CommunityModel : list Community;
  PollModel : list PollDoc;
  PollOptionModel : list PollOption;
  ChallengeModel : list Challenge;
  UserChallengeModel : list UserChallengeDoc;
}.

Definition set_QuestionModel (v : list Question) (s : Store) : Store :=
  mkStore v (AnswerModel s) (UserModel s) (NotificationModel s) (CommunityModel s)
    (PollModel s) (PollOptionModel s) (ChallengeModel s) (UserChallengeModel s).

Definition set_UserModel (v : list User) (s : Store) : Store :=
  mkStore (QuestionModel s) (AnswerModel s) v (NotificationModel s) (CommunityModel s)
    (PollModel s) (PollOptionModel s) (ChallengeModel s) (UserChallengeModel s).

Definition set_NotificationModel (v : list Notification) (s : Store) : Store :=
  mkStore (QuestionModel s) (AnswerModel s) (UserModel s) v (CommunityModel s)
    (PollModel s) (PollOptionModel s) (ChallengeModel s) (UserChallengeModel s).

Definition set_PollModel (v : list PollDoc) (s : Store) : Store :=
  mkStore (QuestionModel s) (AnswerModel s) (UserModel s) (NotificationModel s)
    (CommunityModel s) v (PollOptionModel s) (ChallengeModel s) (UserChallengeModel s).

Definition set_PollOptionModel (v : list PollOption) (s : Store) : Store :=
  mkStore (QuestionModel s) (AnswerModel s) (UserModel s) (NotificationModel s)
    (CommunityModel s) (PollModel s) v (ChallengeModel s) (UserChallengeModel s).

Definition set_UserChallengeModel (v : list UserChallengeDoc) (s : Store) : Store :=
  mkStore (QuestionModel s) (AnswerModel s) (UserModel s) (NotificationModel s)
    (CommunityModel s) (PollModel s) (PollOptionModel s) (ChallengeModel s) v.

(** A success value or [{ error: msg }]. *)
Inductive Response (A : Type) :=
  | Ok (a : A)
  | Error (msg : string).
Arguments Ok {A} a.
Arguments Error {A} msg.

Definition isError {A} (r : Response A) : bool :=
  match r with Ok _ => false | Error _ => true end.

Section store_primitives.
Context {A : Type}.

(** [findOneAndUpdate]: rewrite the first document that matches. *)
Fixpoint update_first (p : A → bool) (f : A → A) (l : list A) : list A :=
  match l with
  | [] => []
  | x :: rest => if p x then f x :: rest else x :: update_first p f rest
  end.

(** [$addToSet] *)
Definition addToSet `{EqDecision A} (x : A) (l : list A) : list A :=
  if decide (x ∈ l) then l else l ++ [x].

(** [Promise.all(xs.map(f))]: every call is started and runs to its end,
    whatever the others return. *)
Fixpoint traverse {B S : Type} (f : A → S → B * S) (l : list A) (s : S)
  : list B * S :=
  match l with
  | [] => ([], s)
  | x :: rest =>
      let '(y, s1) := f x s in
      let '(ys, s2) := traverse f rest s1 in
      (y :: ys, s2)
  end.
End store_primitives.

(** [includes] *)
Definition includes `{EqDecision A} (x : A) (l : list A) : bool :=
  bool_decide (x ∈ l).

Definition populatePoll (s : Store) (p : PollDoc) : Poll :=
  mkPoll p
    (omap (fun ref => List.find (fun o => bool_decide (o_id o = ref)) (PollOptionModel s))
       (optionRefs p)).

(** ** Notification fan-out *)
Module Notify.

Definition findQuestion (qid : string) (s : Store) : option Question :=
  List.find (fun q => bool_decide (q_id q = Some qid)) (QuestionModel s).

Definition findUser (name : string) (s : Store) : option User :=
  List.find (fun u => bool_decide (username u = name)) (UserModel s).

(** The resolvers return [None] where the source throws. *)
Definition usersToNotifyOnNewAnswer (qid : string) (s : Store) : option (list string) :=
  match findQuestion qid s with
  | None => None
  | Some question => Some (askedBy question :: subscribers question)
  end.

Definition questionAskerToNotify (qid : string) (s : Store) : option (list string) :=
  match findQuestion qid s with
  | None => None
  | Some question => Some [askedBy question]
  end.

Definition userToNotifyOnAnswerComment (answerID : string) (s : Store)
  : option (list string) :=
  match List.find (fun a => bool_decide (a_id a = answerID)) (AnswerModel s) with
  | None => None
  | Some ans => Some [ansBy ans]
  end.

Inductive CommunityObjectType := QuestionObject | PollObject | ArticleObject.

Definition fetchCommunityByObjectId (oid : string) (type : CommunityObjectType)
    (s : Store) : option Community :=
  match type with
  | QuestionObject => List.find (fun c => includes oid (questions c)) (CommunityModel s)
  | PollObject => List.find (fun c => includes oid (polls c)) (CommunityModel s)
  | ArticleObject => List.find (fun c => includes oid (articles c)) (CommunityModel s)
  end.

Definition usersToNotifyPollClosed (pid : string) (s : Store) : option (list string) :=
  match List.find (fun p => bool_decide (p_id p = pid)) (PollModel s) with
  | None => None
  | Some p =>
      let usersVoted := concat (usersVoted <$> options (populatePoll s p)) in
      Some (createdBy p :: usersVoted)
  end.

Definition userToNotifyForReward (uid : string) (s : Store) : option (list string) :=
  match List.find (fun u => bool_decide (u_id u = uid)) (UserModel s) with
  | None => None
  | Some user => Some [username user]
  end.

Definition usersToNotify (oid : string) (type : option NotificationType.t) (s : Store)
  : Response (list string) :=
  let caught (r : option (list string)) :=
    match r with
    | Some usernames => Ok usernames
    | None => Error "Error retrieving users to notify"
    end in
  match type with
  | Some NotificationType.Answer => caught (usersToNotifyOnNewAnswer oid s)
  | Some NotificationType.Comment => caught (questionAskerToNotify oid s)
  | Some NotificationType.AnswerComment => caught (userToNotifyOnAnswerComment oid s)
  | Some NotificationType.Upvote => caught (questionAskerToNotify oid s)
  | Some NotificationType.NewQuestion =>
      caught (members <$> fetchCommunityByObjectId oid QuestionObject s)
  | Some NotificationType.NewPoll =>
      caught (members <$> fetchCommunityByObjectId oid PollObject s)
  | Some NotificationType.PollClosed => caught (usersToNotifyPollClosed oid s)
  | Some NotificationType.NewArticle =>
      caught (members <$> fetchCommunityByObjectId oid ArticleObject s)
  | Some NotificationType.ArticleUpdate =>
      caught (members <$> fetchCommunityByObjectId oid ArticleObject s)
  | Some NotificationType.NewReward => caught (userToNotifyForReward oid s)
  | None => Ok []
  end.

(** The ids the store has handed out to notifications. *)
Definition notificationIds (s : Store) : list nat :=
  omap n_id (NotificationModel s).

(** [NotificationModel.create]: a document that brings its [_id] is stored
    under it, and rejected as a duplicate key when the id is taken; a
    document without one is stored under a new id. *)
Definition saveNotification (notification : Notification) (s : Store)
  : Response Notification * Store :=
  match n_id notification with
  | Some nid =>
      if decide (nid ∈ notificationIds s)
      then (Error "Error when saving a notification", s)
      else
        let result :=
          mkNotification (Some nid) (notificationType notification)
            (isRead notification) in
        (Ok result, set_NotificationModel (NotificationModel s ++ [result]) s)
  | None =>
      let result :=
        mkNotification (Some (fresh (notificationIds s)))
          (notificationType notification) (isRead notification) in
      (Ok result, set_NotificationModel (NotificationModel s ++ [result]) s)
  end.

(** [{ $push: { notifications: { $each: [nid], $position: 0 } } }] *)
Definition pushNotification (nid : nat) (u : User) : User :=
  mkUser (u_id u) (username u) (nid :: notifications u)
    (blockedNotifications u) (unlockedTitles u).

(** The inbox of the model is the list of the ids in the stored array.  For
    a notification without an id the update pushes null, which that list
    does not show: the call succeeds and the list is as before. *)
Definition addNotificationToUser (name : string) (notif : Notification) (s : Store)
  : Response User * Store :=
  let failed := Error "Error when adding notification to user" in
  match notificationType notif, isRead notif with
  | Some type, Some _ =>
      match findUser name s with
      | None => (failed, s)
      | Some user =>
          if includes type (blockedNotifications user) then (Ok user, s)
          else
            match n_id notif with
            | None => (Ok user, s)
            | Some nid =>
                (Ok (pushNotification nid user),
                 set_UserModel
                   (update_first (fun u => bool_decide (username u = name))
                      (pushNotification nid) (UserModel s)) s)
            end
      end
  | _, _ => (failed, s)
  end.

(** The saved notifications, or [None] when a save failed. *)
Fixpoint savedOrThrow (rs : list (Response Notification)) : option (list Notification) :=
  match rs with
  | [] => Some []
  | Ok n :: rest => cons n <$> savedOrThrow rest
  | Error _ :: _ => None
  end.

Definition notifyUsers (oid : option string) (notification : Notification) (s : Store)
  : Response (list string) * Store :=
  let failed := Error "Error when adding notifications to users" in
  match oid with
  | None => (failed, s)
  | Some oid =>
      if decide (oid = "") then (failed, s)
      else
        match usersToNotify oid (notificationType notification) s with
        | Error _ => (failed, s)
        | Ok usernames =>
            if decide (usernames = []) then (failed, s)
            else
              let '(responses, s1) :=
                traverse (fun _ => saveNotification notification) usernames s in
              match savedOrThrow responses with
              | None => (failed, s1)
              | Some notifsFromDb =>
                  let '(userResponses, s2) :=
                    traverse (fun '(name, notif) => addNotificationToUser name notif)
                      (zip usernames notifsFromDb) s1 in
                  if existsb isError userResponses then (failed, s2)
                  else (Ok usernames, s2)
              end
        end
  end.

(** The inbox of the user named [name]. *)
Definition inbox (name : string) (s : Store) : list nat :=
  default [] (notifications <$> findUser name s).

(** Whether the user named [name] has blocked notifications of [type]. *)
Definition hasBlocked (name : string) (type : NotificationType.t) (s : Store) : bool :=
  match findUser name s with
  | Some u => includes type (blockedNotifications u)
  | None => false
  end.

(** The ids handed to [name] among the (recipient, notification) pairs of a
    fan-out, last delivery first. *)
Fixpoint deliveredTo (name : string) (pairs : list (string * Notification)) : list nat :=
  match pairs with
  | [] => []
  | (recipient, notif) :: rest =>
      deliveredTo name rest ++
      (if decide (recipient = name)
       then match n_id notif with Some nid => [nid] | None => [] end
       else [])
  end.

End Notify.

(** ** Votes on a question *)
Module Votes.

Inductive VoteType := upvote | downvote.

Definition without (name : string) (l : list string) : list string :=
  filter (fun u => u ≠ name) l.

(** The update pipeline: both fields are computed from the document as it
    was before the update. *)
Definition updateOperation (type : VoteType) (name : string) (q : Question) : Question :=
  match type with
  | upvote =>
      mkQuestion (q_id q) (askedBy q) (askDateTime q) (answers q) (views q)
        (if includes name (upVotes q) then without name (upVotes q)
         else upVotes q ++ [name])
        (if includes name (upVotes q) then downVotes q
         else without name (downVotes q))
        (subscribers q)
  | downvote =>
      mkQuestion (q_id q) (askedBy q) (askDateTime q) (answers q) (views q)
        (if includes name (downVotes q) then upVotes q
         else without name (upVotes q))
        (if includes name (downVotes q) then without name (downVotes q)
         else downVotes q ++ [name])
        (subscribers q)
  end.

Record VoteResult := mkVoteResult {
  msg : string;
  r_upVotes : list string;
  r_downVotes : list string;
}.

Definition addVoteToQuestion (qid name : string) (type : VoteType) (s : Store)
  : Response VoteResult * Store :=
  match Notify.findQuestion qid s with
  | None => (Error "Question not found!", s)
  | Some q =>
      let result := updateOperation type name q in
      let msg :=
        match type with
        | upvote =>
            if includes name (upVotes result) then "Question upvoted successfully"
            else "Upvote cancelled successfully"
        | downvote =>
            if includes name (downVotes result) then "Question downvoted successfully"
            else "Downvote cancelled successfully"
        end in
      (Ok (mkVoteResult msg (upVotes result) (downVotes result)),
       set_QuestionModel
         (update_first (fun q => bool_decide (q_id q = Some qid))
            (updateOperation type name) (QuestionModel s)) s)
  end.

(** A user is in at most one of the two vote lists. *)
Definition exclusive (q : Question) : Prop :=
  ∀ u, ¬ (u ∈ upVotes q ∧ u ∈ downVotes q).

(** The vote lists of the stored question [qid]. *)
Definition votesOf (qid : string) (s : Store) : list string * list string :=
  match Notify.findQuestion qid s with
  | Some q => (upVotes q, downVotes q)
  | None => ([], [])
  end.

End Votes.

(** ** Poll lifecycle *)
Module Polls.

Definition findPoll (pollId : string) (s : Store) : option PollDoc :=
  List.find (fun p => bool_decide (p_id p = pollId)) (PollModel s).

Definition findOption (optionId : string) (s : Store) : option PollOption :=
  List.find (fun o => bool_decide (o_id o = optionId)) (PollOptionModel s).

(** [PollModel.findById(pollId).populate('options')] *)
Definition findByIdPopulated (pollId : string) (s : Store) : option Poll :=
  populatePoll s <$> findPoll pollId s.

(** [poll.isClosed] read as a condition.  [isClosed] is no path of
    [pollSchema], so the property is undefined on a fetched poll, whatever
    the stored document holds. *)
Definition closedFlag (p : PollDoc) : bool := false.

Definition hasVoted (name : string) (p : Poll) : bool :=
  existsb (fun option => includes name (usersVoted option)) (options p).

(** [{ $addToSet: { usersVoted: username } }] *)
Definition castVote (name : string) (o : PollOption) : PollOption :=
  mkPollOption (o_id o) (addToSet name (usersVoted o)).

Definition addVoteToPollOption (pollId optionId name : string) (now : Z) (s : Store)
  : Response Poll * Store :=
  if decide (pollId = "" ∨ optionId = "" ∨ name = "")
  then (Error "Invalid input data", s)
  else
    match findByIdPopulated pollId s with
    | None => (Error "Poll not found", s)
    | Some p =>
        if closedFlag (poll p) || bool_decide (pollDueDate (poll p) <= now)
        then (Error "Unable to vote in closed poll", s)
        else if hasVoted name p
        then (Error "User has already voted in this poll", s)
        else
          match findOption optionId s with
          | None => (Error "Poll option not found", s)
          | Some _ =>
              let s1 :=
                set_PollOptionModel
                  (update_first (fun o => bool_decide (o_id o = optionId))
                     (castVote name) (PollOptionModel s)) s in
              match findByIdPopulated pollId s1 with
              | None => (Error "Error retrieving updated poll", s1)
              | Some updatedPoll => (Ok updatedPoll, s1)
              end
          end
    end.

(** The reasons for which a vote in a poll that is not stored as closed is
    refused. *)
Definition refused (pollId optionId name : string) (now : Z) (s : Store) : Prop :=
  pollId = "" ∨ optionId = "" ∨ name = "" ∨
  findPoll pollId s = None ∨ findOption optionId s = None ∨
  ∃ p, findPoll pollId s = Some p ∧
       (pollDueDate p ≤ now ∨
        ∃ o, o ∈ options (populatePoll s p) ∧ name ∈ usersVoted o).

(** The filter [{ pollDueDate: { $lte: now }, isClosed: false }].  [isClosed]
    is no path of [pollSchema]: when the model's query filters are strict
    (the argument [strictQuery]) the condition on it is dropped, otherwise it
    reaches the database and is matched against the stored document. *)
Definition toClose (strictQuery : bool) (now : Z) (p : PollDoc) : Prop :=
  pollDueDate p <= now ∧ (strictQuery = false → isClosed p = Some false).

#[global] Instance toClose_dec strictQuery now p : Decision (toClose strictQuery now p).
Proof. unfold toClose. apply _. Defined.

(** The update [{ $set: { isClosed: true } }] as [pollSchema] casts it:
    [isClosed] is no path of the schema, the [$set] is dropped and the
    document stays as it is. *)
Definition close (p : PollDoc) : PollDoc := p.

(** [findOneAndUpdate({ _id }, { $set: { isClosed: true } }).populate(...)] *)
Definition closeOne (p : PollDoc) (s : Store) : option Poll * Store :=
  let s1 :=
    set_PollModel
      (update_first (fun d => bool_decide (p_id d = p_id p)) close (PollModel s)) s in
  (findByIdPopulated (p_id p) s1, s1).

Fixpoint foundOrThrow (rs : list (option Poll)) : option (list Poll) :=
  match rs with
  | [] => Some []
  | Some p :: rest => cons p <$> foundOrThrow rest
  | None :: _ => None
  end.

Definition closeExpiredPolls (strictQuery : bool) (now : Z) (s : Store)
  : Response (list Poll) * Store :=
  let pollsToClose := filter (toClose strictQuery now) (PollModel s) in
  let '(results, s1) := traverse closeOne pollsToClose s in
  match foundOrThrow results with
  | None => (Error "Poll not found", s1)
  | Some closedPolls => (Ok closedPolls, s1)
  end.

End Polls.

(** ** Challenge progress *)
Module Challenges.

Definition findChallenge (ref : string) (s : Store) : option Challenge :=
  List.find (fun c => bool_decide (c_id c = ref)) (ChallengeModel s).

(** A fetched record: the stored document and its populated challenge, which
    is null when the reference does not resolve. *)
Definition populate (s : Store) (d : UserChallengeDoc)
  : UserChallengeDoc * option Challenge :=
  (d, findChallenge (d_challenge d) s).

Definition fetchUserChallengesByUsername (name : string) (s : Store)
  : Response (list (UserChallengeDoc * option Challenge)) :=
  Ok (populate s <$> filter (fun d => d_username d = name) (UserChallengeModel s)).

(** The filter of [fetchAndIncrementChallengesByUserAndType]: a record passes
    when its challenge has the type and its progress is short of the target;
    the records that pass have a challenge. *)
Definition selected (type : string) (uc : UserChallengeDoc * option Challenge)
  : option UserChallenge :=
  match uc with
  | (d, Some c) =>
      if bool_decide (challengeType c = type)
         && bool_decide (Z.of_nat (length (d_progress d)) < actionAmount c)
      then Some (mkUserChallenge (d_id d) (d_username d) c (d_progress d))
      else None
  | (_, None) => None
  end.

(** For timed challenges, remove progress entries that have expired. *)
Definition removeExpired (currentTime : Z) (uc : UserChallenge) : UserChallenge :=
  match hoursToComplete (challenge uc) with
  | Some hours =>
      if decide (hours = 0) then uc        (* 0 is falsy *)
      else
        let expireDeadline := currentTime - hours * 1000 * 60 * 60 in
        mkUserChallenge (uc_id uc) (uc_username uc) (challenge uc)
          (filter (fun p => p >= expireDeadline) (progress uc))
  | None => uc
  end.

(** [userChallenges.some(uc => uc.challenge._id === c._id)]; [None] is the
    TypeError raised on a record whose challenge is null. *)
Fixpoint someHasChallenge (userChallenges : list (UserChallengeDoc * option Challenge))
    (c : Challenge) : option bool :=
  match userChallenges with
  | [] => Some false
  | (_, None) :: _ => None
  | (_, Some ch) :: rest =>
      if decide (c_id ch = c_id c) then Some true else someHasChallenge rest c
  end.

Fixpoint challengesToStart (userChallenges : list (UserChallengeDoc * option Challenge))
    (challenges : list Challenge) : option (list Challenge) :=
  match challenges with
  | [] => Some []
  | c :: rest =>
      match someHasChallenge userChallenges c with
      | None => None
      | Some started =>
          match challengesToStart userChallenges rest with
          | None => None
          | Some cs => Some (if started then cs else c :: cs)
          end
      end
  end.

(** [UserChallengeModel.create], wrapped by [saveUserChallenge]. *)
Definition saveUserChallenge (name : string) (c : Challenge) (s : Store)
  : Response UserChallenge * Store :=
  let id := fresh (d_id <$> UserChallengeModel s) in
  (Ok (mkUserChallenge id name c []),
   set_UserChallengeModel
     (UserChallengeModel s ++ [mkUserChallengeDoc id name (c_id c) []]) s).

Fixpoint allOk {A} (rs : list (Response A)) : Response (list A) :=
  match rs with
  | [] => Ok []
  | Ok a :: rest =>
      match allOk rest with
      | Ok l => Ok (a :: l)
      | Error m => Error m
      end
  | Error m :: _ => Error m
  end.

Definition addEntry (currentTime : Z) (uc : UserChallenge) : UserChallenge :=
  mkUserChallenge (uc_id uc) (uc_username uc) (challenge uc)
    (progress uc ++ [currentTime]).

Definition complete (uc : UserChallenge) : bool :=
  bool_decide (Z.of_nat (length (progress uc)) = actionAmount (challenge uc)).

Definition unlockTitle (title : string) (u : User) : User :=
  mkUser (u_id u) (username u) (notifications u) (blockedNotifications u)
    (addToSet title (unlockedTitles u)).

Definition distributeRewardsIfChallengeComplete (userChallenges : list UserChallenge)
    (s : Store) : Store :=
  fold_left
    (fun s uc =>
       if complete uc
       then set_UserModel
              (update_first (fun u => bool_decide (username u = uc_username uc))
                 (unlockTitle (reward (challenge uc))) (UserModel s)) s
       else s)
    userChallenges s.

Definition findUserChallenge (id : nat) (s : Store) : option UserChallengeDoc :=
  List.find (fun d => bool_decide (d_id d = id)) (UserChallengeModel s).

(** The update [{ progress }]: the array is replaced. *)
Definition withProgress (entries : list Z) (d : UserChallengeDoc) : UserChallengeDoc :=
  mkUserChallengeDoc (d_id d) (d_username d) (d_challenge d) entries.

(** [findOneAndUpdate({ _id }, { progress }).populate('challenge')] *)
Definition saveProgress (uc : UserChallenge) (s : Store)
  : Response (UserChallengeDoc * option Challenge) * Store :=
  let s1 :=
    set_UserChallengeModel
      (update_first (fun d => bool_decide (d_id d = uc_id uc))
         (withProgress (progress uc)) (UserChallengeModel s)) s in
  match findUserChallenge (uc_id uc) s1 with
  | None => (Error "Error while updating UserChallenges", s1)
  | Some d => (Ok (populate s1 d), s1)
  end.

(** The records that receive a progress entry: the selected ones, pruned, and
    the ones just created. *)
Definition userChallengesToUpdate (currentTime : Z)
    (filteredUserChallenges newUserChallenges : list UserChallenge) : list UserChallenge :=
  addEntry currentTime <$> filteredUserChallenges ++ newUserChallenges.

Definition fetchAndIncrementChallengesByUserAndType (name type : string)
    (currentTime : Z) (s : Store)
  : Response (list (UserChallengeDoc * option Challenge)) * Store :=
  match Notify.findUser name s with
  | None => (Error "User not found", s)
  | Some _ =>
      match fetchUserChallengesByUsername name s with
      | Error m => (Error m, s)
      | Ok userChallenges =>
          let filteredUserChallenges :=
            removeExpired currentTime <$> omap (selected type) userChallenges in
          let challenges :=
            filter (fun c => challengeType c = type) (ChallengeModel s) in
          match challengesToStart userChallenges challenges with
          | None => (Error "Cannot read properties of null (reading '_id')", s)
          | Some toStart =>
              let '(created, s1) := traverse (saveUserChallenge name) toStart s in
              match allOk created with
              | Error m => (Error m, s1)
              | Ok newUserChallenges =>
                  let toUpdate :=
                    userChallengesToUpdate currentTime filteredUserChallenges
                      newUserChallenges in
                  let s2 := distributeRewardsIfChallengeComplete toUpdate s1 in
                  let '(updated, s3) := traverse saveProgress toUpdate s2 in
                  (allOk updated, s3)
              end
          end
      end
  end.

(** The titles the user named [name] has unlocked. *)
Definition titlesOf (name : string) (s : Store) : list string :=
  default [] (unlockedTitles <$> Notify.findUser name s).

(** The stored progress of the user challenge [id]. *)
Definition progressOf (id : nat) (s : Store) : option (list Z) :=
  d_progress <$> findUserChallenge id s.

(** The progress window of a challenge at [currentTime]: the entries that
    count when it is timed, all of them otherwise. *)
Definition inWindow (currentTime : Z) (c : Challenge) (entries : list Z) : list Z :=
  match hoursToComplete c with
  | Some hours =>
      if decide (hours = 0) then entries
      else filter (fun p => currentTime - hours * 3600000 ≤ p) entries
  | None => entries
  end.

(** The ids of the two collections are keys. *)
Definition keyedStore (s : Store) : Prop :=
  NoDup (d_id <$> UserChallengeModel s) ∧ NoDup (c_id <$> ChallengeModel s).

End Challenges.

(** ** Sample states *)
Module Samples.

Definition qReact : Question :=
  mkQuestion (Some "q1") "alice" 10
    [mkAnswer "a1" "hamkalo" 5; mkAnswer "a2" "azad" 7] ["sana"] [] [] [].
Definition qRouter : Question :=
  mkQuestion (Some "q2") "bob" 20 [mkAnswer "a3" "azad" 9] [] [] [] [].
Definition qStorage : Question :=
  mkQuestion (Some "q3") "carol" 30 [] [] [] [] [].
Definition qQuota : Question :=
  mkQuestion (Some "q4") "dave" 40 [] [] [] [] [].

Definition fetched : list Question := [qReact; qStorage; qRouter; qQuota].

(** The heap after a query returned [fetched] as array 0. *)
Definition heap0 : gmap nat (list Question) := {[ 0%nat := fetched ]}.

Definition emptyStore : Store := mkStore [] [] [] [] [] [] [] [] [].

(** A question that alice has already upvoted. *)
Definition upvotedStore : Store :=
  set_QuestionModel
    [mkQuestion (Some "q1") "bob" 10 [] [] ["alice"] [] []] emptyStore.

(** Two polls past their due date at time 200, one of them stored as closed,
    and one that is still running. *)
Definition pollStore : Store :=
  set_PollOptionModel
    [mkPollOption "o1" ["dave"]; mkPollOption "o2" []; mkPollOption "o3" []]
    (set_PollModel
       [mkPollDoc "p1" ["o1"; "o2"] "alice" 100 (Some false);
        mkPollDoc "p2" ["o3"] "alice" 100 (Some true);
        mkPollDoc "p3" [] "bob" 500 (Some false)] emptyStore).

(** A poll past its due date at time 200 whose document has no [isClosed],
    as a document saved through [pollSchema] is. *)
Definition barePollStore : Store :=
  set_PollOptionModel [mkPollOption "o1" []]
    (set_PollModel [mkPollDoc "p1" ["o1"] "alice" 100 None] emptyStore).

Definition plainUser (name : string) (blocked : list NotificationType.t) : User :=
  mkUser name name [] blocked [].

Definition answerNotification : Notification :=
  mkNotification None (Some NotificationType.Answer) (Some false).

(** Alice asked q1; bob and carol subscribed; bob has blocked Answer
    notifications. *)
Definition fanoutStore : Store :=
  set_UserModel
    [plainUser "alice" []; plainUser "bob" [NotificationType.Answer];
     plainUser "carol" []]
    (set_QuestionModel
       [mkQuestion (Some "q1") "alice" 10 [] [] [] [] ["bob"; "carol"]] emptyStore).

(** Alice asked q1 and subscribed to it herself. *)
Definition selfSubscribedStore : Store :=
  set_UserModel [plainUser "alice" []]
    (set_QuestionModel
       [mkQuestion (Some "q1") "alice" 10 [] [] [] [] ["alice"]] emptyStore).

(** Alice works on two upvote challenges: a timed one with two entries, the
    older of them more than an hour before time 6000000, and one she has
    not started. *)
Definition hourChallenge : Challenge := mkChallenge "c1" "upvote" 3 "Champion" (Some 1).
Definition firstChallenge : Challenge := mkChallenge "c2" "upvote" 1 "First" None.

Definition challengeStore : Store :=
  mkStore [] [] [plainUser "alice" []] [] [] [] [] [hourChallenge; firstChallenge]
    [mkUserChallengeDoc 0 "alice" "c1" [1800000; 5400000]].

(** A challenge whose [hoursToComplete] is 0, with one old entry. *)
Definition zeroHourChallenge : Challenge := mkChallenge "c0" "upvote" 3 "Sprinter" (Some 0).

Definition zeroHourStore : Store :=
  mkStore [] [] [plainUser "alice" []] [] [] [] [] [zeroHourChallenge]
    [mkUserChallengeDoc 0 "alice" "c0" [1000]].

(** A challenge whose target is 0, which alice has not started. *)
Definition idleChallenge : Challenge := mkChallenge "cz" "upvote" 0 "Idle" None.

Definition idleStore : Store :=
  mkStore [] [] [plainUser "alice" []] [] [] [] [] [idleChallenge] [].

End Samples.

(** A list after the toggle of [x]: every occurrence removed when it was
    there, appended when it was not. *)
Definition toggled `{EqDecision A} (x : A) (l : list A) : list A :=
  if includes x l then filter (fun y => y ≠ x) l else l ++ [x].

(** ** Further operations on questions *)
Module Questions.

Definition setSubscribers (v : list string) (q : Question) : Question :=
  mkQuestion (q_id q) (askedBy q) (askDateTime q) (answers q) (views q)
    (upVotes q) (downVotes q) v.

Definition setViews (v : list string) (q : Question) : Question :=
  mkQuestion (q_id q) (askedBy q) (askDateTime q) (answers q) v
    (upVotes q) (downVotes q) (subscribers q).

(** The question is read first; the update, a [$pull] or a [$push], is
    chosen from what was read. *)
Definition addSubscriberToQuestion (qid name : string) (s : Store)
  : Response Question * Store :=
  match Notify.findQuestion qid s with
  | None => (Error "Question not found", s)
  | Some question =>
      let operation q :=
        if includes name (subscribers question)
        then setSubscribers (filter (fun u => u ≠ name) (subscribers q)) q
        else setSubscribers (subscribers q ++ [name]) q in
      let s1 :=
        set_QuestionModel
          (update_first (fun q => bool_decide (q_id q = Some qid)) operation
             (QuestionModel s)) s in
      match Notify.findQuestion qid s1 with
      | None => (Error "Error when subscribing to question", s1)
      | Some result => (Ok result, s1)
      end
  end.

(** [new ObjectId(qid)] is the argument [toObjectId]: the id in its stored
    form, or [None] when the constructor throws.  The result is the updated
    question, or [None] for the null of a question that is not there. *)
Definition fetchAndIncrementQuestionViewsById (toObjectId : string → option string)
    (qid name : string) (s : Store) : Response (option Question) * Store :=
  match toObjectId qid with
  | None => (Error "Error when fetching and updating a question", s)
  | Some id =>
      let s1 :=
        set_QuestionModel
          (update_first (fun q => bool_decide (q_id q = Some id))
             (fun q => setViews (addToSet name (views q)) q) (QuestionModel s)) s in
      (Ok (Notify.findQuestion id s1), s1)
  end.

(** The subscribers and the views of the stored question [qid]. *)
Definition subscribersOf (qid : string) (s : Store) : list string :=
  default [] (subscribers <$> Notify.findQuestion qid s).

Definition viewsOf (qid : string) (s : Store) : list string :=
  default [] (views <$> Notify.findQuestion qid s).

End Questions.

(** ** The inbox: blocked types and read marks *)
Module Inbox.

Definition setBlocked (v : list NotificationType.t) (u : User) : User :=
  mkUser (u_id u) (username u) (notifications u) v (unlockedTitles u).

Definition updateBlockedTypes (name : string) (type : NotificationType.t) (s : Store)
  : Response User * Store :=
  match Notify.findUser name s with
  | None => (Error "User not found", s)
  | Some user =>
      let operation u :=
        if includes type (blockedNotifications user)
        then setBlocked (filter (fun t => t ≠ type) (blockedNotifications u)) u
        else setBlocked (blockedNotifications u ++ [type]) u in
      let s1 :=
        set_UserModel
          (update_first (fun u => bool_decide (username u = name)) operation
             (UserModel s)) s in
      match Notify.findUser name s1 with
      | None => (Error "Error when updating blocked notification types", s1)
      | Some result => (Ok result, s1)
      end
  end.

Definition findNotification (nid : nat) (s : Store) : option Notification :=
  List.find (fun n => bool_decide (n_id n = Some nid)) (NotificationModel s).

Definition markRead (n : Notification) : Notification :=
  mkNotification (n_id n) (notificationType n) (Some true).

Definition updateNotifAsRead (nid : option nat) (s : Store)
  : Response Notification * Store :=
  match nid with
  | None => (Error "Provided notification id is undefined", s)
  | Some nid =>
      let s1 :=
        set_NotificationModel
          (update_first (fun n => bool_decide (n_id n = Some nid)) markRead
             (NotificationModel s)) s in
      match findNotification nid s1 with
      | None => (Error "Error when finding and updating the notification", s1)
      | Some res => (Ok res, s1)
      end
  end.

Inductive SourceType := QuestionSource | PollSource | ArticleSource.

(** Every branch reads the same notification document; the branches differ
    in the collection its source is populated from. *)
Definition populateNotification (id : option nat) (sourceType : option SourceType)
    (s : Store) : Response Notification :=
  match id with
  | None =>
      Error "Error when fetching and populating a notification: Provided id is undefined."
  | Some id =>
      let result :=
        match sourceType with
        | None => findNotification id s
        | Some QuestionSource => findNotification id s
        | Some PollSource => findNotification id s
        | Some ArticleSource => findNotification id s
        end in
      match result with
      | None =>
          Error "Error when fetching and populating a notification: Failed to fetch and populate the notification"
      | Some n => Ok n
      end
  end.

(** The user with the notifications populated, [None] for null.  The first
    populate drops the references that do not resolve. *)
Definition findUser (sourceTypeOf : Notification → option SourceType)
    (name : string) (s : Store) : option (User * list Notification) :=
  match Notify.findUser name s with
  | None => None
  | Some user =>
      let populated := omap (fun nid => findNotification nid s) (notifications user) in
      let responses :=
        (fun notif => populateNotification (n_id notif) (sourceTypeOf notif) s)
          <$> populated in
      match Challenges.allOk responses with
      | Error _ => None
      | Ok notifs => Some (user, notifs)
      end
  end.

Definition updateUserNotifsAsRead (sourceTypeOf : Notification → option SourceType)
    (name : string) (s : Store) : Response (list Notification) * Store :=
  match findUser sourceTypeOf name s with
  | None => (Error "Error while finding the user", s)
  | Some (user, notifs) =>
      let '(responses, s1) :=
        traverse (fun notif => updateNotifAsRead (n_id notif)) notifs s in
      if existsb isError responses
      then (Error "Error while updating notification", s1)
      else (Challenges.allOk responses, s1)
  end.

End Inbox.

(** ** Progress for the asker of a question *)
Module AskerProgress.

Definition incrementProgressForAskedByUser (qid : string) (currentTime : Z) (s : Store)
  : Response (list (UserChallengeDoc * option Challenge)) * Store :=
  match Notify.findQuestion qid s with
  | None => (Error "Question not found", s)
  | Some question =>
      Challenges.fetchAndIncrementChallengesByUserAndType
        (askedBy question) "upvote" currentTime s
  end.

End AskerProgress.

(** ** Tags *)
Module Tags.

(** A tag; [t_id] is assigned by the store when it is saved. *)
Record Tag := mkTag {
  t_id : option nat;
  name : string;
  description : string;
}.

(** [TagModel.findOne({ name })] *)
Definition findOne (n : string) (TagModel : list Tag) : option Tag :=
  List.find (fun t => bool_decide (name t = n)) TagModel.

(** The state is the tag collection; a save of a new tag stores it under a
    new id.  [None] is the null of a failure. *)
Definition addTag (tag : Tag) (TagModel : list Tag) : option Tag * list Tag :=
  match findOne (name tag) TagModel with
  | Some existingTag => (Some existingTag, TagModel)
  | None =>
      let savedTag :=
        mkTag (Some (fresh (omap t_id TagModel))) (name tag) (description tag) in
      (Some savedTag, TagModel ++ [savedTag])
  end.

(** [new Set(tags.map(tag => tag.name))], spread in insertion order. *)
Definition uniqueTagNamesSet (tags : list Tag) : list string :=
  fold_left (fun set tag => addToSet (name tag) set) tags [].

(** The body mapped over the unique tags; [None] is the error thrown when
    [addTag] returns null. *)
Definition processOne (tag : Tag) (TagModel : list Tag) : option Tag * list Tag :=
  match findOne (name tag) TagModel with
  | Some existingTag => (Some existingTag, TagModel)
  | None => addTag tag TagModel
  end.

(** An exception, also the TypeError on a unique tag that was not found, is
    caught and gives the empty array. *)
Definition processTags (tags : list Tag) (TagModel : list Tag) : list Tag * list Tag :=
  match mapM (fun n => findOne n tags) (uniqueTagNamesSet tags) with
  | None => ([], TagModel)
  | Some uniqueTags =>
      let '(processed, TagModel1) := traverse processOne uniqueTags TagModel in
      match mapM id processed with
      | None => ([], TagModel1)
      | Some processedTags => (processedTags, TagModel1)
      end
  end.

End Tags.

(** ** Search *)
Module Search.

(** A fetched question with its tags populated, and the fields the search
    reads. *)
Record PopulatedQuestion := mkPopulatedQuestion {
  question : Question;
  title : string;
  text : string;
  tags : list Tags.Tag;
}.

(** The state of a left-to-right scan for [/\[([^\]]+)\]/g]: outside a
    candidate, or behind an opening bracket with the characters read since. *)
Inductive ScanState := Outside | Inside (read : string).

Definition snoc (s : string) (c : ascii) : string :=
  String.append s (String c EmptyString).

(** The matches of [/\[([^\]]+)\]/g], each without its first and last
    character.  A candidate ends at the first closing bracket; it is a match
    when at least one character was read, and the scan goes on behind it. *)
Fixpoint scanTags (st : ScanState) (s : string) : list string :=
  match s with
  | EmptyString => []
  | String c rest =>
      match st with
      | Outside =>
          if Ascii.eqb c "["%char then scanTags (Inside EmptyString) rest
          else scanTags Outside rest
      | Inside read =>
          if Ascii.eqb c "]"%char then
            (if String.eqb read EmptyString then scanTags Outside rest
             else read :: scanTags Outside rest)
          else scanTags (Inside (snoc read c)) rest
      end
  end.

Definition parseTags (search : string) : list string :=
  scanTags Outside search.

(** [search.replace(/\[([^\]]+)\]/g, ' ')] by the same scan. *)
Fixpoint replaceTags (st : ScanState) (s : string) : string :=
  match s with
  | EmptyString =>
      match st with
      | Outside => EmptyString
      | Inside read => String "["%char read
      end
  | String c rest =>
      match st with
      | Outside =>
          if Ascii.eqb c "["%char then replaceTags (Inside EmptyString) rest
          else String c (replaceTags Outside rest)
      | Inside read =>
          if Ascii.eqb c "]"%char then
            (if String.eqb read EmptyString
             then String "["%char (String "]"%char (replaceTags Outside rest))
             else String " "%char (replaceTags Outside rest))
          else replaceTags (Inside (snoc read c)) rest
      end
  end.

(** [\w]: a letter, a digit or the underscore. *)
Definition isWordChar (c : ascii) : bool :=
  let n := N_of_ascii c in
  ((48 <=? n) && (n <=? 57) || (65 <=? n) && (n <=? 90) || (n =? 95)
   || (97 <=? n) && (n <=? 122))%N.

(** The matches of [/\b\w+\b/g]: the maximal runs of word characters;
    [word] is the run being read. *)
Fixpoint scanWords (word : string) (s : string) : list string :=
  match s with
  | EmptyString => if String.eqb word EmptyString then [] else [word]
  | String c rest =>
      if isWordChar c then scanWords (snoc word c) rest
      else (if String.eqb word EmptyString then [] else [word])
           ++ scanWords EmptyString rest
  end.

Definition parseKeyword (search : string) : list string :=
  scanWords EmptyString (replaceTags Outside search).

Definition checkTagInQuestion (q : PopulatedQuestion) (taglist : list string) : bool :=
  existsb
    (fun tagname => existsb (fun tag => String.eqb tagname (Tags.name tag)) (tags q))
    taglist.

(** [String.prototype.includes] *)
Fixpoint str_includes (w s : string) : bool :=
  String.prefix w s
  || match s with
     | EmptyString => false
     | String _ rest => str_includes w rest
     end.

Definition checkKeywordInQuestion (q : PopulatedQuestion) (keywordlist : list string)
  : bool :=
  existsb (fun w => str_includes w (title q) || str_includes w (text q)) keywordlist.

Definition filterQuestionsByAskedBy (qlist : list PopulatedQuestion) (asker : string)
  : list PopulatedQuestion :=
  List.filter (fun q => bool_decide (askedBy (question q) = asker)) qlist.

Definition filterQuestionsBySearch (qlist : list PopulatedQuestion) (search : string)
  : list PopulatedQuestion :=
  let searchTags := parseTags search in
  let searchKeyword := parseKeyword search in
  match qlist with
  | [] => []
  | _ =>
      List.filter
        (fun q =>
           if (length searchKeyword =? 0)%nat && (length searchTags =? 0)%nat then true
           else if (length searchKeyword =? 0)%nat then checkTagInQuestion q searchTags
           else if (length searchTags =? 0)%nat
           then checkKeywordInQuestion q searchKeyword
           else checkKeywordInQuestion q searchKeyword
                || checkTagInQuestion q searchTags)
        qlist
  end.

(** The terms of a search string and the string they are written as, each
    term followed by a space. *)
Inductive Term := TagTerm (t : string) | WordTerm (w : string).

Fixpoint allChars (P : ascii → bool) (s : string) : bool :=
  match s with
  | EmptyString => true
  | String c rest => P c && allChars P rest
  end.

Definition wellFormed (term : Term) : bool :=
  match term with
  | TagTerm t =>
      negb (String.eqb t EmptyString) && allChars (fun c => negb (Ascii.eqb c "]"%char)) t
  | WordTerm w => negb (String.eqb w EmptyString) && allChars isWordChar w
  end.

Fixpoint render (terms : list Term) : string :=
  match terms with
  | [] => EmptyString
  | TagTerm t :: rest =>
      String "["%char (String.append t (String "]"%char (String " "%char (render rest))))
  | WordTerm w :: rest => String.append w (String " "%char (render rest))
  end.

Definition tagTerms (terms : list Term) : list string :=
  omap (fun term => match term with TagTerm t => Some t | WordTerm _ => None end) terms.

Definition wordTerms (terms : list Term) : list string :=
  omap (fun term => match term with WordTerm w => Some w | TagTerm _ => None end) terms.

End Search.

(** ** Tag counts *)
Module TagCounts.

(** A [Map] from tag names to counts, in insertion order. *)
Abbreviation JsMap := (list (string * nat)).

Definition get (k : string) (m : JsMap) : option nat :=
  snd <$> List.find (fun p => bool_decide (fst p = k)) m.

(** [Map.prototype.set]: a key that is there keeps its place. *)
Fixpoint set (k : string) (v : nat) (m : JsMap) : JsMap :=
  match m with
  | [] => [(k, v)]
  | (k', v') :: rest =>
      if decide (k' = k) then (k, v) :: rest else (k', v') :: set k v rest
  end.

(** [tlist] is the tag collection and [qlist] the questions with their tags
    populated; [None] is null. *)
Definition getTagCountMap (tlist : list Tags.Tag) (qlist : list Search.PopulatedQuestion)
  : option JsMap :=
  match tlist with
  | [] => None
  | _ =>
      let tmap := fold_left (fun m t => set (Tags.name t) 0%nat m) tlist [] in
      Some
        (fold_left
           (fun tmap q =>
              fold_left
                (fun tmap t =>
                   set (Tags.name t) (default 0%nat (get (Tags.name t) tmap) + 1)%nat tmap)
                (Search.tags q) tmap)
           qlist tmap)
  end.

(** The number of tags named [n] on the questions of [qlist]. *)
Definition occurrences (n : string) (qlist : list Search.PopulatedQuestion) : nat :=
  length (filter (fun t => Tags.name t = n) (concat (Search.tags <$> qlist))).

End TagCounts.

(** * Properties *)

(** ** The sort *)
Section sort_facts.
Context {A : Type} (comparefn : A → A → Z).

Local Abbreviation below x y := (comparefn x y < 0).

Lemma sort_insert_perm x l : sort_insert comparefn x l ≡ₚ x :: l.
Proof.
  induction l as [|y l IH]; simpl; [done|].
  case_decide; [done|]. rewrite IH. apply Permutation_swap.
Qed.

Lemma sort_fold_perm l acc :
  fold_left (fun acc x => sort_insert comparefn x acc) l acc ≡ₚ acc ++ l.
Proof.
  revert acc. induction l as [|x l IH]; intros acc; simpl.
  - by rewrite app_nil_r.
  - rewrite IH, sort_insert_perm.
    by rewrite (Permutation_middle acc l x).
Qed.

Lemma js_sort_perm l : js_sort comparefn l ≡ₚ l.
Proof. unfold js_sort. by rewrite sort_fold_perm. Qed.

Hypothesis below_asym : ∀ x y, below x y → ¬ below y x.
Hypothesis below_cotrans : ∀ x y z, below x y → below x z ∨ below z y.

Lemma sort_insert_sorted (R : relation A) x l :
  StronglySorted (refined comparefn R) l →
  Forall (fun a => R a x) l →
  StronglySorted (refined comparefn R) (sort_insert comparefn x l).
Proof.
  induction l as [|y l IH]; simpl; intros Hs Hx.
  - repeat constructor.
  - apply StronglySorted_inv in Hs as [Hl Hy].
    apply Forall_cons in Hx as [Ryx Hx].
    case_decide as Hxy.
    + constructor; [by constructor|].
      constructor; [by left|].
      eapply Forall_impl; [exact Hy|]. intros z Hyz. left.
      destruct (below_cotrans x y z Hxy) as [|Hzy]; [done|].
      destruct Hyz as [Hyz|[Hn _]]; [|done].
      by destruct (below_asym _ _ Hyz).
    + constructor; [by apply IH|].
      rewrite sort_insert_perm. constructor; [by right|done].
Qed.

Lemma sort_fold_sorted (R : relation A) l acc :
  StronglySorted (refined comparefn R) acc →
  StronglySorted R l →
  Forall (fun a => Forall (R a) l) acc →
  StronglySorted (refined comparefn R)
    (fold_left (fun acc x => sort_insert comparefn x acc) l acc).
Proof.
  revert acc. induction l as [|x l IH]; intros acc Hacc Hl Hal; simpl; [done|].
  apply StronglySorted_inv in Hl as [Hl Hx].
  apply IH; [|done|].
  - apply sort_insert_sorted; [done|].
    eapply Forall_impl; [exact Hal|]. intros a Ha. by inversion Ha.
  - rewrite sort_insert_perm. constructor; [done|].
    eapply Forall_impl; [exact Hal|]. intros a Ha. by inversion Ha.
Qed.

Lemma js_sort_stable (R : relation A) l :
  StronglySorted R l → StronglySorted (refined comparefn R) (js_sort comparefn l).
Proof.
  intros Hl. apply sort_fold_sorted; [constructor|done|constructor].
Qed.
End sort_facts.

Lemma StronglySorted_mono {A} (R1 R2 : relation A) l :
  (∀ a b, a ∈ l → b ∈ l → R1 a b → R2 a b) →
  StronglySorted R1 l → StronglySorted R2 l.
Proof.
  induction l as [|x l IH]; intros Himp Hs; [constructor|].
  apply StronglySorted_inv in Hs as [Hl Hx]. constructor.
  - apply IH; [|done]. intros a b Ha Hb. apply Himp; by right.
  - apply Forall_forall. intros b Hb.
    apply Himp; [left|by right|]. rewrite Forall_forall in Hx. by apply Hx.
Qed.

Lemma StronglySorted_lookup {A} (R : relation A) l i j a b :
  StronglySorted R l → (i < j)%nat → l !! i = Some a → l !! j = Some b → R a b.
Proof.
  intros Hs. revert i j. induction Hs as [|x l Hl IH Hx]; intros i j Hij Hi Hj.
  - done.
  - destruct j as [|j]; [lia|]. simpl in Hj. destruct i as [|i]; simpl in Hi.
    + injection Hi as ->. rewrite Forall_forall in Hx. apply Hx.
      by eapply list_elem_of_lookup_2.
    + apply (IH i j); [lia|done|done].
Qed.

(** ** Ranking *)
Section rank_facts.
Import Rank.

Lemma compareNewest_below a b :
  compareNewest a b < 0 ↔ askDateTime b < askDateTime a.
Proof. unfold compareNewest. repeat case_decide; lia. Qed.

Lemma compareActive_below mp a b :
  compareActive mp a b < 0 ↔
  match mp_get mp a, mp_get mp b with
  | Some adate, Some bdate => bdate < adate
  | Some _, None => True
  | None, _ => False
  end.
Proof.
  unfold compareActive.
  destruct (mp_get mp a), (mp_get mp b); repeat case_decide; lia.
Qed.

Lemma compareActive_asym mp x y :
  compareActive mp x y < 0 → ¬ compareActive mp y x < 0.
Proof.
  rewrite !compareActive_below.
  destruct (mp_get mp x), (mp_get mp y); lia.
Qed.

Lemma compareActive_cotrans mp x y z :
  compareActive mp x y < 0 →
  compareActive mp x z < 0 ∨ compareActive mp z y < 0.
Proof.
  rewrite !compareActive_below.
  destruct (mp_get mp x), (mp_get mp y), (mp_get mp z); lia.
Qed.

(** Newest first: the array [sortQuestionsByNewest] leaves behind. *)
Lemma newest_sorted qs :
  StronglySorted (fun a b => askDateTime b ≤ askDateTime a)
    (js_sort compareNewest qs).
Proof.
  eapply StronglySorted_mono;
    [|apply (js_sort_stable compareNewest) with (R := fun _ _ => True)].
  - intros a b _ _ [H|[H _]]; rewrite compareNewest_below in H; lia.
  - intros x y. rewrite !compareNewest_below. lia.
  - intros x y z. rewrite !compareNewest_below. lia.
  - induction qs; constructor; [done|]. by apply Forall_forall.
Qed.

(** One question's answers, folded into the map. *)
Lemma recent_fold_other id (l : list Answer) (mp : gmap string Z) k :
  id ≠ k →
  fold_left
    (fun mp answer =>
       match mp !! id with
       | Some currentMostRecent =>
           if decide (currentMostRecent < ansDateTime answer)
           then <[id := ansDateTime answer]> mp
           else mp
       | None => <[id := ansDateTime answer]> mp
       end) l mp !! k = mp !! k.
Proof.
  intros Hne. revert mp. induction l as [|a l IH]; intros mp; simpl; [done|].
  rewrite IH. destruct (mp !! id); [case_decide|]; by rewrite ?lookup_insert_ne.
Qed.

Lemma recent_fold_some id (l : list Answer) (mp : gmap string Z) c :
  mp !! id = Some c →
  fold_left
    (fun mp answer =>
       match mp !! id with
       | Some currentMostRecent =>
           if decide (currentMostRecent < ansDateTime answer)
           then <[id := ansDateTime answer]> mp
           else mp
       | None => <[id := ansDateTime answer]> mp
       end) l mp !! id = Some (fold_left Z.max (ansDateTime <$> l) c).
Proof.
  revert mp c. induction l as [|a l IH]; intros mp c Hc; simpl; [done|].
  rewrite Hc. case_decide.
  - erewrite IH; [|apply lookup_insert_eq]. f_equal. f_equal. lia.
  - erewrite IH; [|exact Hc]. f_equal. f_equal. lia.
Qed.

Lemma recent_other q mp k :
  q_id q ≠ Some k → getMostRecentAnswerTime q mp !! k = mp !! k.
Proof.
  intros Hne. unfold getMostRecentAnswerTime. destruct (q_id q) as [id|].
  - apply recent_fold_other. congruence.
  - generalize (answers q). intros l. revert mp. by induction l.
Qed.

Lemma recent_self q mp id :
  q_id q = Some id → mp !! id = None →
  getMostRecentAnswerTime q mp !! id = latestAnswerTime q.
Proof.
  intros Hid Hnone. unfold getMostRecentAnswerTime, latestAnswerTime.
  rewrite Hid. destruct (answers q) as [|a l]; simpl; [done|].
  rewrite Hnone. apply recent_fold_some, lookup_insert_eq.
Qed.

Lemma answerTimes_other qs mp k :
  (∀ q, q ∈ qs → q_id q ≠ Some k) →
  fold_left (fun mp q => getMostRecentAnswerTime q mp) qs mp !! k = mp !! k.
Proof.
  revert mp. induction qs as [|q qs IH]; intros mp Hk; simpl; [done|].
  rewrite IH; [|intros; apply Hk; by right].
  apply recent_other, Hk. by left.
Qed.

Lemma answerTimes_fold_get qs mp :
  keyed qs →
  (∀ q, q ∈ qs → mp_get mp q = None) →
  ∀ q, q ∈ qs →
    mp_get (fold_left (fun mp q => getMostRecentAnswerTime q mp) qs mp) q
    = latestAnswerTime q.
Proof.
  revert mp. induction qs as [|q0 qs IH]; intros mp [Hnd Hid] Hfresh q Hq.
  - by apply elem_of_nil in Hq.
  - simpl in Hnd. apply NoDup_cons in Hnd as [Hq0 Hnd].
    apply Forall_cons in Hid as [[id0 Hid0] Hid]. simpl.
    assert (Hrest : ∀ q', q' ∈ qs → q_id q' ≠ Some id0).
    { intros q' Hq' Heq. apply Hq0. rewrite Hid0, <- Heq.
      by apply list_elem_of_fmap_2. }
    apply elem_of_cons in Hq as [->|Hq].
    + unfold mp_get. rewrite Hid0, answerTimes_other by done.
      apply recent_self; [done|].
      specialize (Hfresh q0 (ltac:(by left))). unfold mp_get in Hfresh.
      by rewrite Hid0 in Hfresh.
    + apply IH; [done| |done].
      intros q' Hq'. specialize (Hfresh q' (ltac:(by right))).
      unfold mp_get in *. destruct (q_id q') as [id'|] eqn:Hid'; [|done].
      rewrite recent_other; [done|]. rewrite Hid0. intros [= ->].
      by apply (Hrest q').
Qed.

Lemma answerTimes_get qs q :
  keyed qs → q ∈ qs → mp_get (answerTimes qs) q = latestAnswerTime q.
Proof.
  intros Hk Hq. apply answerTimes_fold_get; [done| |done].
  intros q' _. unfold mp_get. destruct (q_id q'); [apply lookup_empty|done].
Qed.

(** What each ranking does to the heap. *)
Lemma sortQuestionsByNewest_run h qlist qs :
  h !! qlist = Some qs →
  sortQuestionsByNewest qlist h = (qlist, <[qlist := js_sort compareNewest qs]> h).
Proof.
  intros Hq. unfold sortQuestionsByNewest, array_sort. f_equal.
  apply map_eq. intros l. destruct (decide (qlist = l)) as [->|Hne].
  - by rewrite lookup_alter_eq, lookup_insert_eq, Hq.
  - by rewrite lookup_alter_ne, lookup_insert_ne.
Qed.

Lemma array_sort_insert f h qlist qs :
  array_sort f qlist (<[qlist := qs]> h) = (qlist, <[qlist := js_sort f qs]> h).
Proof.
  unfold array_sort. f_equal.
  apply map_eq. intros l. destruct (decide (qlist = l)) as [->|Hne].
  - by rewrite lookup_alter_eq, !lookup_insert_eq.
  - by rewrite lookup_alter_ne, !lookup_insert_ne.
Qed.

Lemma sortQuestionsByActive_run h qlist qs :
  h !! qlist = Some qs →
  sortQuestionsByActive qlist h
  = (qlist,
     <[qlist := js_sort (compareActive (answerTimes qs)) (js_sort compareNewest qs)]> h).
Proof.
  intros Hq. unfold sortQuestionsByActive.
  rewrite (sortQuestionsByNewest_run _ _ _ Hq).
  unfold read. rewrite Hq. simpl. apply array_sort_insert.
Qed.

Lemma active_sorted qs :
  StronglySorted
    (refined (compareActive (answerTimes qs))
       (fun a b => askDateTime b ≤ askDateTime a))
    (js_sort (compareActive (answerTimes qs)) (js_sort compareNewest qs)).
Proof.
  apply js_sort_stable.
  - apply compareActive_asym.
  - apply compareActive_cotrans.
  - apply newest_sorted.
Qed.

(** C8: ranking by [active] puts the answered questions first, by latest
    answer time descending, and breaks every tie, also among the questions
    without answers, by newest ask time first. *)
Theorem C8_active_order h qlist qs :
  h !! qlist = Some qs →
  keyed qs →
  let out := ranked active qlist h in
  out ≡ₚ qs ∧
  ∀ i j a b, (i < j)%nat → out !! i = Some a → out !! j = Some b →
    (answers b ≠ [] → answers a ≠ []) ∧
    (∀ adate bdate,
        latestAnswerTime a = Some adate → latestAnswerTime b = Some bdate →
        bdate ≤ adate) ∧
    (latestAnswerTime a = latestAnswerTime b → askDateTime b ≤ askDateTime a).
Proof.
  intros Hq Hk out.
  assert (Hout : out =
    js_sort (compareActive (answerTimes qs)) (js_sort compareNewest qs)).
  { unfold out, ranked, getQuestionsByOrder.
    rewrite (sortQuestionsByActive_run _ _ _ Hq).
    unfold read. by rewrite lookup_insert_eq. }
  assert (Hperm : out ≡ₚ qs) by (by rewrite Hout, !js_sort_perm).
  split; [done|]. intros i j a b Hij Hi Hj.
  assert (Ha : a ∈ qs) by (rewrite <- Hperm; by eapply list_elem_of_lookup_2).
  assert (Hb : b ∈ qs) by (rewrite <- Hperm; by eapply list_elem_of_lookup_2).
  pose proof (active_sorted qs) as Hs. rewrite <- Hout in Hs.
  pose proof (StronglySorted_lookup _ _ _ _ _ _ Hs Hij Hi Hj) as Hab.
  unfold refined in Hab. rewrite !compareActive_below in Hab.
  rewrite !(answerTimes_get qs) in Hab by done.
  unfold latestAnswerTime in *.
  destruct (answers a) as [|a1 la], (answers b) as [|b1 lb];
    (split; [|split]); try done; try (intros; simplify_eq; lia);
    intuition (simplify_eq; try lia).
Qed.

Lemma C8_active_order_witness :
  Samples.heap0 !! 0%nat = Some Samples.fetched ∧
  keyed Samples.fetched ∧
  let out := ranked active 0%nat Samples.heap0 in
  out ≡ₚ Samples.fetched ∧
  ∀ i j a b, (i < j)%nat → out !! i = Some a → out !! j = Some b →
    (answers b ≠ [] → answers a ≠ []) ∧
    (∀ adate bdate,
        latestAnswerTime a = Some adate → latestAnswerTime b = Some bdate →
        bdate ≤ adate) ∧
    (latestAnswerTime a = latestAnswerTime b → askDateTime b ≤ askDateTime a).
Proof.
  assert (H1 : Samples.heap0 !! 0%nat = Some Samples.fetched) by reflexivity.
  assert (H2 : keyed Samples.fetched).
  { split; apply (bool_decide_unpack _); vm_compute; exact I. }
  exact (conj H1 (conj H2 (C8_active_order _ _ _ H1 H2))).
Defined.

Lemma inputAfter_newest h qlist qs :
  h !! qlist = Some qs → inputAfter newest qlist h = js_sort compareNewest qs.
Proof.
  intros Hq. unfold inputAfter, getQuestionsByOrder.
  rewrite (sortQuestionsByNewest_run _ _ _ Hq). unfold read.
  by rewrite lookup_insert_eq.
Qed.

Lemma sortQuestionsByUnanswered_run h qlist qs :
  h !! qlist = Some qs →
  ∃ r, r ≠ qlist ∧
    sortQuestionsByUnanswered qlist h
    = (r, <[r := filter (fun q => length (answers q) = 0%nat) (js_sort compareNewest qs)]>
            (<[qlist := js_sort compareNewest qs]> h)).
Proof.
  intros Hq. unfold sortQuestionsByUnanswered.
  rewrite (sortQuestionsByNewest_run _ _ _ Hq). unfold array_filter.
  set (h1 := <[qlist := js_sort compareNewest qs]> h).
  exists (fresh (dom h1)). split.
  - intros Heq. apply (is_fresh (dom h1)). rewrite Heq.
    apply elem_of_dom. unfold h1. rewrite lookup_insert_eq. by eexists.
  - unfold read, h1. by rewrite lookup_insert_eq.
Qed.

(** C9, as the code has it: the rankings [newest], [active] and [unanswered]
    sort the input array in place.  After the call the input holds the same
    questions reordered, newest first for [newest] and [unanswered]; [newest]
    and [active] return the input array itself, [unanswered] a new array with
    the answerless questions of the sorted input. *)
Theorem C9_sorts_input_in_place order h qlist qs :
  order ≠ mostViewed →
  h !! qlist = Some qs →
  let after := inputAfter order qlist h in
  after ≡ₚ qs ∧
  (order ≠ active →
     after = js_sort compareNewest qs ∧
     StronglySorted (fun a b => askDateTime b ≤ askDateTime a) after) ∧
  (order ≠ unanswered →
     (getQuestionsByOrder order qlist h).1 = qlist ∧
     ranked order qlist h = after) ∧
  (order = unanswered →
     (getQuestionsByOrder order qlist h).1 ≠ qlist ∧
     ranked order qlist h = filter (fun q => length (answers q) = 0%nat) after).
Proof.
  intros Hmv Hq after. unfold after, inputAfter, ranked.
  destruct order; [| | |done]; unfold getQuestionsByOrder.
  - rewrite (sortQuestionsByNewest_run _ _ _ Hq). unfold read.
    rewrite lookup_insert_eq. simpl.
    repeat split; try done; [apply js_sort_perm|apply newest_sorted].
  - destruct (sortQuestionsByUnanswered_run _ _ _ Hq) as (r & Hr & ->).
    unfold read. rewrite lookup_insert_eq, lookup_insert_ne, lookup_insert_eq by done.
    simpl. repeat split; try done; [apply js_sort_perm|apply newest_sorted].
  - rewrite (sortQuestionsByActive_run _ _ _ Hq). unfold read.
    rewrite lookup_insert_eq. simpl.
    repeat split; try done. by rewrite !js_sort_perm.
Qed.

Lemma C9_sorts_input_in_place_witness :
  unanswered ≠ mostViewed ∧
  Samples.heap0 !! 0%nat = Some Samples.fetched ∧
  let after := inputAfter unanswered 0%nat Samples.heap0 in
  after ≡ₚ Samples.fetched ∧
  (unanswered ≠ active →
     after = js_sort compareNewest Samples.fetched ∧
     StronglySorted (fun a b => askDateTime b ≤ askDateTime a) after) ∧
  (unanswered ≠ unanswered →
     (getQuestionsByOrder unanswered 0%nat Samples.heap0).1 = 0%nat ∧
     ranked unanswered 0%nat Samples.heap0 = after) ∧
  (unanswered = unanswered →
     (getQuestionsByOrder unanswered 0%nat Samples.heap0).1 ≠ 0%nat ∧
     ranked unanswered 0%nat Samples.heap0
     = filter (fun q => length (answers q) = 0%nat) after).
Proof.
  assert (H1 : unanswered ≠ mostViewed) by discriminate.
  assert (H2 : Samples.heap0 !! 0%nat = Some Samples.fetched) by reflexivity.
  exact (conj H1 (conj H2 (C9_sorts_input_in_place _ _ _ _ H1 H2))).
Defined.

(** C9 as stated fails: ranking by [newest] reorders the very array it was
    given. *)
Lemma C9_input_mutated :
  read Samples.heap0 0%nat
    = [Samples.qReact; Samples.qStorage; Samples.qRouter; Samples.qQuota] ∧
  inputAfter newest 0%nat Samples.heap0
    = [Samples.qQuota; Samples.qStorage; Samples.qRouter; Samples.qReact] ∧
  inputAfter newest 0%nat Samples.heap0 ≠ read Samples.heap0 0%nat.
Proof.
  split; [reflexivity|]. split; [by vm_compute|].
  vm_compute. intros [=].
Qed.

End rank_facts.

(** ** Store primitives *)
Section store_facts.
Context {A : Type}.

Lemma find_update_first (p : A → bool) (f : A → A) l :
  (∀ x, p (f x) = p x) →
  List.find p (update_first p f l) = f <$> List.find p l.
Proof.
  intros Hp. induction l as [|x l IH]; simpl; [done|].
  destruct (p x) eqn:Hx; simpl.
  - by rewrite Hp, Hx.
  - by rewrite Hx.
Qed.

Lemma find_update_first_other (p q : A → bool) (f : A → A) l :
  (∀ x, q (f x) = q x) →
  (∀ x, p x = true → q x = false) →
  List.find q (update_first p f l) = List.find q l.
Proof.
  intros Hq Hpq. induction l as [|x l IH]; simpl; [done|].
  destruct (p x) eqn:Hx; simpl.
  - by rewrite Hq, (Hpq x Hx).
  - by rewrite IH.
Qed.

Lemma update_first_none (p : A → bool) (f : A → A) l :
  List.find p l = None → update_first p f l = l.
Proof.
  induction l as [|x l IH]; simpl; [done|].
  destruct (p x); [done|]. intros H. by rewrite IH.
Qed.

Lemma find_elem_of (p : A → bool) l x :
  List.find p l = Some x → x ∈ l ∧ p x = true.
Proof.
  intros H. apply find_some in H as [H1 H2]. by rewrite list_elem_of_In.
Qed.

Context {K : Type} `{EqDecision K} (key : A → K).

Lemma find_key_none k l :
  k ∉ key <$> l → List.find (fun x => bool_decide (key x = k)) l = None.
Proof.
  induction l as [|x l IH]; simpl; [done|]. intros Hk.
  apply not_elem_of_cons in Hk as [Hne Hk].
  rewrite bool_decide_eq_false_2 by done. by apply IH.
Qed.

Lemma find_key_unique l x :
  NoDup (key <$> l) → x ∈ l →
  List.find (fun y => bool_decide (key y = key x)) l = Some x.
Proof.
  induction l as [|y l IH]; simpl; intros Hnd Hx.
  - by apply elem_of_nil in Hx.
  - apply NoDup_cons in Hnd as [Hy Hnd].
    apply elem_of_cons in Hx as [->|Hx].
    + by rewrite bool_decide_eq_true_2.
    + rewrite bool_decide_eq_false_2; [by apply IH|].
      intros Heq. apply Hy. rewrite Heq. by apply list_elem_of_fmap_2.
Qed.

Lemma update_first_unique k (f : A → A) l :
  NoDup (key <$> l) →
  update_first (fun x => bool_decide (key x = k)) f l
  = (fun x => if decide (key x = k) then f x else x) <$> l.
Proof.
  induction l as [|x l IH]; simpl; intros Hnd; [done|].
  apply NoDup_cons in Hnd as [Hx Hnd].
  case_bool_decide as Hk.
  - rewrite decide_True by done. f_equal.
    rewrite <- (list_fmap_id l) at 1. apply list_fmap_ext.
    intros i y Hy. rewrite decide_False; [done|].
    intros Heq. apply Hx. rewrite Hk, <- Heq.
    apply list_elem_of_fmap_2. by eapply list_elem_of_lookup_2.
  - rewrite decide_False by done. f_equal. by apply IH.
Qed.

Lemma find_fmap_key k (g : A → A) l :
  (∀ x, key (g x) = key x) →
  List.find (fun x => bool_decide (key x = k)) (g <$> l)
  = g <$> List.find (fun x => bool_decide (key x = k)) l.
Proof.
  intros Hg. induction l as [|x l IH]; simpl; [done|].
  rewrite Hg. by case_bool_decide.
Qed.
End store_facts.

Lemma Forall2_elem_impl {A B} (P Q : A → B → Prop) l k :
  Forall2 P l k → (∀ x y, x ∈ l → P x y → Q x y) → Forall2 Q l k.
Proof.
  induction 1 as [|x y l k Hxy Hlk IH]; intros Himp; constructor.
  - apply Himp; [by left|done].
  - apply IH. intros x' y' Hx'. apply Himp. by right.
Qed.

Lemma addToSet_elem `{EqDecision A} (x : A) l : x ∈ addToSet x l.
Proof.
  unfold addToSet. case_decide; [done|]. apply elem_of_app. right. by left.
Qed.

Lemma addToSet_elem_iff `{EqDecision A} (x y : A) l :
  y ∈ addToSet x l ↔ y = x ∨ y ∈ l.
Proof.
  unfold addToSet. case_decide.
  - split; [by right|]. by intros [->|].
  - rewrite elem_of_app, list_elem_of_singleton. tauto.
Qed.

Lemma addToSet_idemp `{EqDecision A} (x : A) l :
  addToSet x (addToSet x l) = addToSet x l.
Proof.
  unfold addToSet at 1. rewrite decide_True; [done|]. apply addToSet_elem.
Qed.

Lemma addToSet_NoDup `{EqDecision A} (x : A) l : NoDup l → NoDup (addToSet x l).
Proof.
  intros Hl. unfold addToSet. case_decide; [done|].
  apply NoDup_app. split; [done|]. split; [|apply NoDup_singleton].
  intros y Hy ->%list_elem_of_singleton. done.
Qed.

Lemma set_QuestionModel_same s : set_QuestionModel (QuestionModel s) s = s.
Proof. by destruct s. Qed.

Lemma set_PollModel_same s : set_PollModel (PollModel s) s = s.
Proof. by destruct s. Qed.

(** ** Votes on a question *)
Section vote_facts.
Import Votes.

Lemma elem_of_without name u l : u ∈ without name l ↔ u ≠ name ∧ u ∈ l.
Proof. unfold without. by rewrite list_elem_of_filter. Qed.

Lemma includes_true `{EqDecision A} (x : A) l : includes x l = true ↔ x ∈ l.
Proof. unfold includes. apply bool_decide_eq_true. Qed.

Lemma includes_false `{EqDecision A} (x : A) l : includes x l = false ↔ x ∉ l.
Proof. unfold includes. apply bool_decide_eq_false. Qed.

Lemma updateOperation_exclusive type name q :
  exclusive q → exclusive (updateOperation type name q).
Proof.
  intros Hq u [Hu Hd]. apply (Hq u).
  destruct type; simpl in Hu, Hd.
  - destruct (includes name (upVotes q)) eqn:Hin.
    + apply elem_of_without in Hu as [_ Hu]. done.
    + apply elem_of_without in Hd as [Hne Hd].
      apply elem_of_app in Hu as [Hu|Hu%list_elem_of_singleton]; done.
  - destruct (includes name (downVotes q)) eqn:Hin.
    + apply elem_of_without in Hd as [_ Hd]. done.
    + apply elem_of_without in Hu as [Hne Hu].
      apply elem_of_app in Hd as [Hd|Hd%list_elem_of_singleton]; done.
Qed.

(** The membership of the voter after one vote. *)
Lemma upvote_membership name q :
  let q' := updateOperation upvote name q in
  (name ∈ upVotes q' ↔ name ∉ upVotes q) ∧
  (name ∈ downVotes q' ↔ name ∈ upVotes q ∧ name ∈ downVotes q).
Proof.
  simpl. destruct (includes name (upVotes q)) eqn:Hin.
  - apply includes_true in Hin. rewrite elem_of_without. tauto.
  - apply includes_false in Hin.
    rewrite elem_of_app, list_elem_of_singleton, elem_of_without. tauto.
Qed.

Lemma downvote_membership name q :
  let q' := updateOperation downvote name q in
  (name ∈ downVotes q' ↔ name ∉ downVotes q) ∧
  (name ∈ upVotes q' ↔ name ∈ downVotes q ∧ name ∈ upVotes q).
Proof.
  simpl. destruct (includes name (downVotes q)) eqn:Hin.
  - apply includes_true in Hin. rewrite elem_of_without. tauto.
  - apply includes_false in Hin.
    rewrite elem_of_app, list_elem_of_singleton, elem_of_without. tauto.
Qed.

Lemma updateOperation_id type name q :
  q_id (updateOperation type name q) = q_id q.
Proof. by destruct type. Qed.

(** The stored question after a vote. *)
Lemma addVoteToQuestion_stored qid name type s q :
  Notify.findQuestion qid s = Some q →
  Notify.findQuestion qid (addVoteToQuestion qid name type s).2
  = Some (updateOperation type name q).
Proof.
  intros Hq. unfold addVoteToQuestion. rewrite Hq. simpl.
  unfold Notify.findQuestion in *. simpl.
  rewrite find_update_first, Hq; [done|].
  intros x. by rewrite updateOperation_id.
Qed.

(** C3, as the code has it: a vote keeps every user in at most one of the two
    lists; two successive upvotes restore the voter's membership, which is in
    neither list when the voter had not upvoted before and in [upVotes] again
    when the voter had; an upvote followed by a downvote leaves the voter in
    [downVotes] only, and after the first upvote of a voter who had not
    upvoted the voter is in [upVotes] only. *)
Theorem C3_vote_toggle s qid name q :
  Notify.findQuestion qid s = Some q →
  exclusive q →
  let vote type s := (addVoteToQuestion qid name type s).2 in
  (∀ type, ∃ q', Notify.findQuestion qid (vote type s) = Some q' ∧ exclusive q') ∧
  (name ∉ upVotes q →
     name ∈ fst (votesOf qid (vote upvote s)) ∧
     (name ∉ snd (votesOf qid (vote upvote s))) ∧
     (name ∉ fst (votesOf qid (vote upvote (vote upvote s)))) ∧
     name ∉ snd (votesOf qid (vote upvote (vote upvote s)))) ∧
  (name ∈ upVotes q →
     name ∈ fst (votesOf qid (vote upvote (vote upvote s)))) ∧
  ((name ∉ fst (votesOf qid (vote downvote (vote upvote s)))) ∧
   name ∈ snd (votesOf qid (vote downvote (vote upvote s)))).
Proof.
  intros Hq Hex vote.
  assert (Hstep : ∀ type s0 q0, Notify.findQuestion qid s0 = Some q0 →
            Notify.findQuestion qid (vote type s0)
            = Some (updateOperation type name q0)).
  { intros. by apply addVoteToQuestion_stored. }
  pose proof (Hstep upvote s q Hq) as H1.
  pose proof (Hstep upvote _ _ H1) as H2.
  pose proof (Hstep downvote _ _ H1) as H3.
  pose proof (upvote_membership name q) as [Hu1 Hd1].
  pose proof (upvote_membership name (updateOperation upvote name q)) as [Hu2 Hd2].
  pose proof (downvote_membership name (updateOperation upvote name q)) as [Hd3 Hu3].
  pose proof (Hex name) as Hboth.
  split; [|split; [|split]].
  - intros type. eexists. split; [by apply Hstep|].
    by apply updateOperation_exclusive.
  - intros Hn. unfold votesOf. rewrite H1, H2. simpl fst. simpl snd. tauto.
  - intros Hi. unfold votesOf. rewrite H2. simpl fst. tauto.
  - unfold votesOf. rewrite H3. simpl fst. simpl snd. tauto.
Qed.

Lemma C3_vote_toggle_witness :
  Notify.findQuestion "q1" Samples.upvotedStore
    = Some (mkQuestion (Some "q1") "bob" 10 [] [] ["alice"] [] []) ∧
  exclusive (mkQuestion (Some "q1") "bob" 10 [] [] ["alice"] [] []) ∧
  let q := mkQuestion (Some "q1") "bob" 10 [] [] ["alice"] [] [] in
  let s := Samples.upvotedStore in
  let vote type s := (addVoteToQuestion "q1" "alice" type s).2 in
  (∀ type, ∃ q', Notify.findQuestion "q1" (vote type s) = Some q' ∧ exclusive q') ∧
  ("alice" ∉ upVotes q →
     "alice" ∈ fst (votesOf "q1" (vote upvote s)) ∧
     ("alice" ∉ snd (votesOf "q1" (vote upvote s))) ∧
     ("alice" ∉ fst (votesOf "q1" (vote upvote (vote upvote s)))) ∧
     "alice" ∉ snd (votesOf "q1" (vote upvote (vote upvote s)))) ∧
  ("alice" ∈ upVotes q →
     "alice" ∈ fst (votesOf "q1" (vote upvote (vote upvote s)))) ∧
  (("alice" ∉ fst (votesOf "q1" (vote downvote (vote upvote s)))) ∧
   "alice" ∈ snd (votesOf "q1" (vote downvote (vote upvote s)))).
Proof.
  assert (H1 : Notify.findQuestion "q1" Samples.upvotedStore
    = Some (mkQuestion (Some "q1") "bob" 10 [] [] ["alice"] [] [])) by reflexivity.
  assert (H2 : exclusive (mkQuestion (Some "q1") "bob" 10 [] [] ["alice"] [] [])).
  { intros u [_ Hd]. simpl in Hd. by apply elem_of_nil in Hd. }
  exact (conj H1 (conj H2 (C3_vote_toggle _ _ "alice" _ H1 H2))).
Defined.

(** C3 as stated fails: alice, who had upvoted the question, is in [upVotes]
    again after two successive upvotes. *)
Lemma C3_two_upvotes_keep_upvote :
  let s := Samples.upvotedStore in
  let vote s := (addVoteToQuestion "q1" "alice" upvote s).2 in
  exclusive (mkQuestion (Some "q1") "bob" 10 [] [] ["alice"] [] []) ∧
  votesOf "q1" s = (["alice"], []) ∧
  votesOf "q1" (vote s) = ([], []) ∧
  votesOf "q1" (vote (vote s)) = (["alice"], []) ∧
  ¬ (("alice" ∉ fst (votesOf "q1" (vote (vote s)))) ∧
     "alice" ∉ snd (votesOf "q1" (vote (vote s)))).
Proof.
  simpl. split; [|split; [|split; [|split]]]; try by vm_compute.
  - intros u [_ Hd]. simpl in Hd. by apply elem_of_nil in Hd.
  - intros [Hu _]. apply Hu. vm_compute. by left.
Qed.

End vote_facts.

(** ** Poll lifecycle *)
Section poll_facts.
Import Polls.

Lemma hasVoted_true name p :
  hasVoted name p = true ↔ ∃ o, o ∈ options p ∧ name ∈ usersVoted o.
Proof.
  unfold hasVoted. rewrite existsb_exists. split.
  - intros (o & Ho%list_elem_of_In & Hin%includes_true). eauto.
  - intros (o & Ho%list_elem_of_In & Hin%includes_true). eauto.
Qed.

Lemma findPoll_after_vote pollId optionId name s :
  findPoll pollId
    (set_PollOptionModel
       (update_first (fun o => bool_decide (o_id o = optionId)) (castVote name)
          (PollOptionModel s)) s)
  = findPoll pollId s.
Proof. done. Qed.

(** C4, as the code has it, for a poll that is not stored as closed: a vote
    returns an error exactly when the poll id, the option id or the username
    is empty, the poll or the target option does not exist, the poll is past
    its due date, or the username is in [usersVoted] of any option of the
    poll; an error leaves the store as it was.  Otherwise the username is
    added to the target option with set semantics and the poll is returned
    with its options populated from the updated store. *)
Theorem C4_vote_outcome pollId optionId name now s :
  (∀ p, findPoll pollId s = Some p → isClosed p ≠ Some true) →
  let r := (addVoteToPollOption pollId optionId name now s).1 in
  let s' := (addVoteToPollOption pollId optionId name now s).2 in
  (isError r = true ↔ refused pollId optionId name now s) ∧
  (isError r = true → s' = s) ∧
  (isError r = false →
     ∃ p o,
       findPoll pollId s = Some p ∧ findOption optionId s = Some o ∧
       findOption optionId s' = Some (castVote name o) ∧
       name ∈ usersVoted (castVote name o) ∧
       (name ∈ usersVoted o → usersVoted (castVote name o) = usersVoted o) ∧
       PollModel s' = PollModel s ∧
       r = Ok (populatePoll s' p) ∧
       options (populatePoll s' p)
       = omap (fun ref => findOption ref s') (optionRefs p)).
Proof.
  intros _. cbv zeta. unfold refused.
  destruct (addVoteToPollOption pollId optionId name now s) as [r s'] eqn:Hrun.
  simpl. unfold addVoteToPollOption, findByIdPopulated in Hrun.
  case_decide as Hempty.
  { simplify_eq. simpl. split; [|done]. split; [|done]. intros _. tauto. }
  destruct (findPoll pollId s) as [p|] eqn:Hp; simpl in Hrun.
  2:{ simplify_eq. simpl. split; [|done]. split; [|done]. intros _. tauto. }
  destruct (bool_decide (pollDueDate p ≤ now)) eqn:Hdue.
  { simplify_eq. simpl. split; [|done]. split; [|done]. intros _.
    do 5 right. exists p. split; [done|].
    apply bool_decide_eq_true in Hdue. tauto. }
  apply bool_decide_eq_false in Hdue.
  destruct (hasVoted name (populatePoll s p)) eqn:Hv.
  { simplify_eq. simpl. split; [|done]. split; [|done]. intros _.
    do 5 right. exists p. split; [done|].
    apply hasVoted_true in Hv. tauto. }
  assert (Hnv : ¬ ∃ o, o ∈ options (populatePoll s p) ∧ name ∈ usersVoted o).
  { intros Hx%hasVoted_true. congruence. }
  destruct (findOption optionId s) as [o|] eqn:Ho.
  2:{ simplify_eq. simpl. split; [|done]. split; [|done]. intros _. tauto. }
  rewrite findPoll_after_vote, Hp in Hrun. simpl in Hrun. simplify_eq. simpl.
  split; [|split; [done|]].
  - split; [done|].
    intros [?|[?|[?|[?|[?|(p' & Hp' & Hx)]]]]]; try tauto; try done.
    simplify_eq. tauto.
  - intros _. exists p, o. repeat split; try done.
    + unfold findOption in *. simpl.
      rewrite find_update_first, Ho; [done|]. intros x. done.
    + apply addToSet_elem.
    + intros Hin. unfold addToSet. by rewrite decide_True.
Qed.

Lemma C4_vote_outcome_witness :
  let s := Samples.pollStore in
  let r := (addVoteToPollOption "p1" "o2" "erin" 50 s).1 in
  let s' := (addVoteToPollOption "p1" "o2" "erin" 50 s).2 in
  (∀ p, findPoll "p1" s = Some p → isClosed p ≠ Some true) ∧
  (isError r = true ↔ refused "p1" "o2" "erin" 50 s) ∧
  (isError r = true → s' = s) ∧
  (isError r = false →
     ∃ p o,
       findPoll "p1" s = Some p ∧ findOption "o2" s = Some o ∧
       findOption "o2" s' = Some (castVote "erin" o) ∧
       ("erin" : string) ∈ usersVoted (castVote "erin" o) ∧
       (("erin" : string) ∈ usersVoted o
        → usersVoted (castVote "erin" o) = usersVoted o) ∧
       PollModel s' = PollModel s ∧
       r = Ok (populatePoll s' p) ∧
       options (populatePoll s' p)
       = omap (fun ref => findOption ref s') (optionRefs p)).
Proof.
  intros s.
  assert (H : ∀ p, findPoll "p1" s = Some p → isClosed p ≠ Some true).
  { intros p [= <-]. discriminate. }
  exact (conj H (C4_vote_outcome "p1" "o2" "erin" 50 s H)).
Defined.

(** C4 as stated fails: with an empty username the vote is refused although
    the poll and the option exist, the poll is open and not yet due, and the
    username is in no option's [usersVoted]. *)
Lemma C4_empty_username_refused :
  let s := Samples.pollStore in
  isError (addVoteToPollOption "p3" "o2" "" 50 s).1 = true ∧
  ∃ p, findPoll "p3" s = Some p ∧
       is_Some (findOption "o2" s) ∧
       isClosed p ≠ Some true ∧
       ¬ pollDueDate p ≤ 50 ∧
       ¬ ∃ o, o ∈ PollOptionModel s ∧ "" ∈ usersVoted o.
Proof.
  simpl. split; [reflexivity|]. eexists. split; [reflexivity|].
  split; [by eexists|]. split; [discriminate|]. split; [simpl; lia|].
  intros (o & Ho & Hin). simpl in Ho.
  repeat (apply elem_of_cons in Ho as [->|Ho]; [by repeat
    (apply elem_of_cons in Hin as [Hin|Hin]; [discriminate|]);
    apply elem_of_nil in Hin|]).
  by apply elem_of_nil in Ho.
Qed.

(** C10: a call with an empty poll id, option id or username returns
    ['Invalid input data'] whatever the store and the clock hold, and leaves
    the store as it was. *)
Theorem C10_invalid_input pollId optionId name :
  pollId = "" ∨ optionId = "" ∨ name = "" →
  ∀ now s,
    addVoteToPollOption pollId optionId name now s = (Error "Invalid input data", s) ∧
    PollModel (addVoteToPollOption pollId optionId name now s).2 = PollModel s ∧
    PollOptionModel (addVoteToPollOption pollId optionId name now s).2
      = PollOptionModel s ∧
    UserModel (addVoteToPollOption pollId optionId name now s).2 = UserModel s ∧
    ∀ now' s',
      (addVoteToPollOption pollId optionId name now' s').1
      = (addVoteToPollOption pollId optionId name now s).1.
Proof.
  intros Hempty now s.
  assert (Hrun : ∀ t st,
    addVoteToPollOption pollId optionId name t st = (Error "Invalid input data", st)).
  { intros t st. unfold addVoteToPollOption. by rewrite decide_True. }
  rewrite Hrun. simpl. repeat split; try done.
  intros now' s'. by rewrite Hrun.
Qed.

Lemma C10_invalid_input_witness :
  ("p1" = "" ∨ "o2" = "" ∨ "" = "") ∧
  ∀ now s,
    addVoteToPollOption "p1" "o2" "" now s = (Error "Invalid input data", s) ∧
    PollModel (addVoteToPollOption "p1" "o2" "" now s).2 = PollModel s ∧
    PollOptionModel (addVoteToPollOption "p1" "o2" "" now s).2
      = PollOptionModel s ∧
    UserModel (addVoteToPollOption "p1" "o2" "" now s).2 = UserModel s ∧
    ∀ now' s',
      (addVoteToPollOption "p1" "o2" "" now' s').1
      = (addVoteToPollOption "p1" "o2" "" now s).1.
Proof.
  assert (H : "p1" = "" ∨ "o2" = "" ∨ "" = "") by (right; right; reflexivity).
  exact (conj H (C10_invalid_input "p1" "o2" "" H)).
Defined.

Lemma key_inj_elem {A K} `{EqDecision K} (key : A → K) l x y :
  NoDup (key <$> l) → x ∈ l → y ∈ l → key x = key y → x = y.
Proof.
  intros Hnd Hx Hy Heq.
  pose proof (find_key_unique key l x Hnd Hx) as H1.
  pose proof (find_key_unique key l y Hnd Hy) as H2.
  rewrite Heq in H1. congruence.
Qed.

Lemma close_id d : p_id (close d) = p_id d.
Proof. done. Qed.

Lemma traverse_cons {A B S} (f : A → S → B * S) x l s :
  traverse f (x :: l) s
  = let '(y, s1) := f x s in
    let '(ys, s2) := traverse f l s1 in (y :: ys, s2).
Proof. done. Qed.

Lemma update_first_close (p : PollDoc → bool) l : update_first p close l = l.
Proof.
  induction l as [|x l IH]; simpl; [done|]. destruct (p x); [done|]. by rewrite IH.
Qed.

(** The update of one poll writes nothing and returns the poll stored under
    the id. *)
Lemma closeOne_run p s : closeOne p s = (findByIdPopulated (p_id p) s, s).
Proof.
  unfold closeOne. rewrite update_first_close. by rewrite set_PollModel_same.
Qed.

Lemma traverse_closeOne L s :
  traverse closeOne L s = ((fun p => findByIdPopulated (p_id p) s) <$> L, s).
Proof.
  induction L as [|p L IH]; [done|].
  by rewrite traverse_cons, closeOne_run, IH.
Qed.

Lemma foundOrThrow_all (f : PollDoc → Poll) L :
  foundOrThrow ((fun p => Some (f p)) <$> L) = Some (f <$> L).
Proof.
  induction L as [|p L IH]; [done|].
  rewrite fmap_cons. cbn [foundOrThrow]. by rewrite IH.
Qed.

Lemma closeExpiredPolls_run strictQuery now s :
  NoDup (p_id <$> PollModel s) →
  closeExpiredPolls strictQuery now s
  = (Ok (populatePoll s <$> filter (toClose strictQuery now) (PollModel s)), s).
Proof.
  intros Hnd. unfold closeExpiredPolls. rewrite traverse_closeOne.
  assert (Hfound :
    (fun p => findByIdPopulated (p_id p) s) <$> filter (toClose strictQuery now) (PollModel s)
    = (fun p => Some (populatePoll s p)) <$> filter (toClose strictQuery now) (PollModel s)).
  { apply list_fmap_ext. intros i p Hp%list_elem_of_lookup_2.
    apply list_elem_of_filter in Hp as [_ Hp].
    unfold findByIdPopulated, findPoll. by rewrite (find_key_unique p_id). }
  rewrite Hfound, foundOrThrow_all. done.
Qed.

(** C5 fails on the code: the sweep at time 200 returns the due poll [p1]
    with its options populated but as open as it was stored, leaves the
    store as it was, and so returns the same poll on the next sweep.  Under
    a strict query filter the due poll [p2], stored as closed, is returned
    as well.  A due poll whose document has no [isClosed] is returned, as it
    is, under a strict query filter and is not selected otherwise; it is
    not closed either way. *)
Theorem C5_due_poll_stays_open :
  let s := Samples.pollStore in
  let p1 := mkPollDoc "p1" ["o1"; "o2"] "alice" 100 (Some false) in
  let p2 := mkPollDoc "p2" ["o3"] "alice" 100 (Some true) in
  let closed1 := mkPoll p1 [mkPollOption "o1" ["dave"]; mkPollOption "o2" []] in
  let closed2 := mkPoll p2 [mkPollOption "o3" []] in
  let bare := mkPoll (mkPollDoc "p1" ["o1"] "alice" 100 None) [mkPollOption "o1" []] in
  closeExpiredPolls false 200 s = (Ok [closed1], s) ∧
  closeExpiredPolls true 200 s = (Ok [closed1; closed2], s) ∧
  isClosed (poll closed1) = Some false ∧
  findPoll "p1" (closeExpiredPolls false 200 s).2 = Some p1 ∧
  findPoll "p1" (closeExpiredPolls true 200 s).2 = Some p1 ∧
  closeExpiredPolls false 200 (closeExpiredPolls false 200 s).2
  = (Ok [closed1], s) ∧
  closeExpiredPolls false 200 Samples.barePollStore = (Ok [], Samples.barePollStore) ∧
  closeExpiredPolls true 200 Samples.barePollStore = (Ok [bare], Samples.barePollStore).
Proof.
  assert (Hnd : NoDup (p_id <$> PollModel Samples.pollStore)).
  { apply (bool_decide_unpack _). vm_compute. exact I. }
  assert (Hbare : NoDup (p_id <$> PollModel Samples.barePollStore)).
  { apply (bool_decide_unpack _). vm_compute. exact I. }
  cbv zeta. rewrite !closeExpiredPolls_run by (exact Hnd || exact Hbare).
  repeat split.
Qed.

End poll_facts.

(** ** Notification fan-out *)
Section notify_facts.
Import Notify.

(** One save that succeeded. *)
Lemma saveNotification_ok (n : Notification) s d s0 :
  saveNotification n s = (Ok d, s0) →
  (∃ i, n_id d = Some i ∧ i ∉ notificationIds s) ∧
  notificationType d = notificationType n ∧ isRead d = isRead n ∧
  s0 = set_NotificationModel (NotificationModel s ++ [d]) s.
Proof.
  unfold saveNotification. destruct (n_id n) as [i|] eqn:Hid.
  - destruct (decide (i ∈ notificationIds s)) as [Hin|Hout]; [done|].
    intros [= <- <-]. split; [by exists i|done].
  - intros [= <- <-]. split; [|done].
    exists (fresh (notificationIds s)). split; [done|]. apply infinite_is_fresh.
Qed.

(** Saving one notification per recipient, every save succeeding. *)
Lemma saveAll_run (n : Notification) (us : list string) s rs s1 created :
  traverse (fun _ => saveNotification n) us s = (rs, s1) →
  savedOrThrow rs = Some created →
  rs = Ok <$> created ∧
  s1 = set_NotificationModel (NotificationModel s ++ created) s ∧
  length created = length us ∧
  NoDup (n_id <$> created) ∧
  ∀ d, d ∈ created →
    notificationType d = notificationType n ∧ isRead d = isRead n ∧
    ∃ i, n_id d = Some i ∧ i ∉ notificationIds s.
Proof.
  revert s rs s1 created.
  induction us as [|u us IH]; intros s rs s1 created Hrun Hsaved.
  - simpl in Hrun. injection Hrun as <- <-. simpl in Hsaved. injection Hsaved as <-.
    simpl. rewrite app_nil_r. split; [done|]. split; [by destruct s|].
    split; [done|]. split; [constructor|]. by intros d Hd%elem_of_nil.
  - rewrite traverse_cons in Hrun.
    destruct (saveNotification n s) as [r s0] eqn:Hstep.
    destruct (traverse (fun _ => saveNotification n) us s0) as [rs' s1'] eqn:Hrest.
    injection Hrun as <- <-.
    destruct r as [d0|m]; [|done]. simpl in Hsaved.
    destruct (savedOrThrow rs') as [created'|] eqn:Hsaved'; [|done].
    injection Hsaved as <-.
    destruct (saveNotification_ok _ _ _ _ Hstep) as ((i0 & Hi0 & Hfresh0) & Ht0 & Hr0 & ->).
    destruct (IH _ _ _ _ Hrest Hsaved') as (-> & -> & Hlen & Hnd & Hall).
    assert (Hids : notificationIds
                     (set_NotificationModel (NotificationModel s ++ [d0]) s)
                   = notificationIds s ++ [i0]).
    { unfold notificationIds. simpl. rewrite omap_app. simpl. by rewrite Hi0. }
    split; [done|]. split; [simpl; by rewrite <- app_assoc|].
    split; [simpl; by rewrite Hlen|]. split.
    + simpl. apply NoDup_cons. split; [|done].
      intros (d & Hd & Hin)%list_elem_of_fmap.
      destruct (Hall d Hin) as (_ & _ & i & Hi & Hfresh).
      apply Hfresh. rewrite Hids. apply elem_of_app. right.
      rewrite Hi0 in Hd. rewrite <- Hd in Hi. simplify_eq. by left.
    + intros d [->|Hd]%elem_of_cons.
      * split; [done|]. split; [done|]. by exists i0.
      * destruct (Hall d Hd) as (Ht & Hr & i & Hi & Hfresh).
        split; [done|]. split; [done|].
        exists i. split; [done|]. intros Hin. apply Hfresh.
        rewrite Hids. apply elem_of_app. by left.
Qed.

(** A notification without an id of its own is always saved. *)
Lemma saveAll_total (n : Notification) (us : list string) s rs s1 :
  n_id n = None →
  traverse (fun _ => saveNotification n) us s = (rs, s1) →
  is_Some (savedOrThrow rs).
Proof.
  intros Hid. revert s rs s1. induction us as [|u us IH]; intros s rs s1 Hrun.
  - simpl in Hrun. injection Hrun as <- <-. by eexists.
  - rewrite traverse_cons in Hrun. unfold saveNotification at 1 in Hrun.
    rewrite Hid in Hrun.
    destruct (traverse (fun _ => saveNotification n) us _) as [rs' s1'] eqn:Hrest.
    injection Hrun as <- <-. simpl.
    destruct (IH _ _ _ Hrest) as [created ->]. by eexists.
Qed.

Lemma savedOrThrow_all created : savedOrThrow (Ok <$> created) = Some created.
Proof.
  induction created as [|d created IH]; [done|].
  rewrite fmap_cons. cbn [savedOrThrow]. by rewrite IH.
Qed.

(** One delivery that did not fail. *)
Lemma addNotificationToUser_ok name notif s r s' t nid :
  addNotificationToUser name notif s = (r, s') →
  isError r = false →
  notificationType notif = Some t →
  n_id notif = Some nid →
  NotificationModel s' = NotificationModel s ∧
  is_Some (findUser name s) ∧
  ∀ u, findUser u s'
       = (if decide (u = name ∧ hasBlocked name t s = false)
          then pushNotification nid else id) <$> findUser u s.
Proof.
  intros Hrun Hok Ht Hid. unfold addNotificationToUser in Hrun.
  rewrite Ht, Hid in Hrun. unfold hasBlocked.
  destruct (isRead notif); [|by simplify_eq].
  destruct (findUser name s) as [user|] eqn:Huser; [|by simplify_eq].
  split; [|split; [by eexists|]].
  { destruct (includes t (blockedNotifications user)); by simplify_eq. }
  destruct (includes t (blockedNotifications user)) eqn:Hb; simplify_eq.
  - intros u.
    rewrite decide_False by (intros [_ Hx]; discriminate Hx).
    by rewrite option_fmap_id.
  - intros u. unfold findUser in *. simpl.
    destruct (decide (u = name)) as [->|Hne].
    + rewrite decide_True by done. by apply find_update_first.
    + rewrite decide_False by (intros [Hx _]; by apply Hne).
      rewrite find_update_first_other; [by rewrite option_fmap_id|done|].
      intros x Hx%bool_decide_eq_true. apply bool_decide_eq_false. congruence.
Qed.

Lemma hasBlocked_fmap u t s s' (f : User → User) :
  (∀ x, blockedNotifications (f x) = blockedNotifications x) →
  findUser u s' = f <$> findUser u s →
  hasBlocked u t s' = hasBlocked u t s.
Proof.
  intros Hf Hu. unfold hasBlocked. rewrite Hu.
  destruct (findUser u s); simpl; [by rewrite Hf|done].
Qed.

(** Delivering to every recipient, none of the deliveries failing. *)
Lemma deliver_run t (pairs : list (string * Notification)) s rs s' :
  traverse (fun '(name, notif) => addNotificationToUser name notif) pairs s = (rs, s') →
  existsb isError rs = false →
  (∀ name notif, (name, notif) ∈ pairs →
     notificationType notif = Some t ∧ is_Some (n_id notif)) →
  NotificationModel s' = NotificationModel s ∧
  ∀ u, hasBlocked u t s' = hasBlocked u t s ∧
       inbox u s'
       = (if hasBlocked u t s then [] else deliveredTo u pairs) ++ inbox u s.
Proof.
  revert s rs s'. induction pairs as [|[name notif] pairs IH]; intros s rs s' Hrun Hok Hall.
  - simpl in Hrun. injection Hrun as <- <-. split; [done|]. intros u.
    split; [done|]. by destruct (hasBlocked u t s).
  - rewrite traverse_cons in Hrun.
    destruct (addNotificationToUser name notif s) as [r s0] eqn:Hstep.
    destruct (traverse _ pairs s0) as [rs' s1] eqn:Hrest.
    injection Hrun as <- <-.
    simpl in Hok. apply orb_false_iff in Hok as [Hr Hrs].
    destruct (Hall name notif (ltac:(by left))) as [Ht [nid Hid]].
    destruct (addNotificationToUser_ok _ _ _ _ _ _ _ Hstep Hr Ht Hid)
      as (Hn0 & [user Huser] & Hu0).
    destruct (IH _ _ _ Hrest Hrs) as [Hn1 Hu1].
    { intros name' notif' Hin. apply (Hall name'). by right. }
    split; [congruence|]. intros u.
    destruct (Hu1 u) as [Hb1 Hi1].
    assert (Hb0 : hasBlocked u t s0 = hasBlocked u t s).
    { eapply hasBlocked_fmap; [|apply Hu0]. intros x. by destruct (decide _). }
    assert (Hi0 : inbox u s0
              = (if decide (u = name ∧ hasBlocked name t s = false)
                 then [nid] else []) ++ inbox u s).
    { unfold inbox. rewrite Hu0. destruct (decide _) as [[-> _]|_].
      - by rewrite Huser.
      - by rewrite option_fmap_id. }
    split; [congruence|]. rewrite Hi1, Hb0, Hi0. cbn [deliveredTo]. rewrite Hid.
    destruct (hasBlocked u t s) eqn:Hb; simpl.
    + rewrite decide_False; [done|]. intros [-> Hx]. congruence.
    + destruct (decide (name = u)) as [->|Hne].
      * rewrite decide_True by done. by rewrite <- app_assoc.
      * rewrite decide_False by (intros [Hx _]; by apply Hne).
        by rewrite app_nil_r.
Qed.

(** A fan-out that returned the recipients. *)
Lemma notifyUsers_ok oid n s recipients s' t :
  notificationType n = Some t →
  notifyUsers (Some oid) n s = (Ok recipients, s') →
  oid ≠ "" ∧ recipients ≠ [] ∧
  usersToNotify oid (Some t) s = Ok recipients ∧
  ∃ created,
    NotificationModel s' = NotificationModel s ++ created ∧
    length created = length recipients ∧
    NoDup (n_id <$> created) ∧
    (∀ d, d ∈ created →
       notificationType d = Some t ∧ ∃ i, n_id d = Some i ∧ i ∉ notificationIds s) ∧
    ∀ u, hasBlocked u t s' = hasBlocked u t s ∧
         inbox u s'
         = (if hasBlocked u t s then [] else deliveredTo u (zip recipients created))
           ++ inbox u s.
Proof.
  intros Ht Hrun. unfold notifyUsers in Hrun. rewrite Ht in Hrun.
  case_decide as Hoid; [by simplify_eq|].
  destruct (usersToNotify oid (Some t) s) as [usernames|] eqn:Hus; [|by simplify_eq].
  case_decide as Hne; [by simplify_eq|].
  destruct (traverse (fun _ => saveNotification n) usernames s) as [rs s1] eqn:Hsave.
  destruct (savedOrThrow rs) as [created|] eqn:Hsaved; [|by simplify_eq].
  destruct (saveAll_run _ _ _ _ _ _ Hsave Hsaved) as (-> & -> & Hlen & Hnd & Hall).
  destruct (traverse _ (zip usernames created) _) as [urs s2] eqn:Hdeliver.
  destruct (existsb isError urs) eqn:Herr; [by simplify_eq|].
  injection Hrun as <- <-.
  assert (Hcreated : ∀ d, d ∈ created →
            notificationType d = Some t ∧ ∃ i, n_id d = Some i ∧ i ∉ notificationIds s).
  { intros d Hd. destruct (Hall d Hd) as (Hdt & _ & Hi). split; [congruence|done]. }
  destruct (deliver_run t _ _ _ _ Hdeliver Herr) as [Hn Hu].
  { intros name notif Hin%elem_of_zip_r.
    destruct (Hcreated notif Hin) as (? & i & ? & _). split; [done|by exists i]. }
  split; [done|]. split; [done|]. split; [done|].
  exists created. split; [by rewrite Hn|]. split; [done|]. split; [done|].
  split; [done|]. exact Hu.
Qed.

Lemma deliveredTo_length u (us : list string) (created : list Notification) :
  length created = length us →
  (∀ d, d ∈ created → is_Some (n_id d)) →
  length (deliveredTo u (zip us created)) = length (filter (fun x => x = u) us).
Proof.
  revert created. induction us as [|x us IH]; intros [|d created] Hlen Hall;
    simpl in Hlen; try done.
  cbn [zip zip_with deliveredTo]. rewrite length_app, IH.
  - destruct (Hall d (ltac:(by left))) as [i ->].
    destruct (decide (x = u)) as [->|Hne].
    + rewrite filter_cons_True by done. simpl. lia.
    + rewrite filter_cons_False by done. simpl. lia.
  - lia.
  - intros d' Hd'. apply Hall. by right.
Qed.

Lemma deliveredTo_elem u (pairs : list (string * Notification)) i :
  i ∈ deliveredTo u pairs → ∃ notif, (u, notif) ∈ pairs ∧ n_id notif = Some i.
Proof.
  induction pairs as [|[x d] pairs IH]; simpl; [by intros ?%elem_of_nil|].
  intros [Hi|Hi]%elem_of_app.
  - destruct (IH Hi) as (notif & Hin & Hid). exists notif. split; [by right|done].
  - destruct (decide (x = u)) as [->|]; [|by apply elem_of_nil in Hi].
    destruct (n_id d) as [j|] eqn:Hj; [|by apply elem_of_nil in Hi].
    apply list_elem_of_singleton in Hi as ->. exists d. split; [by left|done].
Qed.

Lemma filter_eq_absent (u : string) us :
  u ∉ us → filter (fun x => x = u) us = [].
Proof.
  induction us as [|x us IH]; intros Hu; [done|].
  apply not_elem_of_cons in Hu as [Hne Hu].
  rewrite filter_cons_False by congruence. by apply IH.
Qed.

Lemma filter_eq_NoDup (u : string) us :
  NoDup us → u ∈ us → length (filter (fun x => x = u) us) = 1%nat.
Proof.
  induction us as [|x us IH]; intros Hnd Hu; [by apply elem_of_nil in Hu|].
  apply NoDup_cons in Hnd as [Hx Hnd].
  destruct (decide (x = u)) as [->|Hne].
  - rewrite filter_cons_True by done. simpl.
    by rewrite filter_eq_absent.
  - rewrite filter_cons_False by done. apply IH; [done|].
    apply elem_of_cons in Hu as [->|]; done.
Qed.

(** C1, as the code has it: a successful Answer fan-out resolves the list
    [askedBy :: subscribers], whose members are exactly the asker and the
    subscribers, saves one new notification with an id of its own per entry
    of that list, and returns the list.  A recipient who has not blocked the
    type gets one inbox entry per occurrence in the list: exactly one when
    the list has no duplicates. *)
Theorem C1_answer_fanout s qid q n recipients s' :
  findQuestion qid s = Some q →
  notificationType n = Some NotificationType.Answer →
  notifyUsers (Some qid) n s = (Ok recipients, s') →
  recipients = askedBy q :: subscribers q ∧
  (∀ u, u ∈ recipients ↔ u = askedBy q ∨ u ∈ subscribers q) ∧
  ∃ created,
    NotificationModel s' = NotificationModel s ++ created ∧
    length created = length recipients ∧
    NoDup (n_id <$> created) ∧
    (∀ d, d ∈ created → ∃ i, n_id d = Some i ∧ i ∉ notificationIds s) ∧
    (∀ u, hasBlocked u NotificationType.Answer s = false →
       ∃ new,
         inbox u s' = new ++ inbox u s ∧
         length new = length (filter (fun x => x = u) recipients) ∧
         ∀ i, i ∈ new → ∃ d, d ∈ created ∧ n_id d = Some i) ∧
    (NoDup recipients →
     ∀ u, u ∈ recipients → hasBlocked u NotificationType.Answer s = false →
       ∃ i d, d ∈ created ∧ n_id d = Some i ∧ inbox u s' = i :: inbox u s).
Proof.
  intros Hq Ht Hrun.
  destruct (notifyUsers_ok _ _ _ _ _ _ Ht Hrun)
    as (_ & _ & Hus & created & Hn & Hlen & Hnd & Hall & Hu).
  assert (Hrec : recipients = askedBy q :: subscribers q).
  { unfold usersToNotify, usersToNotifyOnNewAnswer in Hus. rewrite Hq in Hus.
    by simplify_eq. }
  assert (Hdeliv : ∀ u, hasBlocked u NotificationType.Answer s = false →
            inbox u s' = deliveredTo u (zip recipients created) ++ inbox u s ∧
            length (deliveredTo u (zip recipients created))
            = length (filter (fun x => x = u) recipients) ∧
            ∀ i, i ∈ deliveredTo u (zip recipients created) →
                 ∃ d, d ∈ created ∧ n_id d = Some i).
  { intros u Hb. destruct (Hu u) as [_ Hi]. rewrite Hb in Hi.
    split; [done|]. split.
    - apply deliveredTo_length; [done|]. intros d Hd.
      destruct (Hall d Hd) as (_ & i & -> & _). by eexists.
    - intros i (d & Hd%elem_of_zip_r & Hid)%deliveredTo_elem. eauto. }
  split; [done|]. split.
  { intros u. rewrite Hrec. apply elem_of_cons. }
  exists created. split; [done|]. split; [done|]. split; [done|]. split.
  { intros d Hd. destruct (Hall d Hd) as (_ & i & Hi). eauto. }
  split.
  - intros u Hb. exists (deliveredTo u (zip recipients created)). by apply Hdeliv.
  - intros Hdup u Hin Hb. destruct (Hdeliv u Hb) as (Hi & Hl & Hd).
    rewrite filter_eq_NoDup in Hl by done.
    destruct (deliveredTo u (zip recipients created)) as [|i [|? ?]]; try done.
    destruct (Hd i (ltac:(by left))) as (d & Hdc & Hdi). by exists i, d.
Qed.

Lemma C1_answer_fanout_witness :
  let s := Samples.fanoutStore in
  let q := mkQuestion (Some "q1") "alice" 10 [] [] [] [] ["bob"; "carol"] in
  let n := Samples.answerNotification in
  let recipients := ["alice"; "bob"; "carol"] in
  let s' := (notifyUsers (Some "q1") n s).2 in
  findQuestion "q1" s = Some q ∧
  notificationType n = Some NotificationType.Answer ∧
  notifyUsers (Some "q1") n s = (Ok recipients, s') ∧
  recipients = askedBy q :: subscribers q ∧
  (∀ u, u ∈ recipients ↔ u = askedBy q ∨ u ∈ subscribers q) ∧
  ∃ created,
    NotificationModel s' = NotificationModel s ++ created ∧
    length created = length recipients ∧
    NoDup (n_id <$> created) ∧
    (∀ d, d ∈ created → ∃ i, n_id d = Some i ∧ i ∉ notificationIds s) ∧
    (∀ u, hasBlocked u NotificationType.Answer s = false →
       ∃ new,
         inbox u s' = new ++ inbox u s ∧
         length new = length (filter (fun x => x = u) recipients) ∧
         ∀ i, i ∈ new → ∃ d, d ∈ created ∧ n_id d = Some i) ∧
    (NoDup recipients →
     ∀ u, u ∈ recipients → hasBlocked u NotificationType.Answer s = false →
       ∃ i d, d ∈ created ∧ n_id d = Some i ∧ inbox u s' = i :: inbox u s).
Proof.
  intros s q n recipients s'.
  assert (H1 : findQuestion "q1" s = Some q) by reflexivity.
  assert (H2 : notificationType n = Some NotificationType.Answer) by reflexivity.
  assert (H3 : notifyUsers (Some "q1") n s = (Ok recipients, s')) by (by vm_compute).
  exact (conj H1 (conj H2 (conj H3 (C1_answer_fanout _ _ _ _ _ _ H1 H2 H3)))).
Defined.

(** C1 as stated fails: alice, who subscribed to her own question, is
    resolved twice and gets two notifications. *)
Lemma C1_asker_notified_twice :
  let s := Samples.selfSubscribedStore in
  let r := notifyUsers (Some "q1") Samples.answerNotification s in
  findQuestion "q1" s
    = Some (mkQuestion (Some "q1") "alice" 10 [] [] [] [] ["alice"]) ∧
  r.1 = Ok ["alice"; "alice"] ∧
  ¬ NoDup ["alice"; "alice"] ∧
  length (NotificationModel r.2) = 2%nat ∧
  inbox "alice" s = [] ∧
  length (inbox "alice" r.2) = 2%nat.
Proof.
  simpl. split; [reflexivity|]. split; [by vm_compute|]. split.
  - intros Hnd. apply NoDup_cons in Hnd as [Hx _]. apply Hx. by left.
  - split; [by vm_compute|]. split; by vm_compute.
Qed.

(** C2: a recipient who has blocked the notification type is still in the
    returned list and still has a notification saved for each of their
    entries in it, while their inbox stays as it was. *)
Theorem C2_blocked_recipient s oid n t resolved recipients s' u :
  notificationType n = Some t →
  usersToNotify oid (Some t) s = Ok resolved →
  notifyUsers (Some oid) n s = (Ok recipients, s') →
  u ∈ resolved →
  hasBlocked u t s = true →
  recipients = resolved ∧ u ∈ recipients ∧
  inbox u s' = inbox u s ∧
  ∃ created,
    NotificationModel s' = NotificationModel s ++ created ∧
    length created = length recipients ∧
    ∀ k, recipients !! k = Some u →
      ∃ d i, created !! k = Some d ∧ n_id d = Some i ∧
             (i ∉ notificationIds s) ∧ notificationType d = Some t.
Proof.
  intros Ht Hres Hrun Hin Hb.
  destruct (notifyUsers_ok _ _ _ _ _ _ Ht Hrun)
    as (_ & _ & Hus & created & Hn & Hlen & Hnd & Hall & Hu).
  assert (recipients = resolved) as -> by congruence.
  split; [done|]. split; [done|]. split.
  { destruct (Hu u) as [_ Hi]. by rewrite Hb in Hi. }
  exists created. split; [done|]. split; [done|].
  intros k Hk.
  destruct (lookup_lt_is_Some_2 created k) as [d Hd].
  { rewrite Hlen. by eapply lookup_lt_Some. }
  destruct (Hall d (list_elem_of_lookup_2 _ _ _ Hd)) as (Hdt & i & Hi & Hfresh).
  by exists d, i.
Qed.

Lemma C2_blocked_recipient_witness :
  let s := Samples.fanoutStore in
  let n := Samples.answerNotification in
  let t := NotificationType.Answer in
  let resolved := ["alice"; "bob"; "carol"] in
  let s' := (notifyUsers (Some "q1") n s).2 in
  notificationType n = Some t ∧
  usersToNotify "q1" (Some t) s = Ok resolved ∧
  notifyUsers (Some "q1") n s = (Ok resolved, s') ∧
  "bob" ∈ resolved ∧
  hasBlocked "bob" t s = true ∧
  resolved = resolved ∧ "bob" ∈ resolved ∧
  inbox "bob" s' = inbox "bob" s ∧
  ∃ created,
    NotificationModel s' = NotificationModel s ++ created ∧
    length created = length resolved ∧
    ∀ k, resolved !! k = Some "bob" →
      ∃ d i, created !! k = Some d ∧ n_id d = Some i ∧
             (i ∉ notificationIds s) ∧ notificationType d = Some t.
Proof.
  intros s n t resolved s'.
  assert (H1 : notificationType n = Some t) by reflexivity.
  assert (H2 : usersToNotify "q1" (Some t) s = Ok resolved) by reflexivity.
  assert (H3 : notifyUsers (Some "q1") n s = (Ok resolved, s')) by (by vm_compute).
  assert (H4 : "bob" ∈ resolved) by (right; left).
  assert (H5 : hasBlocked "bob" t s = true) by reflexivity.
  exact (conj H1 (conj H2 (conj H3 (conj H4 (conj H5
           (C2_blocked_recipient _ _ _ _ _ _ _ _ H1 H2 H3 H4 H5)))))).
Defined.

End notify_facts.

(** ** Challenge progress *)
Section challenge_facts.
Import Challenges.

Lemma allOk_all {A B} (f : A → B) l : allOk ((fun x => Ok (f x)) <$> l) = Ok (f <$> l).
Proof.
  induction l as [|x l IH]; [done|].
  rewrite !fmap_cons. cbn [allOk]. by rewrite IH.
Qed.

Lemma allOk_inv {A} (rs : list (Response A)) res : allOk rs = Ok res → rs = Ok <$> res.
Proof.
  revert res. induction rs as [|[a|m] rs IH]; intros res Hok; simpl in Hok.
  - by simplify_eq.
  - destruct (allOk rs) as [l|]; [|done]. simplify_eq. by rewrite (IH l).
  - done.
Qed.

(** Creating the records of the challenges to start. *)
Lemma saveNew_run name (ts : list Challenge) s created s1 :
  traverse (saveUserChallenge name) ts s = (created, s1) →
  ∃ starts : list (nat * Challenge),
    snd <$> starts = ts ∧
    created = (fun p => Ok (mkUserChallenge p.1 name p.2 [])) <$> starts ∧
    s1 = set_UserChallengeModel
           (UserChallengeModel s
            ++ ((fun p => mkUserChallengeDoc p.1 name (c_id p.2) []) <$> starts)) s ∧
    NoDup (fst <$> starts) ∧
    ∀ p, p ∈ starts → p.1 ∉ d_id <$> UserChallengeModel s.
Proof.
  revert s created s1. induction ts as [|c ts IH]; intros s created s1 Hrun.
  - simpl in Hrun. injection Hrun as <- <-. exists []. simpl.
    rewrite app_nil_r. split; [done|]. split; [done|]. split; [by destruct s|].
    split; [constructor|]. by intros p Hp%elem_of_nil.
  - rewrite traverse_cons in Hrun. unfold saveUserChallenge at 1 in Hrun.
    set (id := fresh (d_id <$> UserChallengeModel s)) in Hrun.
    set (s0 := set_UserChallengeModel
                 (UserChallengeModel s ++ [mkUserChallengeDoc id name (c_id c) []]) s)
      in Hrun.
    destruct (traverse (saveUserChallenge name) ts s0) as [created' s1'] eqn:Hrest.
    injection Hrun as <- <-.
    destruct (IH _ _ _ Hrest) as (starts & <- & -> & -> & Hnd & Hfresh).
    assert (Hids : d_id <$> UserChallengeModel s0
                   = (d_id <$> UserChallengeModel s) ++ [id]).
    { unfold s0. simpl. by rewrite fmap_app. }
    exists ((id, c) :: starts).
    split; [done|]. split; [done|].
    split; [unfold s0; simpl; by rewrite <- app_assoc|]. split.
    + simpl. apply NoDup_cons. split; [|done].
      intros (p & Hp & Hin)%list_elem_of_fmap.
      apply (Hfresh p Hin). rewrite Hids. apply elem_of_app. right.
      rewrite <- Hp. by left.
    + intros p [->|Hp]%elem_of_cons.
      * simpl. apply infinite_is_fresh.
      * intros Hin. apply (Hfresh p Hp). rewrite Hids. apply elem_of_app. by left.
Qed.

(** Distributing the rewards touches the users only. *)
Lemma distribute_frame ucs s :
  UserChallengeModel (distributeRewardsIfChallengeComplete ucs s) = UserChallengeModel s ∧
  ChallengeModel (distributeRewardsIfChallengeComplete ucs s) = ChallengeModel s.
Proof.
  unfold distributeRewardsIfChallengeComplete. revert s.
  induction ucs as [|uc ucs IH]; intros s; simpl; [done|].
  destruct (IH (if complete uc
                then set_UserModel
                       (update_first (fun u => bool_decide (username u = uc_username uc))
                          (unlockTitle (reward (challenge uc))) (UserModel s)) s
                else s)) as [-> ->].
  by destruct (complete uc).
Qed.

Lemma distribute_titles name ucs s :
  (∀ uc, uc ∈ ucs → uc_username uc = name) →
  is_Some (Notify.findUser name s) →
  titlesOf name (distributeRewardsIfChallengeComplete ucs s)
  = fold_left
      (fun titles uc =>
         if complete uc then addToSet (reward (challenge uc)) titles else titles)
      ucs (titlesOf name s).
Proof.
  unfold distributeRewardsIfChallengeComplete. revert s.
  induction ucs as [|uc ucs IH]; intros s Hname Huser; simpl; [done|].
  assert (Hu : uc_username uc = name) by (apply Hname; by left).
  assert (Hrest : ∀ uc', uc' ∈ ucs → uc_username uc' = name)
    by (intros; apply Hname; by right).
  destruct (complete uc); [|by apply IH].
  rewrite IH; [|done|].
  - f_equal. unfold titlesOf, Notify.findUser. simpl. rewrite Hu.
    rewrite find_update_first by done.
    destruct Huser as [u Huser]. unfold Notify.findUser in Huser. by rewrite Huser.
  - unfold Notify.findUser in *. simpl. rewrite Hu.
    rewrite find_update_first by done. by apply fmap_is_Some.
Qed.

Lemma fold_titles_elem r (ucs : list UserChallenge) titles :
  r ∈ fold_left
        (fun titles uc =>
           if complete uc then addToSet (reward (challenge uc)) titles else titles)
        ucs titles
  ↔ r ∈ titles ∨ ∃ uc, uc ∈ ucs ∧ complete uc = true ∧ reward (challenge uc) = r.
Proof.
  revert titles. induction ucs as [|uc ucs IH]; intros titles; simpl.
  - split; [by left|]. intros [?|(uc & Huc%elem_of_nil & _)]; done.
  - rewrite IH. destruct (complete uc) eqn:Hc.
    + rewrite addToSet_elem_iff. split.
      * intros [[->|Hr]|(uc' & Hin & Hc' & Hr)].
        -- right. exists uc. split; [by left|done].
        -- by left.
        -- right. exists uc'. split; [by right|done].
      * intros [Hr|(uc' & [->|Hin]%elem_of_cons & Hc' & Hr)].
        -- left. by right.
        -- left. by left.
        -- right. by exists uc'.
    + split.
      * intros [Hr|(uc' & Hin & Hc' & Hr)]; [by left|].
        right. exists uc'. split; [by right|done].
      * intros [Hr|(uc' & [->|Hin]%elem_of_cons & Hc' & Hr)]; [by left|congruence|].
        right. by exists uc'.
Qed.

Lemma fold_titles_NoDup (ucs : list UserChallenge) titles :
  NoDup titles →
  NoDup (fold_left
           (fun titles uc =>
              if complete uc then addToSet (reward (challenge uc)) titles else titles)
           ucs titles).
Proof.
  revert titles. induction ucs as [|uc ucs IH]; intros titles Hnd; simpl; [done|].
  apply IH. destruct (complete uc); [by apply addToSet_NoDup|done].
Qed.

(** Saving one progress array. *)
Lemma saveProgress_run uc s r s' :
  saveProgress uc s = (r, s') →
  (∀ k, findUserChallenge k s'
        = (if decide (k = uc_id uc) then withProgress (progress uc) else id)
            <$> findUserChallenge k s) ∧
  UserModel s' = UserModel s ∧
  ChallengeModel s' = ChallengeModel s ∧
  r = match findUserChallenge (uc_id uc) s with
      | Some d => Ok (populate s (withProgress (progress uc) d))
      | None => Error "Error while updating UserChallenges"
      end.
Proof.
  intros Hrun. unfold saveProgress in Hrun.
  set (s1 := set_UserChallengeModel _ s) in Hrun.
  assert (Hfind : ∀ k, findUserChallenge k s1
            = (if decide (k = uc_id uc) then withProgress (progress uc) else id)
                <$> findUserChallenge k s).
  { intros k. unfold findUserChallenge, s1. simpl.
    destruct (decide (k = uc_id uc)) as [->|Hne].
    - by rewrite find_update_first.
    - rewrite find_update_first_other; [by rewrite option_fmap_id|done|].
      intros x Hx%bool_decide_eq_true. apply bool_decide_eq_false. congruence. }
  rewrite Hfind, decide_True in Hrun by done.
  destruct (findUserChallenge (uc_id uc) s) as [d|]; simpl in Hrun;
    injection Hrun as <- <-; done.
Qed.

Lemma saveAllProgress_frame ucs s rs s' :
  traverse saveProgress ucs s = (rs, s') →
  UserModel s' = UserModel s ∧ ChallengeModel s' = ChallengeModel s.
Proof.
  revert s rs s'. induction ucs as [|uc ucs IH]; intros s rs s' Hrun.
  - simpl in Hrun. by injection Hrun as <- <-.
  - rewrite traverse_cons in Hrun.
    destruct (saveProgress uc s) as [r s0] eqn:Hstep.
    destruct (traverse saveProgress ucs s0) as [rs' s1] eqn:Hrest.
    injection Hrun as <- <-.
    destruct (saveProgress_run _ _ _ _ Hstep) as (_ & Hu & Hc & _).
    destruct (IH _ _ _ Hrest) as [Hu' Hc']. split; congruence.
Qed.

Lemma saveAllProgress_other ucs s rs s' k :
  traverse saveProgress ucs s = (rs, s') →
  k ∉ uc_id <$> ucs →
  findUserChallenge k s' = findUserChallenge k s.
Proof.
  revert s rs s'. induction ucs as [|uc ucs IH]; intros s rs s' Hrun Hk.
  - simpl in Hrun. by injection Hrun as <- <-.
  - rewrite traverse_cons in Hrun.
    destruct (saveProgress uc s) as [r s0] eqn:Hstep.
    destruct (traverse saveProgress ucs s0) as [rs' s1] eqn:Hrest.
    injection Hrun as <- <-.
    rewrite fmap_cons in Hk. apply not_elem_of_cons in Hk as [Hne Hk].
    destruct (saveProgress_run _ _ _ _ Hstep) as (Hf & _).
    rewrite (IH _ _ _ Hrest Hk), Hf, decide_False by done.
    by rewrite option_fmap_id.
Qed.

Lemma saveAllProgress_self ucs s rs s' uc :
  traverse saveProgress ucs s = (rs, s') →
  NoDup (uc_id <$> ucs) →
  uc ∈ ucs →
  findUserChallenge (uc_id uc) s'
  = withProgress (progress uc) <$> findUserChallenge (uc_id uc) s.
Proof.
  revert s rs s'. induction ucs as [|uc0 ucs IH]; intros s rs s' Hrun Hnd Hin.
  - by apply elem_of_nil in Hin.
  - rewrite traverse_cons in Hrun.
    destruct (saveProgress uc0 s) as [r s0] eqn:Hstep.
    destruct (traverse saveProgress ucs s0) as [rs' s1] eqn:Hrest.
    injection Hrun as <- <-.
    rewrite fmap_cons in Hnd. apply NoDup_cons in Hnd as [Hfresh Hnd].
    destruct (saveProgress_run _ _ _ _ Hstep) as (Hf & _).
    apply elem_of_cons in Hin as [->|Hin].
    + rewrite (saveAllProgress_other _ _ _ _ _ Hrest Hfresh), Hf.
      by rewrite decide_True.
    + rewrite (IH _ _ _ Hrest Hnd Hin), Hf, decide_False; [by rewrite option_fmap_id|].
      intros Heq. apply Hfresh. rewrite <- Heq. by apply list_elem_of_fmap_2.
Qed.

Lemma saveAllProgress_results ucs s0 s rs s' :
  traverse saveProgress ucs s = (rs, s') →
  NoDup (uc_id <$> ucs) →
  (∀ k, k ∈ uc_id <$> ucs → findUserChallenge k s = findUserChallenge k s0) →
  ChallengeModel s = ChallengeModel s0 →
  Forall2
    (fun uc r =>
       r = match findUserChallenge (uc_id uc) s0 with
           | Some d => Ok (populate s0 (withProgress (progress uc) d))
           | None => Error "Error while updating UserChallenges"
           end) ucs rs.
Proof.
  revert s rs s'. induction ucs as [|uc ucs IH]; intros s rs s' Hrun Hnd Hsame Hcm.
  - simpl in Hrun. injection Hrun as <- <-. constructor.
  - rewrite traverse_cons in Hrun.
    destruct (saveProgress uc s) as [r s1] eqn:Hstep.
    destruct (traverse saveProgress ucs s1) as [rs' s2] eqn:Hrest.
    injection Hrun as <- <-.
    rewrite fmap_cons in Hnd. apply NoDup_cons in Hnd as [Hfresh Hnd].
    destruct (saveProgress_run _ _ _ _ Hstep) as (Hf & _ & Hc & ->).
    constructor.
    + rewrite Hsame by (rewrite fmap_cons; by left).
      destruct (findUserChallenge (uc_id uc) s0); [|done].
      unfold populate, findChallenge. by rewrite Hcm.
    + apply (IH _ _ _ Hrest Hnd); [|congruence].
      intros k Hk. rewrite Hf, decide_False.
      * rewrite option_fmap_id. apply Hsame. rewrite fmap_cons. by right.
      * intros ->. done.
Qed.

(** The records the filter selects. *)
Lemma selected_inv type d oc uc :
  selected type (d, oc) = Some uc →
  ∃ c, oc = Some c ∧ challengeType c = type ∧
       Z.of_nat (length (d_progress d)) < actionAmount c ∧
       uc = mkUserChallenge (d_id d) (d_username d) c (d_progress d).
Proof.
  unfold selected. destruct oc as [c|]; [|done].
  destruct (bool_decide (challengeType c = type)) eqn:Ht; [|done].
  destruct (bool_decide (Z.of_nat (length (d_progress d)) < actionAmount c)) eqn:Hl;
    [|done].
  simpl. intros [= <-]. exists c.
  apply bool_decide_eq_true in Ht, Hl. done.
Qed.

Lemma selected_elem type name s uc :
  uc ∈ omap (selected type)
         (populate s <$> filter (fun d => d_username d = name) (UserChallengeModel s))
  ↔ ∃ d c, d ∈ UserChallengeModel s ∧ d_username d = name ∧
           findChallenge (d_challenge d) s = Some c ∧ challengeType c = type ∧
           Z.of_nat (length (d_progress d)) < actionAmount c ∧
           uc = mkUserChallenge (d_id d) (d_username d) c (d_progress d).
Proof.
  rewrite list_elem_of_omap. split.
  - intros ([d oc] & (d' & Hp & [Hn Hd]%list_elem_of_filter)%list_elem_of_fmap & Hsel).
    unfold populate in Hp. injection Hp as -> ->.
    destruct (selected_inv _ _ _ _ Hsel) as (c & Hc & Ht & Hl & ->).
    by exists d', c.
  - intros (d & c & Hd & Hn & Hc & Ht & Hl & ->).
    exists (populate s d). split.
    + apply list_elem_of_fmap_2. by apply list_elem_of_filter.
    + unfold populate, selected. rewrite Hc.
      by rewrite !bool_decide_eq_true_2.
Qed.

Lemma selected_ids_NoDup type s (P : UserChallengeDoc → Prop)
    `{∀ d, Decision (P d)} docs :
  NoDup (d_id <$> docs) →
  NoDup (uc_id <$> omap (selected type) (populate s <$> filter P docs)) ∧
  ∀ k, k ∈ uc_id <$> omap (selected type) (populate s <$> filter P docs) →
       k ∈ d_id <$> docs.
Proof.
  induction docs as [|d docs IH]; intros Hnd.
  - split; [constructor|done].
  - rewrite fmap_cons in Hnd. apply NoDup_cons in Hnd as [Hfresh Hnd].
    destruct (IH Hnd) as [IHnd IHin].
    destruct (decide (P d)) as [HP|HP].
    + rewrite filter_cons_True by done. rewrite fmap_cons. cbn [omap list_omap].
      destruct (selected type (populate s d)) as [uc|] eqn:Hsel.
      * unfold populate in Hsel.
        destruct (selected_inv _ _ _ _ Hsel) as (c & _ & _ & _ & ->).
        rewrite !fmap_cons. simpl. split.
        -- apply NoDup_cons. split; [|done]. intros Hin. apply Hfresh. by apply IHin.
        -- intros k [->|Hk]%elem_of_cons; [by left|]. right. by apply IHin.
      * split; [done|]. intros k Hk. rewrite fmap_cons. right. by apply IHin.
    + rewrite filter_cons_False by done.
      split; [done|]. intros k Hk. rewrite fmap_cons. right. by apply IHin.
Qed.

Lemma challengesToStart_subset ucs cs ts :
  challengesToStart ucs cs = Some ts → ∀ c, c ∈ ts → c ∈ cs.
Proof.
  revert ts. induction cs as [|c0 cs IH]; intros ts Hts c Hc; simpl in Hts.
  - simplify_eq. by apply elem_of_nil in Hc.
  - destruct (someHasChallenge ucs c0) as [started|]; [|done].
    destruct (challengesToStart ucs cs) as [ts'|]; [|done].
    simplify_eq. destruct started.
    + right. by apply (IH ts').
    + apply elem_of_cons in Hc as [->|Hc]; [by left|]. right. by apply (IH ts').
Qed.

Lemma removeExpired_progress now uc :
  progress (removeExpired now uc) = inWindow now (challenge uc) (progress uc).
Proof.
  unfold removeExpired, inWindow.
  destruct (hoursToComplete (challenge uc)) as [hours|]; [|done].
  case_decide; [done|]. simpl. apply list_filter_iff. intros p. lia.
Qed.

Lemma removeExpired_shape now uc :
  uc_id (removeExpired now uc) = uc_id uc ∧
  uc_username (removeExpired now uc) = uc_username uc ∧
  challenge (removeExpired now uc) = challenge uc.
Proof.
  unfold removeExpired.
  destruct (hoursToComplete (challenge uc)) as [hours|]; [|done].
  by case_decide.
Qed.

Lemma inWindow_length now c entries :
  (length (inWindow now c entries) ≤ length entries)%nat.
Proof.
  unfold inWindow. destruct (hoursToComplete c); [|done].
  case_decide; [done|]. apply length_filter.
Qed.

(** A successful increment, step by step: the challenges started, the records
    updated, the store after the rewards and the saves. *)
Lemma increment_run name type now s res s' :
  fetchAndIncrementChallengesByUserAndType name type now s = (Ok res, s') →
  is_Some (Notify.findUser name s) ∧
  ∃ (starts : list (nat * Challenge)) rs,
    let sel :=
      omap (selected type)
        (populate s <$> filter (fun d => d_username d = name) (UserChallengeModel s)) in
    let toUpdate :=
      userChallengesToUpdate now (removeExpired now <$> sel)
        ((fun p => mkUserChallenge p.1 name p.2 []) <$> starts) in
    let s1 :=
      set_UserChallengeModel
        (UserChallengeModel s
         ++ ((fun p => mkUserChallengeDoc p.1 name (c_id p.2) []) <$> starts)) s in
    (∀ p, p ∈ starts → p.2 ∈ ChallengeModel s ∧ challengeType p.2 = type) ∧
    NoDup (fst <$> starts) ∧
    (∀ p, p ∈ starts → p.1 ∉ d_id <$> UserChallengeModel s) ∧
    traverse saveProgress toUpdate (distributeRewardsIfChallengeComplete toUpdate s1)
    = (rs, s') ∧
    rs = Ok <$> res.
Proof.
  intros Hrun. unfold fetchAndIncrementChallengesByUserAndType in Hrun.
  destruct (Notify.findUser name s) as [user|] eqn:Huser; [|done].
  split; [by eexists|]. unfold fetchUserChallengesByUsername in Hrun.
  destruct (challengesToStart _ _) as [ts|] eqn:Hts; [|done].
  destruct (traverse (saveUserChallenge name) ts s) as [created s1] eqn:Hsave.
  destruct (saveNew_run _ _ _ _ _ Hsave) as (starts & <- & -> & -> & Hnd & Hfresh).
  rewrite allOk_all in Hrun.
  destruct (traverse saveProgress _ _) as [rs s3] eqn:Hprog.
  injection Hrun as Hres <-.
  exists starts, rs. cbv zeta.
  split; [|split; [done|split; [done|split; [done|by apply allOk_inv]]]].
  intros p Hp.
  pose proof (challengesToStart_subset _ _ _ Hts p.2
                (list_elem_of_fmap_2 snd _ _ Hp)) as Hin.
  apply list_elem_of_filter in Hin. tauto.
Qed.

Lemma toUpdate_ids now name (sel : list UserChallenge) (starts : list (nat * Challenge)) :
  uc_id <$> userChallengesToUpdate now (removeExpired now <$> sel)
              ((fun p => mkUserChallenge p.1 name p.2 []) <$> starts)
  = (uc_id <$> sel) ++ (fst <$> starts).
Proof.
  unfold userChallengesToUpdate. rewrite !fmap_app, <- !list_fmap_compose.
  f_equal; try done.
  apply list_fmap_ext. intros i uc _. simpl. apply removeExpired_shape.
Qed.

Lemma toUpdate_NoDup now name type s (starts : list (nat * Challenge)) :
  NoDup (d_id <$> UserChallengeModel s) →
  NoDup (fst <$> starts) →
  (∀ p, p ∈ starts → p.1 ∉ d_id <$> UserChallengeModel s) →
  NoDup (uc_id <$>
           userChallengesToUpdate now
             (removeExpired now <$>
                omap (selected type)
                  (populate s <$>
                     filter (fun d => d_username d = name) (UserChallengeModel s)))
             ((fun p => mkUserChallenge p.1 name p.2 []) <$> starts)).
Proof.
  intros Hdocs Hnd Hfresh. rewrite toUpdate_ids.
  destruct (selected_ids_NoDup type s (fun d => d_username d = name) _ Hdocs)
    as [Hsel Hin].
  apply NoDup_app. split; [done|]. split; [|done].
  intros k Hk (p & -> & Hp)%list_elem_of_fmap.
  apply (Hfresh p Hp). by apply Hin.
Qed.

Lemma docs_NoDup name s (starts : list (nat * Challenge)) :
  NoDup (d_id <$> UserChallengeModel s) →
  NoDup (fst <$> starts) →
  (∀ p, p ∈ starts → p.1 ∉ d_id <$> UserChallengeModel s) →
  NoDup (d_id <$>
           UserChallengeModel s
           ++ ((fun p => mkUserChallengeDoc p.1 name (c_id p.2) []) <$> starts)).
Proof.
  intros Hdocs Hnd Hfresh. rewrite fmap_app, <- list_fmap_compose.
  apply NoDup_app. split; [done|]. split; [|done].
  intros k Hk (p & -> & Hp)%list_elem_of_fmap. by apply (Hfresh p Hp).
Qed.

(** The records returned by a successful increment, against the records that
    were updated. *)
Lemma increment_results name type now s res s' :
  keyedStore s →
  fetchAndIncrementChallengesByUserAndType name type now s = (Ok res, s') →
  ∃ toUpdate : list UserChallenge,
    (∀ d c, d ∈ UserChallengeModel s → d_username d = name →
       findChallenge (d_challenge d) s = Some c → challengeType c = type →
       Z.of_nat (length (d_progress d)) < actionAmount c →
       addEntry now
         (removeExpired now (mkUserChallenge (d_id d) (d_username d) c (d_progress d)))
       ∈ toUpdate) ∧
    titlesOf name s'
    = fold_left
        (fun titles uc =>
           if complete uc then addToSet (reward (challenge uc)) titles else titles)
        toUpdate (titlesOf name s) ∧
    Forall2
      (fun uc r =>
         r.2 = Some (challenge uc) ∧ d_progress r.1 = progress uc ∧
         d_id r.1 = uc_id uc ∧
         (d_id r.1 ∈ d_id <$> UserChallengeModel s →
          Z.of_nat (length (progress uc)) ≤ actionAmount (challenge uc)))
      toUpdate res.
Proof.
  intros [Hdocs Hcs] Hrun.
  destruct (increment_run _ _ _ _ _ _ Hrun)
    as (Huser & starts & rs & Hstarts & Hnd & Hfresh & Hprog & ->).
  cbv zeta in Hprog.
  set (sel := omap (selected type)
                (populate s <$>
                   filter (fun d => d_username d = name) (UserChallengeModel s))) in *.
  set (news := (fun p => mkUserChallenge p.1 name p.2 []) <$> starts) in *.
  set (s1 := set_UserChallengeModel
               (UserChallengeModel s
                ++ ((fun p => mkUserChallengeDoc p.1 name (c_id p.2) []) <$> starts)) s)
    in *.
  set (toUpdate := userChallengesToUpdate now (removeExpired now <$> sel) news) in *.
  set (s2 := distributeRewardsIfChallengeComplete toUpdate s1) in *.
  destruct (distribute_frame toUpdate s1) as [Hucm Hcm]. fold s2 in Hucm, Hcm.
  destruct (saveAllProgress_frame _ _ _ _ Hprog) as [Hum' Hcm'].
  assert (Hkeys : NoDup (d_id <$> UserChallengeModel s1)).
  { unfold s1. simpl. by apply docs_NoDup. }
  (* every updated record names its stored document *)
  assert (Hdoc : ∀ uc, uc ∈ toUpdate →
            uc_username uc = name ∧
            ∃ dk, findUserChallenge (uc_id uc) s2 = Some dk ∧
                  findChallenge (d_challenge dk) s = Some (challenge uc) ∧
                  (uc_id uc ∈ d_id <$> UserChallengeModel s →
                   Z.of_nat (length (progress uc)) ≤ actionAmount (challenge uc))).
  { intros uc (uc1 & -> & [Hin|Hin]%elem_of_app)%list_elem_of_fmap.
    - apply list_elem_of_fmap in Hin as (uc0 & -> & Hin).
      apply selected_elem in Hin as (d & c & Hd & Hn & Hc & Ht & Hl & ->).
      destruct (removeExpired_shape now
                  (mkUserChallenge (d_id d) (d_username d) c (d_progress d)))
        as (Hi & Hu & Hch).
      simpl. rewrite Hi, Hu, Hch. simpl. split; [done|]. exists d.
      split; [|split; [done|]].
      + unfold findUserChallenge. rewrite Hucm.
        apply (find_key_unique d_id); [done|]. unfold s1. simpl.
        apply elem_of_app. by left.
      + intros _. rewrite removeExpired_progress, length_app. simpl.
        pose proof (inWindow_length now c (d_progress d)). lia.
    - apply list_elem_of_fmap in Hin as (p & -> & Hp). simpl. split; [done|].
      exists (mkUserChallengeDoc p.1 name (c_id p.2) []). split; [|split].
      + unfold findUserChallenge. rewrite Hucm.
        apply (find_key_unique d_id _
                 (mkUserChallengeDoc p.1 name (c_id p.2) [])); [done|].
        unfold s1. simpl. apply elem_of_app. right.
        by apply (list_elem_of_fmap_2
                    (fun p => mkUserChallengeDoc p.1 name (c_id p.2) [])).
      + simpl. unfold findChallenge.
        apply (find_key_unique c_id); [done|]. by apply Hstarts.
      + intros Hold. by destruct (Hfresh p Hp). }
  exists toUpdate. split; [|split].
  - intros d c Hd Hn Hc Ht Hl. unfold toUpdate, userChallengesToUpdate.
    apply list_elem_of_fmap_2, elem_of_app. left.
    apply list_elem_of_fmap_2, selected_elem. by exists d, c.
  - unfold titlesOf at 1, Notify.findUser. rewrite Hum'. fold (Notify.findUser name s2).
    fold (titlesOf name s2). unfold s2. rewrite distribute_titles.
    + done.
    + intros uc Huc. by apply Hdoc.
    + done.
  - pose proof (saveAllProgress_results toUpdate s2 s2 _ _ Hprog
                  (toUpdate_NoDup now name type s starts Hdocs Hnd Hfresh)
                  (fun _ _ => eq_refl) eq_refl) as Hres.
    apply Forall2_fmap_r in Hres.
    eapply Forall2_elem_impl; [exact Hres|].
    intros uc r Huc Hr. simpl in Hr.
    destruct (Hdoc uc Huc) as (_ & dk & Hdk & Hck & Hle).
    rewrite Hdk in Hr. injection Hr as ->. simpl.
    unfold findChallenge in *. rewrite Hcm.
    change (ChallengeModel s1) with (ChallengeModel s). rewrite Hck.
    split; [done|]. split; [done|].
    assert (Hidk : d_id dk = uc_id uc).
    { unfold findUserChallenge in Hdk. apply find_elem_of in Hdk as [_ Hk].
      by apply bool_decide_eq_true in Hk. }
    split; [done|]. intros Hold. apply Hle. by rewrite <- Hidk.
Qed.

(** C6, as the code has it: for a selected challenge whose [hoursToComplete]
    is set and not 0, exactly the progress entries older than the one cutoff
    [now - hoursToComplete] hours are removed, and the entries at or after the
    cutoff are all kept, before the new entry is appended; a challenge whose
    [hoursToComplete] is absent or 0 is never pruned. *)
Theorem C6_progress_window name type now s res s' d c :
  keyedStore s →
  fetchAndIncrementChallengesByUserAndType name type now s = (Ok res, s') →
  d ∈ UserChallengeModel s →
  d_username d = name →
  findChallenge (d_challenge d) s = Some c →
  challengeType c = type →
  Z.of_nat (length (d_progress d)) < actionAmount c →
  progressOf (d_id d) s' = Some (inWindow now c (d_progress d) ++ [now]) ∧
  (∃ d', (d', Some c) ∈ res ∧ d_id d' = d_id d ∧
         d_progress d' = inWindow now c (d_progress d) ++ [now]) ∧
  (∀ hours, hoursToComplete c = Some hours → hours ≠ 0 →
     inWindow now c (d_progress d)
     = filter (fun p => now - hours * 3600000 ≤ p) (d_progress d)) ∧
  (hoursToComplete c = None ∨ hoursToComplete c = Some 0 →
     inWindow now c (d_progress d) = d_progress d).
Proof.
  intros Hkeyed Hrun Hd Hname Hc Htype Hlen.
  pose proof Hkeyed as [Hdocs _].
  destruct (increment_run _ _ _ _ _ _ Hrun)
    as (_ & starts & rs & _ & Hnd & Hfresh & Hprog & _).
  cbv zeta in Hprog.
  set (uc0 := mkUserChallenge (d_id d) (d_username d) c (d_progress d)).
  set (uc := addEntry now (removeExpired now uc0)).
  assert (Hsel : uc0 ∈ omap (selected type)
            (populate s <$>
               filter (fun d => d_username d = name) (UserChallengeModel s))).
  { apply selected_elem. by exists d, c. }
  assert (Hin : uc ∈ userChallengesToUpdate now
            (removeExpired now <$>
               omap (selected type)
                 (populate s <$>
                    filter (fun d => d_username d = name) (UserChallengeModel s)))
            ((fun p => mkUserChallenge p.1 name p.2 []) <$> starts)).
  { unfold userChallengesToUpdate. apply list_elem_of_fmap_2.
    apply elem_of_app. left. by apply list_elem_of_fmap_2. }
  pose proof (saveAllProgress_self _ _ _ _ _ Hprog
                (toUpdate_NoDup now name type s starts Hdocs Hnd Hfresh) Hin) as Hsaved.
  assert (Hid : uc_id uc = d_id d).
  { unfold uc. simpl. apply removeExpired_shape. }
  assert (Hfound : findUserChallenge (d_id d)
            (distributeRewardsIfChallengeComplete
               (userChallengesToUpdate now
                  (removeExpired now <$>
                     omap (selected type)
                       (populate s <$>
                          filter (fun d => d_username d = name) (UserChallengeModel s)))
                  ((fun p => mkUserChallenge p.1 name p.2 []) <$> starts))
               (set_UserChallengeModel
                  (UserChallengeModel s
                   ++ ((fun p => mkUserChallengeDoc p.1 name (c_id p.2) []) <$> starts))
                  s)) = Some d).
  { unfold findUserChallenge.
    destruct (distribute_frame
                (userChallengesToUpdate now
                   (removeExpired now <$>
                      omap (selected type)
                        (populate s <$>
                           filter (fun d => d_username d = name) (UserChallengeModel s)))
                   ((fun p => mkUserChallenge p.1 name p.2 []) <$> starts))
                (set_UserChallengeModel
                   (UserChallengeModel s
                    ++ ((fun p => mkUserChallengeDoc p.1 name (c_id p.2) []) <$> starts))
                   s)) as [-> _].
    simpl. apply (find_key_unique d_id); [by apply docs_NoDup|].
    apply elem_of_app. by left. }
  split; [|split; [|split]].
  - unfold progressOf. rewrite <- Hid, Hsaved, Hid, Hfound. simpl.
    unfold uc. simpl. by rewrite removeExpired_progress.
  - destruct (increment_results _ _ _ _ _ _ Hkeyed Hrun) as (toUpdate & Hmem & _ & Hres).
    pose proof (Hmem d c Hd Hname Hc Htype Hlen) as [i Hi]%list_elem_of_lookup_1.
    fold uc0 in Hi. fold uc in Hi.
    destruct (Forall2_lookup_l _ _ _ _ _ Hres Hi) as ([d' oc] & Hd' & Hoc & Hp & Hi' & _).
    simpl in Hoc, Hp, Hi'. exists d'. split; [|split].
    + apply list_elem_of_lookup_2 in Hd'. rewrite Hoc in Hd'.
      destruct (removeExpired_shape now uc0) as (_ & _ & Hch).
      by rewrite Hch in Hd'.
    + rewrite Hi'. apply removeExpired_shape.
    + rewrite Hp. by rewrite removeExpired_progress.
  - intros hours Hh Hne. unfold inWindow. rewrite Hh. by rewrite decide_False.
  - intros [Hh|Hh]; unfold inWindow; rewrite Hh; [done|by rewrite decide_True].
Qed.

Lemma C6_progress_window_witness :
  let s := Samples.challengeStore in
  let run := fetchAndIncrementChallengesByUserAndType "alice" "upvote" 6000000 s in
  let res := match run.1 with Ok l => l | Error _ => [] end in
  let s' := run.2 in
  let d := mkUserChallengeDoc 0 "alice" "c1" [1800000; 5400000] in
  let c := Samples.hourChallenge in
  keyedStore s ∧
  run = (Ok res, s') ∧
  d ∈ UserChallengeModel s ∧
  d_username d = "alice" ∧
  findChallenge (d_challenge d) s = Some c ∧
  challengeType c = "upvote" ∧
  Z.of_nat (length (d_progress d)) < actionAmount c ∧
  progressOf (d_id d) s' = Some (inWindow 6000000 c (d_progress d) ++ [6000000]) ∧
  (∃ d', (d', Some c) ∈ res ∧ d_id d' = d_id d ∧
         d_progress d' = inWindow 6000000 c (d_progress d) ++ [6000000]) ∧
  (∀ hours, hoursToComplete c = Some hours → hours ≠ 0 →
     inWindow 6000000 c (d_progress d)
     = filter (fun p => 6000000 - hours * 3600000 ≤ p) (d_progress d)) ∧
  (hoursToComplete c = None ∨ hoursToComplete c = Some 0 →
     inWindow 6000000 c (d_progress d) = d_progress d).
Proof.
  intros s run res s' d c.
  assert (H1 : keyedStore s).
  { split; apply (bool_decide_unpack _); vm_compute; exact I. }
  assert (H2 : run = (Ok res, s')) by (by vm_compute).
  assert (H3 : d ∈ UserChallengeModel s) by left.
  assert (H4 : d_username d = "alice") by reflexivity.
  assert (H5 : findChallenge (d_challenge d) s = Some c) by reflexivity.
  assert (H6 : challengeType c = "upvote") by reflexivity.
  assert (H7 : Z.of_nat (length (d_progress d)) < actionAmount c) by (simpl; lia).
  exact (conj H1 (conj H2 (conj H3 (conj H4 (conj H5 (conj H6 (conj H7
           (C6_progress_window _ _ _ _ _ _ _ _ H1 H2 H3 H4 H5 H6 H7)))))))).
Defined.

(** C6 as stated fails: a challenge with [hoursToComplete] set to 0 keeps an
    entry that is older than the cutoff [now - 0] hours. *)
Lemma C6_zero_hours_not_pruned :
  let s := Samples.zeroHourStore in
  let s' := (fetchAndIncrementChallengesByUserAndType "alice" "upvote" 6000000 s).2 in
  hoursToComplete Samples.zeroHourChallenge = Some 0 ∧
  progressOf 0 s = Some [1000] ∧
  1000 < 6000000 - 0 * 3600000 ∧
  progressOf 0 s' = Some [1000; 6000000] ∧
  progressOf 0 s'
  ≠ Some (filter (fun p => 6000000 - 0 * 3600000 ≤ p) [1000] ++ [6000000]).
Proof.
  simpl. split; [reflexivity|]. split; [reflexivity|]. split; [lia|].
  split; [by vm_compute|]. vm_compute. intros [=].
Qed.



Lemma someHasChallenge_true l c :
  someHasChallenge l c = Some true → ∃ d ch, (d, Some ch) ∈ l ∧ c_id ch = c_id c.
Proof.
  induction l as [|[d [ch|]] l IH]; simpl; try done.
  destruct (decide (c_id ch = c_id c)) as [Heq|Hne].
  - intros _. exists d, ch. split; [by left|done].
  - intros (d' & ch' & Hin & Heq)%IH. exists d', ch'. split; [by right|done].
Qed.

Lemma challengesToStart_cover l cs ts :
  challengesToStart l cs = Some ts →
  ∀ c, c ∈ cs →
    someHasChallenge l c = Some true ∨ (someHasChallenge l c = Some false ∧ c ∈ ts).
Proof.
  revert ts. induction cs as [|c0 cs IH]; intros ts Hts c Hc.
  - by apply elem_of_nil in Hc.
  - simpl in Hts.
    destruct (someHasChallenge l c0) as [started|] eqn:Hc0; [|done].
    destruct (challengesToStart l cs) as [ts'|] eqn:Hrest; [|done].
    injection Hts as <-.
    apply elem_of_cons in Hc as [->|Hc].
    + destruct started; [by left|]. right. split; [done|]. by left.
    + destruct (IH _ eq_refl c Hc) as [Ht|[Hf Hin]]; [by left|].
      right. split; [done|]. destruct started; [done|]. by right.
Qed.

Lemma findChallenge_key ref s ch : findChallenge ref s = Some ch → c_id ch = ref.
Proof.
  intros [_ Hp]%find_elem_of. by apply bool_decide_eq_true in Hp.
Qed.

(** The records a successful increment returns and stores: the selected
    ones, pruned, and the ones just started, each with the new entry. *)
Lemma increment_records name type now s res s' :
  keyedStore s →
  fetchAndIncrementChallengesByUserAndType name type now s = (Ok res, s') →
  ∃ (ts : list Challenge) (starts : list (nat * Challenge)),
    let fetched :=
      populate s <$> filter (fun d => d_username d = name) (UserChallengeModel s) in
    let toUpdate :=
      userChallengesToUpdate now (removeExpired now <$> omap (selected type) fetched)
        ((fun p => mkUserChallenge p.1 name p.2 []) <$> starts) in
    challengesToStart fetched
      (filter (fun c => challengeType c = type) (ChallengeModel s)) = Some ts ∧
    snd <$> starts = ts ∧
    (∀ p, p ∈ starts → p.1 ∉ d_id <$> UserChallengeModel s) ∧
    res = (fun uc =>
             (mkUserChallengeDoc (uc_id uc) (uc_username uc) (c_id (challenge uc))
                (progress uc), Some (challenge uc))) <$> toUpdate ∧
    (∀ uc, uc ∈ toUpdate →
       findUserChallenge (uc_id uc) s'
       = Some (mkUserChallengeDoc (uc_id uc) (uc_username uc) (c_id (challenge uc))
                 (progress uc))) ∧
    titlesOf name s'
    = fold_left
        (fun titles uc =>
           if complete uc then addToSet (reward (challenge uc)) titles else titles)
        toUpdate (titlesOf name s).
Proof.
  intros [Hdocs Hcs] Hrun. unfold fetchAndIncrementChallengesByUserAndType in Hrun.
  destruct (Notify.findUser name s) as [user|] eqn:Huser; [|done].
  unfold fetchUserChallengesByUsername in Hrun.
  destruct (challengesToStart _ _) as [ts|] eqn:Hts; [|done].
  destruct (traverse (saveUserChallenge name) ts s) as [created s1] eqn:Hsave.
  destruct (saveNew_run _ _ _ _ _ Hsave) as (starts & Hstarts & -> & -> & Hnd & Hfresh).
  rewrite allOk_all in Hrun.
  destruct (traverse saveProgress _ _) as [rs s3] eqn:Hprog.
  injection Hrun as Hres <-. apply allOk_inv in Hres. subst rs.
  exists ts, starts. cbv zeta.
  set (sel := omap (selected type)
                (populate s <$>
                   filter (fun d => d_username d = name) (UserChallengeModel s))) in *.
  set (news := (fun p => mkUserChallenge p.1 name p.2 []) <$> starts) in *.
  set (s1 := set_UserChallengeModel
               (UserChallengeModel s
                ++ ((fun p => mkUserChallengeDoc p.1 name (c_id p.2) []) <$> starts)) s)
    in *.
  set (toUpdate := userChallengesToUpdate now (removeExpired now <$> sel) news) in *.
  set (s2 := distributeRewardsIfChallengeComplete toUpdate s1) in *.
  destruct (distribute_frame toUpdate s1) as [Hucm Hcm]. fold s2 in Hucm, Hcm.
  destruct (saveAllProgress_frame _ _ _ _ Hprog) as [Hum' Hcm'].
  assert (Hkeys : NoDup (d_id <$> UserChallengeModel s1)).
  { unfold s1. simpl. by apply docs_NoDup. }
  assert (Hstored : ∀ p, p ∈ starts → p.2 ∈ ChallengeModel s).
  { intros p Hp.
    assert (Hp2 : p.2 ∈ ts) by (rewrite <- Hstarts; by apply list_elem_of_fmap_2).
    apply (challengesToStart_subset _ _ _ Hts) in Hp2.
    by apply list_elem_of_filter in Hp2 as [_ ?]. }
  assert (Hdoc : ∀ uc, uc ∈ toUpdate →
            uc_username uc = name ∧
            findChallenge (c_id (challenge uc)) s = Some (challenge uc) ∧
            ∃ dk, findUserChallenge (uc_id uc) s2 = Some dk ∧
                  withProgress (progress uc) dk
                  = mkUserChallengeDoc (uc_id uc) (uc_username uc)
                      (c_id (challenge uc)) (progress uc)).
  { intros uc (uc1 & -> & [Hin|Hin]%elem_of_app)%list_elem_of_fmap.
    - apply list_elem_of_fmap in Hin as (uc0 & -> & Hin).
      apply selected_elem in Hin as (d & c & Hd & Hn & Hc & Ht & Hl & ->).
      destruct (removeExpired_shape now
                  (mkUserChallenge (d_id d) (d_username d) c (d_progress d)))
        as (Hi & Hu & Hch).
      simpl. rewrite Hi, Hu, Hch. simpl.
      pose proof (findChallenge_key _ _ _ Hc) as Hkey.
      split; [done|]. split; [by rewrite Hkey|]. exists d. split.
      + unfold findUserChallenge. rewrite Hucm.
        apply (find_key_unique d_id); [done|]. unfold s1. simpl.
        apply elem_of_app. by left.
      + unfold withProgress. by rewrite Hkey.
    - apply list_elem_of_fmap in Hin as (p & -> & Hp). simpl.
      split; [done|]. split.
      + unfold findChallenge. apply (find_key_unique c_id); [done|]. by apply Hstored.
      + exists (mkUserChallengeDoc p.1 name (c_id p.2) []). split; [|done].
        unfold findUserChallenge. rewrite Hucm.
        apply (find_key_unique d_id _
                 (mkUserChallengeDoc p.1 name (c_id p.2) [])); [done|].
        unfold s1. simpl. apply elem_of_app. right.
        apply list_elem_of_fmap. by exists p. }
  split; [done|]. split; [done|]. split; [done|].
  split; [|split].
  - apply list_eq_Forall2, Forall2_fmap_r.
    pose proof (saveAllProgress_results toUpdate s2 s2 _ _ Hprog
                  (toUpdate_NoDup now name type s starts Hdocs Hnd Hfresh)
                  (fun _ _ => eq_refl) eq_refl) as Hresults.
    apply Forall2_fmap_r in Hresults. apply Forall2_flip.
    eapply Forall2_elem_impl; [exact Hresults|].
    intros uc r Huc Hr. simpl in Hr.
    destruct (Hdoc uc Huc) as (_ & Hch & dk & Hfound & Hshape).
    rewrite Hfound in Hr. injection Hr as ->. unfold populate.
    rewrite Hshape. simpl. f_equal.
    unfold findChallenge in *. rewrite Hcm.
    change (ChallengeModel s1) with (ChallengeModel s). by rewrite Hch.
  - intros uc Huc.
    rewrite (saveAllProgress_self _ _ _ _ _ Hprog
               (toUpdate_NoDup now name type s starts Hdocs Hnd Hfresh) Huc).
    destruct (Hdoc uc Huc) as (_ & _ & dk & -> & Hshape). simpl. by rewrite Hshape.
  - unfold titlesOf at 1, Notify.findUser. rewrite Hum'. fold (Notify.findUser name s2).
    fold (titlesOf name s2). unfold s2. rewrite distribute_titles.
    + done.
    + intros uc Huc. by apply Hdoc.
    + change (Notify.findUser name s1) with (Notify.findUser name s).
      by rewrite Huser.
Qed.

(** What a successful increment returns: the selected records of the user,
    pruned and with the new entry, and one record with the new entry alone
    for each challenge it started. *)
Lemma increment_members name type now s res s' :
  keyedStore s →
  fetchAndIncrementChallengesByUserAndType name type now s = (Ok res, s') →
  ∃ starts : list (nat * Challenge),
    (∀ p, p ∈ starts →
       (p.1 ∉ d_id <$> UserChallengeModel s) ∧ p.2 ∈ ChallengeModel s ∧
       challengeType p.2 = type) ∧
    (∀ c, c ∈ ChallengeModel s → challengeType c = type →
       (∀ d, d ∈ UserChallengeModel s → d_username d = name → d_challenge d ≠ c_id c) →
       ∃ p, p ∈ starts ∧ p.2 = c) ∧
    (∀ r, r ∈ res ↔
       (∃ d c, d ∈ UserChallengeModel s ∧ d_username d = name ∧
               findChallenge (d_challenge d) s = Some c ∧ challengeType c = type ∧
               Z.of_nat (length (d_progress d)) < actionAmount c ∧
               r = (withProgress (inWindow now c (d_progress d) ++ [now]) d, Some c)) ∨
       (∃ p, p ∈ starts ∧ r = (mkUserChallengeDoc p.1 name (c_id p.2) [now], Some p.2))) ∧
    (∀ d oc, (d, oc) ∈ res → findUserChallenge (d_id d) s' = Some d) ∧
    (∀ r, r ∈ titlesOf name s' ↔
       r ∈ titlesOf name s ∨
       ∃ d c, (d, Some c) ∈ res ∧ reward c = r ∧
              Z.of_nat (length (d_progress d)) = actionAmount c) ∧
    (NoDup (titlesOf name s) → NoDup (titlesOf name s')).
Proof.
  intros Hkeyed Hrun.
  destruct (increment_records _ _ _ _ _ _ Hkeyed Hrun)
    as (ts & starts & Hts & Hst & Hfresh & Hres & Hsaved & Htitles).
  cbv zeta in Hres, Hsaved, Htitles.
  set (fetched := populate s <$>
                    filter (fun d => d_username d = name) (UserChallengeModel s)) in *.
  set (toUpdate := userChallengesToUpdate now
                     (removeExpired now <$> omap (selected type) fetched)
                     ((fun p => mkUserChallenge p.1 name p.2 []) <$> starts)) in *.
  set (image := fun uc : UserChallenge =>
                  (mkUserChallengeDoc (uc_id uc) (uc_username uc) (c_id (challenge uc))
                     (progress uc), Some (challenge uc))) in *.
  exists starts. split; [|split; [|split; [|split; [|split]]]].
  - intros p Hp. split; [by apply Hfresh|].
    assert (Hp2 : p.2 ∈ ts) by (rewrite <- Hst; by apply list_elem_of_fmap_2).
    apply (challengesToStart_subset _ _ _ Hts) in Hp2.
    by apply list_elem_of_filter in Hp2 as [? ?].
  - intros c Hc Ht Hnone.
    assert (Hcf : c ∈ filter (fun c => challengeType c = type) (ChallengeModel s))
      by (by apply list_elem_of_filter).
    destruct (challengesToStart_cover _ _ _ Hts c Hcf) as [Hsome|[_ Hin]].
    + apply someHasChallenge_true in Hsome as (d & ch & Hd & Hid).
      apply list_elem_of_fmap in Hd as (d0 & Heq & Hd0).
      apply list_elem_of_filter in Hd0 as [Hname Hd0].
      unfold populate in Heq. injection Heq as <- Hfound. symmetry in Hfound.
      apply findChallenge_key in Hfound.
      destruct (Hnone d Hd0 Hname). by rewrite <- Hfound.
    + rewrite <- Hst in Hin. apply list_elem_of_fmap in Hin as (p & -> & Hp).
      by exists p.
  - intros r. rewrite Hres, list_elem_of_fmap. split.
    + intros (uc & -> & Huc). unfold toUpdate, userChallengesToUpdate in Huc.
      apply list_elem_of_fmap in Huc as (uc1 & -> & [Hin|Hin]%elem_of_app).
      * apply list_elem_of_fmap in Hin as (uc0 & -> & Hin).
        apply selected_elem in Hin as (d & c & Hd & Hn & Hc & Ht & Hl & ->).
        left. exists d, c. do 5 (split; [done|]).
        destruct (removeExpired_shape now
                    (mkUserChallenge (d_id d) (d_username d) c (d_progress d)))
          as (Hi & Hu & Hch).
        unfold image, addEntry. simpl. rewrite Hi, Hu, Hch, removeExpired_progress.
        simpl. unfold withProgress. by rewrite (findChallenge_key _ _ _ Hc).
      * apply list_elem_of_fmap in Hin as (p & -> & Hp). right. by exists p.
    + intros [(d & c & Hd & Hn & Hc & Ht & Hl & ->)|(p & Hp & ->)].
      * exists (addEntry now
                  (removeExpired now
                     (mkUserChallenge (d_id d) (d_username d) c (d_progress d)))).
        split.
        -- destruct (removeExpired_shape now
                       (mkUserChallenge (d_id d) (d_username d) c (d_progress d)))
             as (Hi & Hu & Hch).
           unfold image, addEntry. simpl. rewrite Hi, Hu, Hch, removeExpired_progress.
           simpl. unfold withProgress. by rewrite (findChallenge_key _ _ _ Hc).
        -- unfold toUpdate, userChallengesToUpdate.
           apply list_elem_of_fmap_2, elem_of_app. left.
           apply list_elem_of_fmap_2, selected_elem. by exists d, c.
      * exists (addEntry now (mkUserChallenge p.1 name p.2 [])). split; [done|].
        unfold toUpdate, userChallengesToUpdate.
        apply list_elem_of_fmap_2, elem_of_app. right.
        by apply (list_elem_of_fmap_2 (fun p => mkUserChallenge p.1 name p.2 [])).
  - intros d oc Hin. rewrite Hres in Hin.
    apply list_elem_of_fmap in Hin as (uc & Heq & Huc).
    unfold image in Heq. injection Heq as -> ->. simpl. by apply Hsaved.
  - intros r. rewrite Htitles, fold_titles_elem. split.
    + intros [Hr|(uc & Huc & Hdone & <-)]; [by left|]. right.
      exists (image uc).1, (challenge uc). split; [|split; [done|]].
      * rewrite Hres. by apply (list_elem_of_fmap_2 image).
      * by apply bool_decide_eq_true in Hdone.
    + intros [Hr|(d & c & Hin & <- & Hlen)]; [by left|]. right.
      rewrite Hres in Hin. apply list_elem_of_fmap in Hin as (uc & Heq & Huc).
      unfold image in Heq. injection Heq as -> ->. simpl in Hlen.
      exists uc. split; [done|]. split; [|done]. by apply bool_decide_eq_true.
  - intros Hnd. rewrite Htitles. by apply fold_titles_NoDup.
Qed.

(** C7, amended: a successful increment returns and stores, with the new
    entry appended, exactly the user's records of the type that were short
    of their target, pruned to their window, and a new record for each
    challenge of the type the user had no record of; a title is in the
    user's unlockedTitles afterwards if and only if it was there before or
    it is the reward of a returned record whose progress length equals its
    challenge's actionAmount; the titles stay a set; a record that existed
    before the call never ends above its target, and no record does when
    every challenge of the type has an actionAmount of at least 1. *)
Theorem C7_reward_on_completion name type now s res s' :
  keyedStore s →
  fetchAndIncrementChallengesByUserAndType name type now s = (Ok res, s') →
  (∀ d c, d ∈ UserChallengeModel s → d_username d = name →
     findChallenge (d_challenge d) s = Some c → challengeType c = type →
     Z.of_nat (length (d_progress d)) < actionAmount c →
     (withProgress (inWindow now c (d_progress d) ++ [now]) d, Some c) ∈ res) ∧
  (∀ c, c ∈ ChallengeModel s → challengeType c = type →
     (∀ d, d ∈ UserChallengeModel s → d_username d = name → d_challenge d ≠ c_id c) →
     ∃ id, (id ∉ d_id <$> UserChallengeModel s) ∧
           (mkUserChallengeDoc id name (c_id c) [now], Some c) ∈ res) ∧
  (∀ d oc, (d, oc) ∈ res →
     findUserChallenge (d_id d) s' = Some d ∧
     ∃ c, oc = Some c ∧ c ∈ ChallengeModel s ∧ challengeType c = type ∧
          d_username d = name ∧ d_challenge d = c_id c ∧
          ((∃ d0, d0 ∈ UserChallengeModel s ∧
                  d = withProgress (inWindow now c (d_progress d0) ++ [now]) d0 ∧
                  Z.of_nat (length (d_progress d0)) < actionAmount c) ∨
           ((d_id d ∉ d_id <$> UserChallengeModel s) ∧ d_progress d = [now]))) ∧
  (∀ r, r ∈ titlesOf name s' ↔
     r ∈ titlesOf name s ∨
     ∃ d c, (d, Some c) ∈ res ∧ reward c = r ∧
            Z.of_nat (length (d_progress d)) = actionAmount c) ∧
  (NoDup (titlesOf name s) → NoDup (titlesOf name s')) ∧
  (∀ d c, (d, Some c) ∈ res → d_id d ∈ d_id <$> UserChallengeModel s →
     Z.of_nat (length (d_progress d)) ≤ actionAmount c) ∧
  ((∀ c, c ∈ ChallengeModel s → challengeType c = type → 1 ≤ actionAmount c) →
   ∀ d c, (d, Some c) ∈ res → Z.of_nat (length (d_progress d)) ≤ actionAmount c).
Proof.
  intros Hkeyed Hrun.
  destruct (increment_members _ _ _ _ _ _ Hkeyed Hrun)
    as (starts & Hnew & Hcover & Hmem & Hsaved & Htitles & Hnd).
  assert (Hbound : ∀ c (d0 : UserChallengeDoc),
            Z.of_nat (length (d_progress d0)) < actionAmount c →
            Z.of_nat (length (inWindow now c (d_progress d0) ++ [now])) ≤ actionAmount c).
  { intros c d0 Hl. rewrite length_app. simpl.
    pose proof (inWindow_length now c (d_progress d0)). lia. }
  split; [|split; [|split; [|split; [|split; [|split]]]]].
  - intros d c Hd Hn Hc Ht Hl. apply Hmem. left. by exists d, c.
  - intros c Hc Ht Hnone. destruct (Hcover c Hc Ht Hnone) as (p & Hp & <-).
    exists p.1. split; [by apply Hnew|]. apply Hmem. right. by exists p.
  - intros d oc Hin. split; [by apply (Hsaved d oc)|].
    apply Hmem in Hin as [(d0 & c & Hd & Hn & Hc & Ht & Hl & Heq)|(p & Hp & Heq)];
      injection Heq as -> ->.
    + exists c. split; [done|]. split; [by apply find_elem_of in Hc as [? _]|].
      split; [done|]. split; [done|].
      split; [simpl; by rewrite (findChallenge_key _ _ _ Hc)|].
      left. by exists d0.
    + destruct (Hnew p Hp) as (Hfresh & Hstored & Ht).
      exists p.2. do 5 (split; [done|]). by right.
  - done.
  - done.
  - intros d c Hin Hold.
    apply Hmem in Hin as [(d0 & c0 & Hd & Hn & Hc & Ht & Hl & Heq)|(p & Hp & Heq)];
      injection Heq as -> ->.
    + by apply Hbound.
    + by destruct (Hnew p Hp) as (Hfresh & _).
  - intros Hpos d c Hin.
    apply Hmem in Hin as [(d0 & c0 & Hd & Hn & Hc & Ht & Hl & Heq)|(p & Hp & Heq)];
      injection Heq as -> ->.
    + by apply Hbound.
    + destruct (Hnew p Hp) as (_ & Hstored & Ht). simpl.
      pose proof (Hpos _ Hstored Ht). lia.
Qed.

Lemma C7_reward_on_completion_witness :
  let s := Samples.challengeStore in
  let run := fetchAndIncrementChallengesByUserAndType "alice" "upvote" 6000000 s in
  let res := match run.1 with Ok l => l | Error _ => [] end in
  keyedStore s ∧
  run = (Ok res, run.2) ∧
  res = [ (mkUserChallengeDoc 0 "alice" "c1" [5400000; 6000000],
           Some Samples.hourChallenge);
          (mkUserChallengeDoc 1 "alice" "c2" [6000000], Some Samples.firstChallenge) ] ∧
  (∀ r, r ∈ titlesOf "alice" run.2 ↔
     r ∈ titlesOf "alice" s ∨
     ∃ d c, (d, Some c) ∈ res ∧ reward c = r ∧
            Z.of_nat (length (d_progress d)) = actionAmount c).
Proof.
  intros s run res.
  assert (Hkeyed : keyedStore s).
  { split; apply (bool_decide_unpack _); vm_compute; exact I. }
  assert (Hrun : fetchAndIncrementChallengesByUserAndType "alice" "upvote" 6000000 s
                 = (Ok res, run.2)) by (by vm_compute).
  split; [exact Hkeyed|]. split; [exact Hrun|]. split; [by vm_compute|].
  exact (proj1 (proj2 (proj2 (proj2
           (C7_reward_on_completion "alice" "upvote" 6000000 s res run.2 Hkeyed Hrun))))).
Defined.

(** C7 as stated fails: a challenge whose target is 0 is started with one
    entry, so its record ends above the target, and the equality check never
    unlocks its reward, neither in this call nor in a later one, which no
    longer selects the record. *)
Lemma C7_zero_target_never_unlocks :
  let s := Samples.idleStore in
  let first := fetchAndIncrementChallengesByUserAndType "alice" "upvote" 5 s in
  let second := fetchAndIncrementChallengesByUserAndType "alice" "upvote" 6 first.2 in
  keyedStore s ∧
  first.1 = Ok [(mkUserChallengeDoc 0 "alice" "cz" [5], Some Samples.idleChallenge)] ∧
  actionAmount Samples.idleChallenge < Z.of_nat (length [5]) ∧
  titlesOf "alice" first.2 = [] ∧
  second.1 = Ok [] ∧
  progressOf 0 second.2 = Some [5] ∧
  titlesOf "alice" second.2 = [].
Proof.
  split; [split; apply (bool_decide_unpack _); vm_compute; exact I|].
  by vm_compute.
Qed.

End challenge_facts.

(** * Further properties *)

(** ** Stability of the sort *)
Lemma filter_none {A} (P : A → Prop) `{∀ x, Decision (P x)} l :
  (∀ x, x ∈ l → ¬ P x) → filter P l = [].
Proof.
  induction l as [|y l IH]; intros Hl; [done|].
  rewrite filter_cons_False by (apply Hl; by left).
  apply IH. intros x Hx. apply Hl. by right.
Qed.

Lemma StronglySorted_filter {A} (R : relation A) (P : A → Prop)
    `{∀ x, Decision (P x)} l :
  StronglySorted R l → StronglySorted R (filter P l).
Proof.
  induction 1 as [|x l Hl IH Hx]; [constructor|].
  rewrite filter_cons. destruct (decide (P x)); [|done].
  constructor; [done|]. rewrite Forall_forall in Hx. apply Forall_forall.
  intros y [_ Hy]%list_elem_of_filter. by apply Hx.
Qed.

Section sort_stability.
Context {A : Type} (comparefn : A → A → Z).
Context (P : A → Prop) `{∀ x, Decision (P x)}.

Hypothesis below_asym : ∀ x y, comparefn x y < 0 → ¬ comparefn y x < 0.
Hypothesis below_cotrans :
  ∀ x y z, comparefn x y < 0 → comparefn x z < 0 ∨ comparefn z y < 0.
(** The elements of [P] are ones the comparator does not separate. *)
Hypothesis tied : ∀ x y, P x → P y → ¬ comparefn x y < 0.

Lemma sort_insert_filter x l :
  StronglySorted (fun a b => ¬ comparefn b a < 0) l →
  filter P (sort_insert comparefn x l) = filter P l ++ filter P [x].
Proof.
  induction l as [|y l IH]; intros Hs; [done|].
  apply StronglySorted_inv in Hs as [Hl Hy]. simpl.
  case_decide as Hxy.
  - destruct (decide (P x)) as [Hx|Hx].
    + rewrite (filter_cons_True _ x) by done.
      rewrite (filter_none P (y :: l)); [by rewrite (filter_cons_True _ x) by done|].
      intros z Hz HPz. apply elem_of_cons in Hz as [->|Hz].
      * by apply (tied x y).
      * rewrite Forall_forall in Hy.
        destruct (below_cotrans x y z Hxy) as [Hxz|Hzy].
        -- by apply (tied x z).
        -- by apply (Hy z).
    + rewrite (filter_cons_False _ x) by done.
      by rewrite filter_singleton_False, app_nil_r.
  - rewrite !(filter_cons _ y). rewrite IH by done. by destruct (decide (P y)).
Qed.

Lemma sort_fold_filter l acc :
  StronglySorted (fun a b => ¬ comparefn b a < 0) acc →
  filter P (fold_left (fun acc x => sort_insert comparefn x acc) l acc)
  = filter P acc ++ filter P l.
Proof.
  revert acc. induction l as [|x l IH]; intros acc Hacc; simpl.
  - by rewrite app_nil_r.
  - rewrite IH.
    + rewrite sort_insert_filter by done. rewrite <- app_assoc. f_equal.
      by rewrite (filter_app _ [x] l).
    + eapply StronglySorted_mono;
        [|apply (sort_insert_sorted comparefn below_asym below_cotrans
                   (fun _ _ => True) x acc)].
      * intros a b _ _ [Hab|[Hba _]]; [by apply below_asym|done].
      * eapply StronglySorted_mono; [|exact Hacc]. intros a b _ _ Hba. by right.
      * by apply Forall_forall.
Qed.

(** Elements the comparator does not separate keep their order. *)
Lemma js_sort_filter l : filter P (js_sort comparefn l) = filter P l.
Proof. unfold js_sort. rewrite sort_fold_filter; [done|constructor]. Qed.
End sort_stability.

(** ** Rankings beside [active] *)
Section rank_more.
Import Rank.

Lemma compareViews_below a b :
  compareViews a b < 0 ↔ (length (views b) < length (views a))%nat.
Proof. unfold compareViews. lia. Qed.

(** X1: ranking by [newest] returns the questions newest first and keeps the
    input order of questions asked at the same time. *)
Theorem X1_newest_stable h qlist qs :
  h !! qlist = Some qs →
  let out := ranked newest qlist h in
  out ≡ₚ qs ∧
  StronglySorted (fun a b => askDateTime b ≤ askDateTime a) out ∧
  ∀ t, filter (fun q => askDateTime q = t) out = filter (fun q => askDateTime q = t) qs.
Proof.
  intros Hq out.
  assert (Hout : out = js_sort compareNewest qs).
  { unfold out, ranked, getQuestionsByOrder.
    rewrite (sortQuestionsByNewest_run _ _ _ Hq). unfold read.
    by rewrite lookup_insert_eq. }
  rewrite Hout. split; [apply js_sort_perm|]. split; [apply newest_sorted|].
  intros t. apply js_sort_filter.
  - intros x y. rewrite !compareNewest_below. lia.
  - intros x y z. rewrite !compareNewest_below. lia.
  - intros x y Hx Hy. rewrite compareNewest_below. lia.
Qed.

Lemma X1_newest_stable_witness :
  Samples.heap0 !! 0%nat = Some Samples.fetched ∧
  let out := ranked newest 0%nat Samples.heap0 in
  out ≡ₚ Samples.fetched ∧
  StronglySorted (fun a b => askDateTime b ≤ askDateTime a) out ∧
  ∀ t, filter (fun q => askDateTime q = t) out
       = filter (fun q => askDateTime q = t) Samples.fetched.
Proof.
  assert (H1 : Samples.heap0 !! 0%nat = Some Samples.fetched) by reflexivity.
  exact (conj H1 (X1_newest_stable _ _ _ H1)).
Defined.

Lemma sortQuestionsByMostViews_run h qlist qs :
  h !! qlist = Some qs →
  sortQuestionsByMostViews qlist h
  = (qlist, <[qlist := js_sort compareViews (js_sort compareNewest qs)]> h).
Proof.
  intros Hq. unfold sortQuestionsByMostViews.
  rewrite (sortQuestionsByNewest_run _ _ _ Hq). apply array_sort_insert.
Qed.

(** X2: ranking by [mostViewed] orders the questions by number of views,
    most first, and questions with the same number of views newest first;
    the array it returns is the input array, sorted in place. *)
Theorem X2_mostViewed_order h qlist qs :
  h !! qlist = Some qs →
  let out := ranked mostViewed qlist h in
  out ≡ₚ qs ∧
  inputAfter mostViewed qlist h = out ∧
  ∀ i j a b, (i < j)%nat → out !! i = Some a → out !! j = Some b →
    (length (views b) ≤ length (views a))%nat ∧
    (length (views a) = length (views b) → askDateTime b ≤ askDateTime a).
Proof.
  intros Hq out.
  assert (Hout : out = js_sort compareViews (js_sort compareNewest qs)).
  { unfold out, ranked, getQuestionsByOrder.
    rewrite (sortQuestionsByMostViews_run _ _ _ Hq). unfold read.
    by rewrite lookup_insert_eq. }
  split; [by rewrite Hout, !js_sort_perm|]. split.
  { unfold inputAfter, getQuestionsByOrder.
    rewrite (sortQuestionsByMostViews_run _ _ _ Hq). unfold read.
    by rewrite lookup_insert_eq. }
  intros i j a b Hij Hi Hj.
  assert (Hs : StronglySorted
            (refined compareViews (fun a b => askDateTime b ≤ askDateTime a)) out).
  { rewrite Hout. apply js_sort_stable.
    - intros x y. rewrite !compareViews_below. lia.
    - intros x y z. rewrite !compareViews_below. lia.
    - apply newest_sorted. }
  pose proof (StronglySorted_lookup _ _ _ _ _ _ Hs Hij Hi Hj) as Hab.
  unfold refined in Hab. rewrite !compareViews_below in Hab. lia.
Qed.

Lemma X2_mostViewed_order_witness :
  Samples.heap0 !! 0%nat = Some Samples.fetched ∧
  let out := ranked mostViewed 0%nat Samples.heap0 in
  out ≡ₚ Samples.fetched ∧
  inputAfter mostViewed 0%nat Samples.heap0 = out ∧
  ∀ i j a b, (i < j)%nat → out !! i = Some a → out !! j = Some b →
    (length (views b) ≤ length (views a))%nat ∧
    (length (views a) = length (views b) → askDateTime b ≤ askDateTime a).
Proof.
  assert (H1 : Samples.heap0 !! 0%nat = Some Samples.fetched) by reflexivity.
  exact (conj H1 (X2_mostViewed_order _ _ _ H1)).
Defined.

(** X3: ranking by [unanswered] returns exactly the questions without
    answers, newest first, questions asked at the same time in their input
    order. *)
Theorem X3_unanswered_only h qlist qs :
  h !! qlist = Some qs →
  let out := ranked unanswered qlist h in
  (∀ q, q ∈ out ↔ q ∈ qs ∧ answers q = []) ∧
  StronglySorted (fun a b => askDateTime b ≤ askDateTime a) out ∧
  ∀ t, filter (fun q => askDateTime q = t) out
       = filter (fun q => askDateTime q = t)
           (filter (fun q => length (answers q) = 0%nat) qs).
Proof.
  intros Hq out.
  assert (Hout : out = filter (fun q => length (answers q) = 0%nat)
                         (js_sort compareNewest qs)).
  { unfold out, ranked, getQuestionsByOrder.
    destruct (sortQuestionsByUnanswered_run _ _ _ Hq) as (r & Hr & ->).
    unfold read. by rewrite lookup_insert_eq. }
  rewrite Hout. split; [|split].
  - intros q. rewrite list_elem_of_filter, js_sort_perm.
    rewrite length_zero_iff_nil. tauto.
  - apply StronglySorted_filter, newest_sorted.
  - intros t. rewrite !list_filter_filter.
    apply (js_sort_filter compareNewest).
    + intros x y. rewrite !compareNewest_below. lia.
    + intros x y z. rewrite !compareNewest_below. lia.
    + intros x y [Hx _] [Hy _]. rewrite compareNewest_below. lia.
Qed.

Lemma X3_unanswered_only_witness :
  Samples.heap0 !! 0%nat = Some Samples.fetched ∧
  let out := ranked unanswered 0%nat Samples.heap0 in
  (∀ q, q ∈ out ↔ q ∈ Samples.fetched ∧ answers q = []) ∧
  StronglySorted (fun a b => askDateTime b ≤ askDateTime a) out ∧
  ∀ t, filter (fun q => askDateTime q = t) out
       = filter (fun q => askDateTime q = t)
           (filter (fun q => length (answers q) = 0%nat) Samples.fetched).
Proof.
  assert (H1 : Samples.heap0 !! 0%nat = Some Samples.fetched) by reflexivity.
  exact (conj H1 (X3_unanswered_only _ _ _ H1)).
Defined.

Lemma fold_max_ge (l : list Z) c : c ≤ fold_left Z.max l c ∧
  (∀ x, x ∈ l → x ≤ fold_left Z.max l c) ∧
  (fold_left Z.max l c = c ∨ fold_left Z.max l c ∈ l).
Proof.
  revert c. induction l as [|y l IH]; intros c; simpl.
  - split; [lia|]. split; [by intros x ?%elem_of_nil|by left].
  - destruct (IH (Z.max c y)) as (Hc & Hall & Hatt). split; [lia|]. split.
    + intros x [->|Hx]%elem_of_cons; [lia|by apply Hall].
    + destruct Hatt as [Heq|Hin]; [|right; by right].
      rewrite Heq. destruct (Z.max_spec c y) as [[_ ->]|[_ ->]];
        [right; by left|by left].
Qed.

(** X4: recording a question's answers into a map that has no entry for it
    stores the time of its most recent answer: no answer is later, and one
    of them has that time.  A question without answers gets no entry, and
    the entries of other questions stay as they are. *)
Theorem X4_most_recent_answer question id mp :
  q_id question = Some id →
  mp !! id = None →
  (answers question = [] → getMostRecentAnswerTime question mp !! id = None) ∧
  (answers question ≠ [] →
     ∃ t, getMostRecentAnswerTime question mp !! id = Some t ∧
          (∀ a, a ∈ answers question → ansDateTime a ≤ t) ∧
          ∃ a, a ∈ answers question ∧ ansDateTime a = t) ∧
  ∀ k, k ≠ id → getMostRecentAnswerTime question mp !! k = mp !! k.
Proof.
  intros Hid Hnone. rewrite (recent_self _ _ _ Hid Hnone).
  unfold latestAnswerTime. split; [|split].
  - by intros ->.
  - intros Hne. destruct (answers question) as [|a0 l]; [done|].
    eexists. split; [done|].
    destruct (fold_max_ge (ansDateTime <$> l) (ansDateTime a0)) as (Hc & Hall & Hatt).
    split.
    + intros a [->|Ha]%elem_of_cons; [done|].
      apply Hall. by apply list_elem_of_fmap_2.
    + destruct Hatt as [Heq|(a & Ha & Hin)%list_elem_of_fmap].
      * exists a0. split; [by left|done].
      * exists a. split; [by right|done].
  - intros k Hk. apply recent_other. congruence.
Qed.

Lemma X4_most_recent_answer_witness :
  q_id Samples.qReact = Some "q1" ∧
  (∅ : gmap string Z) !! "q1" = None ∧
  (answers Samples.qReact = [] → getMostRecentAnswerTime Samples.qReact ∅ !! "q1" = None) ∧
  (answers Samples.qReact ≠ [] →
     ∃ t, getMostRecentAnswerTime Samples.qReact ∅ !! "q1" = Some t ∧
          (∀ a, a ∈ answers Samples.qReact → ansDateTime a ≤ t) ∧
          ∃ a, a ∈ answers Samples.qReact ∧ ansDateTime a = t) ∧
  ∀ k, k ≠ "q1" → getMostRecentAnswerTime Samples.qReact ∅ !! k = (∅ : gmap string Z) !! k.
Proof.
  assert (H1 : q_id Samples.qReact = Some "q1") by reflexivity.
  assert (H2 : (∅ : gmap string Z) !! "q1" = None) by reflexivity.
  exact (conj H1 (conj H2 (X4_most_recent_answer _ _ _ H1 H2))).
Defined.

End rank_more.

(** ** Subscriptions, views and votes *)
Section question_more.
Import Notify Votes Questions.

Lemma findQuestion_update qid (f : Question → Question) s :
  (∀ q, q_id (f q) = q_id q) →
  findQuestion qid
    (set_QuestionModel
       (update_first (fun q => bool_decide (q_id q = Some qid)) f (QuestionModel s)) s)
  = f <$> findQuestion qid s.
Proof.
  intros Hf. unfold findQuestion. simpl.
  apply find_update_first. intros q. by rewrite Hf.
Qed.

Lemma findQuestion_update_other qid qid' (f : Question → Question) s :
  (∀ q, q_id (f q) = q_id q) → qid' ≠ qid →
  findQuestion qid'
    (set_QuestionModel
       (update_first (fun q => bool_decide (q_id q = Some qid)) f (QuestionModel s)) s)
  = findQuestion qid' s.
Proof.
  intros Hf Hne. unfold findQuestion. simpl.
  apply find_update_first_other.
  - intros q. by rewrite Hf.
  - intros q Hq%bool_decide_eq_true. apply bool_decide_eq_false. congruence.
Qed.

Lemma addSubscriberToQuestion_run qid name s q :
  findQuestion qid s = Some q →
  addSubscriberToQuestion qid name s
  = (Ok (setSubscribers (toggled name (subscribers q)) q),
     set_QuestionModel
       (update_first (fun x => bool_decide (q_id x = Some qid))
          (fun x => setSubscribers
                      (if includes name (subscribers q)
                       then filter (fun u => u ≠ name) (subscribers x)
                       else subscribers x ++ [name]) x)
          (QuestionModel s)) s).
Proof.
  intros Hq. unfold addSubscriberToQuestion. rewrite Hq.
  rewrite findQuestion_update by (intros x; by destruct (includes _ _)).
  rewrite Hq. simpl. unfold toggled. by destruct (includes name (subscribers q)).
Qed.

Lemma addSubscriberToQuestion_stored qid name s q :
  findQuestion qid s = Some q →
  findQuestion qid (addSubscriberToQuestion qid name s).2
  = Some (setSubscribers (toggled name (subscribers q)) q).
Proof.
  intros Hq. rewrite (addSubscriberToQuestion_run _ _ _ _ Hq). simpl.
  rewrite findQuestion_update by (intros x; by destruct (includes _ _)).
  rewrite Hq. simpl. unfold toggled. by destruct (includes name (subscribers q)).
Qed.

Lemma toggled_self `{EqDecision A} (name : A) l : name ∈ toggled name l ↔ name ∉ l.
Proof.
  unfold toggled. destruct (includes name l) eqn:Hin.
  - apply includes_true in Hin. rewrite list_elem_of_filter. tauto.
  - apply includes_false in Hin.
    rewrite elem_of_app, list_elem_of_singleton. tauto.
Qed.

Lemma toggled_other `{EqDecision A} (name u : A) l :
  u ≠ name → u ∈ toggled name l ↔ u ∈ l.
Proof.
  intros Hne. unfold toggled. destruct (includes name l).
  - rewrite list_elem_of_filter. tauto.
  - rewrite elem_of_app, list_elem_of_singleton. tauto.
Qed.

(** X5: a vote on a stored question whose vote lists hold no name twice
    leaves them so; the lists it returns are the ones it stored; the other
    fields of the question and every other question stay as they were. *)
Theorem X5_vote_keeps_sets qid name type s q :
  findQuestion qid s = Some q →
  NoDup (upVotes q) → NoDup (downVotes q) →
  let run := addVoteToQuestion qid name type s in
  ∃ q' m,
    findQuestion qid run.2 = Some q' ∧
    run.1 = Ok (mkVoteResult m (upVotes q') (downVotes q')) ∧
    NoDup (upVotes q') ∧ NoDup (downVotes q') ∧
    (askedBy q', answers q', views q', subscribers q')
    = (askedBy q, answers q, views q, subscribers q) ∧
    (∀ qid', qid' ≠ qid → findQuestion qid' run.2 = findQuestion qid' s) ∧
    UserModel run.2 = UserModel s.
Proof.
  intros Hq Hup Hdown run.
  exists (updateOperation type name q).
  assert (Hstored := addVoteToQuestion_stored qid name type s q Hq).
  subst run. unfold addVoteToQuestion in *. rewrite Hq in *. simpl in *.
  eexists. split; [done|]. split; [done|].
  assert (Hnd : ∀ l, NoDup l → NoDup (without name l)).
  { intros l Hl. unfold without. by apply NoDup_filter. }
  assert (Happ : ∀ l, NoDup l → includes name l = false → NoDup (l ++ [name])).
  { intros l Hl Hin%includes_false. apply NoDup_app. split; [done|].
    split; [|apply NoDup_singleton].
    intros y Hy ->%list_elem_of_singleton. done. }
  split; [|split; [|split; [|split; [|done]]]].
  - destruct type; simpl; destruct (includes name _) eqn:Hin; auto.
  - destruct type; simpl; destruct (includes name _) eqn:Hin; auto.
  - by destruct type.
  - intros qid' Hne. apply findQuestion_update_other; [|done].
    intros x. apply updateOperation_id.
Qed.

Lemma X5_vote_keeps_sets_witness :
  ∃ q' m,
    findQuestion "q1" (addVoteToQuestion "q1" "alice" downvote Samples.upvotedStore).2
    = Some q' ∧
    (addVoteToQuestion "q1" "alice" downvote Samples.upvotedStore).1
    = Ok (mkVoteResult m (upVotes q') (downVotes q')) ∧
    NoDup (upVotes q') ∧ NoDup (downVotes q') ∧
    (askedBy q', answers q', views q', subscribers q') = ("bob", [], [], []) ∧
    (∀ qid', qid' ≠ "q1" →
       findQuestion qid' (addVoteToQuestion "q1" "alice" downvote Samples.upvotedStore).2
       = findQuestion qid' Samples.upvotedStore) ∧
    UserModel (addVoteToQuestion "q1" "alice" downvote Samples.upvotedStore).2 = [].
Proof.
  apply (X5_vote_keeps_sets "q1" "alice" downvote Samples.upvotedStore
           (mkQuestion (Some "q1") "bob" 10 [] [] ["alice"] [] [])).
  - reflexivity.
  - apply (bool_decide_unpack _). vm_compute. exact I.
  - apply (bool_decide_unpack _). vm_compute. exact I.
Defined.

(** X6: subscribing is a toggle on the stored question: the caller's
    membership among the subscribers flips, nobody else's changes, the
    question returned is the one stored, votes and views are untouched, and
    a second call restores the caller's membership. *)
Theorem X6_subscribe_toggle qid name s q :
  findQuestion qid s = Some q →
  let run := addSubscriberToQuestion qid name s in
  let again := addSubscriberToQuestion qid name run.2 in
  ∃ q',
    run.1 = Ok q' ∧ findQuestion qid run.2 = Some q' ∧
    (name ∈ subscribers q' ↔ name ∉ subscribers q) ∧
    (∀ u, u ≠ name → u ∈ subscribers q' ↔ u ∈ subscribers q) ∧
    (upVotes q', downVotes q', views q', askedBy q')
    = (upVotes q, downVotes q, views q, askedBy q) ∧
    (∀ qid', qid' ≠ qid → findQuestion qid' run.2 = findQuestion qid' s) ∧
    (∀ u, u ∈ subscribersOf qid again.2 ↔ u ∈ subscribers q).
Proof.
  intros Hq run again.
  exists (setSubscribers (toggled name (subscribers q)) q).
  assert (Hst := addSubscriberToQuestion_stored qid name s q Hq).
  fold run in Hst.
  assert (Hst2 := addSubscriberToQuestion_stored qid name run.2 _ Hst).
  fold again in Hst2.
  split; [|split; [done|]].
  { subst run. by rewrite (addSubscriberToQuestion_run _ _ _ _ Hq). }
  split; [apply toggled_self|].
  split; [intros u Hu; by apply toggled_other|].
  split; [done|]. split.
  - intros qid' Hne. subst run. rewrite (addSubscriberToQuestion_run _ _ _ _ Hq).
    simpl. apply findQuestion_update_other; [|done].
    intros x. by destruct (includes _ _).
  - intros u. unfold subscribersOf. rewrite Hst2. simpl.
    destruct (decide (u = name)) as [->|Hne].
    + rewrite toggled_self, toggled_self.
      destruct (decide (name ∈ subscribers q)); tauto.
    + by rewrite !toggled_other.
Qed.

Lemma X6_subscribe_toggle_witness :
  ∃ q',
    (addSubscriberToQuestion "q1" "bob" Samples.fanoutStore).1 = Ok q' ∧
    findQuestion "q1" (addSubscriberToQuestion "q1" "bob" Samples.fanoutStore).2 = Some q' ∧
    (("bob" : string) ∈ subscribers q' ↔ ("bob" : string) ∉ ["bob"; "carol"]) ∧
    (∀ u : string, u ≠ "bob" → u ∈ subscribers q' ↔ u ∈ ["bob"; "carol"]) ∧
    (upVotes q', downVotes q', views q', askedBy q') = ([], [], [], "alice") ∧
    (∀ qid', qid' ≠ "q1" →
       findQuestion qid' (addSubscriberToQuestion "q1" "bob" Samples.fanoutStore).2
       = findQuestion qid' Samples.fanoutStore) ∧
    (∀ u, u ∈ subscribersOf "q1"
            (addSubscriberToQuestion "q1" "bob"
               (addSubscriberToQuestion "q1" "bob" Samples.fanoutStore).2).2
          ↔ u ∈ ["bob"; "carol"]).
Proof.
  apply (X6_subscribe_toggle "q1" "bob" Samples.fanoutStore
           (mkQuestion (Some "q1") "alice" 10 [] [] [] [] ["bob"; "carol"])).
  reflexivity.
Defined.

(** X7: who hears of a new answer follows the subscription toggle: after a
    user who was not subscribed calls it, the recipients of an Answer
    notification are the asker, the former subscribers and that user; after
    a subscriber calls it, that user is a recipient only as the asker. *)
Theorem X7_subscription_drives_fanout qid name s q :
  findQuestion qid s = Some q →
  let s1 := (addSubscriberToQuestion qid name s).2 in
  (name ∉ subscribers q →
   usersToNotify qid (Some NotificationType.Answer) s1
   = Ok (askedBy q :: subscribers q ++ [name])) ∧
  (name ∈ subscribers q →
   ∃ recipients,
     usersToNotify qid (Some NotificationType.Answer) s1 = Ok recipients ∧
     (name ∈ recipients ↔ name = askedBy q) ∧
     ∀ u, u ≠ name → u ∈ recipients ↔ u ∈ askedBy q :: subscribers q).
Proof.
  intros Hq s1.
  assert (Hst := addSubscriberToQuestion_stored qid name s q Hq). fold s1 in Hst.
  unfold usersToNotify, usersToNotifyOnNewAnswer. rewrite Hst. simpl.
  unfold toggled. split.
  - intros Hin%includes_false. by rewrite Hin.
  - intros Hin. assert (Hin' := Hin). apply includes_true in Hin'. rewrite Hin'.
    eexists. split; [done|]. split.
    + rewrite elem_of_cons, list_elem_of_filter. tauto.
    + intros u Hu. rewrite !elem_of_cons, list_elem_of_filter. tauto.
Qed.

Lemma X7_subscription_drives_fanout_witness :
  let s1 := (addSubscriberToQuestion "q1" "dave" Samples.fanoutStore).2 in
  (("dave" : string) ∉ ["bob"; "carol"] →
   usersToNotify "q1" (Some NotificationType.Answer) s1
   = Ok ("alice" :: ["bob"; "carol"] ++ ["dave"])) ∧
  (("dave" : string) ∈ ["bob"; "carol"] →
   ∃ recipients,
     usersToNotify "q1" (Some NotificationType.Answer) s1 = Ok recipients ∧
     (("dave" : string) ∈ recipients ↔ "dave" = "alice") ∧
     ∀ u : string, u ≠ "dave" → u ∈ recipients ↔ u ∈ "alice" :: ["bob"; "carol"]).
Proof.
  apply (X7_subscription_drives_fanout "q1" "dave" Samples.fanoutStore
           (mkQuestion (Some "q1") "alice" 10 [] [] [] [] ["bob"; "carol"])).
  reflexivity.
Defined.

(** X8: a view is counted once per user.  For an id the constructor accepts
    and a stored question, the call returns the stored question with the
    viewer among its views, keeps the views free of duplicates, adds at most
    one entry, none when the viewer was there, and a second call by the same
    viewer changes nothing. *)
Theorem X8_view_counted_once toObjectId qid id name s q :
  toObjectId qid = Some id →
  findQuestion id s = Some q →
  NoDup (views q) →
  let run := fetchAndIncrementQuestionViewsById toObjectId qid name s in
  ∃ q',
    run.1 = Ok (Some q') ∧ findQuestion id run.2 = Some q' ∧
    (∀ u, u ∈ views q' ↔ u = name ∨ u ∈ views q) ∧
    NoDup (views q') ∧
    length (views q') = (if decide (name ∈ views q) then length (views q)
                         else S (length (views q))) ∧
    (upVotes q', downVotes q', subscribers q')
    = (upVotes q, downVotes q, subscribers q) ∧
    fetchAndIncrementQuestionViewsById toObjectId qid name run.2 = (Ok (Some q'), run.2).
Proof.
  intros Hid Hq Hnd run.
  exists (setViews (addToSet name (views q)) q).
  assert (Hst : findQuestion id run.2 = Some (setViews (addToSet name (views q)) q)).
  { subst run. unfold fetchAndIncrementQuestionViewsById. rewrite Hid. simpl.
    rewrite findQuestion_update by done. by rewrite Hq. }
  split.
  { subst run. unfold fetchAndIncrementQuestionViewsById in *. rewrite Hid in *.
    simpl in *. by rewrite Hst. }
  split; [done|].
  split; [intros u; apply addToSet_elem_iff|].
  split; [by apply addToSet_NoDup|].
  split.
  { simpl. unfold addToSet. destruct (decide _); [done|].
    rewrite length_app. simpl. lia. }
  split; [done|].
  unfold fetchAndIncrementQuestionViewsById at 1. rewrite Hid.
  assert (Hsame :
    set_QuestionModel
      (update_first (fun x => bool_decide (q_id x = Some id))
         (fun x => setViews (addToSet name (views x)) x) (QuestionModel run.2)) run.2
    = run.2).
  { rewrite <- (set_QuestionModel_same run.2) at 3. f_equal.
    unfold findQuestion in Hst. revert Hst.
    generalize (QuestionModel run.2). intros l.
    induction l as [|x l IH]; simpl; [done|].
    case_bool_decide as Hx.
    - intros [= ->]. f_equal. unfold setViews. simpl.
      by rewrite addToSet_idemp.
    - intros Hl. f_equal. by apply IH. }
  rewrite Hsame. by rewrite Hst.
Qed.

Lemma X8_view_counted_once_witness :
  let run :=
    fetchAndIncrementQuestionViewsById Some "q1" "sana"
      (set_QuestionModel Samples.fetched Samples.emptyStore) in
  ∃ q',
    run.1 = Ok (Some q') ∧ findQuestion "q1" run.2 = Some q' ∧
    (∀ u : string, u ∈ views q' ↔ u = "sana" ∨ u ∈ ["sana"]) ∧
    NoDup (views q') ∧
    length (views q') = (if decide (("sana" : string) ∈ ["sana"]) then 1%nat else 2%nat) ∧
    (upVotes q', downVotes q', subscribers q') = ([], [], []) ∧
    fetchAndIncrementQuestionViewsById Some "q1" "sana" run.2 = (Ok (Some q'), run.2).
Proof.
  apply (X8_view_counted_once Some "q1" "q1" "sana"
           (set_QuestionModel Samples.fetched Samples.emptyStore) Samples.qReact).
  - reflexivity.
  - reflexivity.
  - apply (bool_decide_unpack _). vm_compute. exact I.
Defined.

(** X9: a question that is not stored.  A vote, a subscription and the
    asker's progress report an error, the view counter of an id the
    constructor accepts returns null and an id it rejects gives an error;
    none of them writes. *)
Theorem X9_unknown_question toObjectId qid name type now s :
  findQuestion qid s = None →
  (∃ m, addVoteToQuestion qid name type s = (Error m, s)) ∧
  (∃ m, addSubscriberToQuestion qid name s = (Error m, s)) ∧
  (∃ m, AskerProgress.incrementProgressForAskedByUser qid now s = (Error m, s)) ∧
  (∀ raw, toObjectId raw = Some qid →
     fetchAndIncrementQuestionViewsById toObjectId raw name s = (Ok None, s)) ∧
  (∀ raw, toObjectId raw = None →
     ∃ m, fetchAndIncrementQuestionViewsById toObjectId raw name s = (Error m, s)).
Proof.
  intros Hq.
  unfold addVoteToQuestion, addSubscriberToQuestion,
    AskerProgress.incrementProgressForAskedByUser. rewrite Hq.
  split; [by eexists|]. split; [by eexists|]. split; [by eexists|].
  split.
  - intros raw Hraw. unfold fetchAndIncrementQuestionViewsById. rewrite Hraw.
    unfold findQuestion in *. simpl.
    rewrite update_first_none by done.
    rewrite Hq. f_equal. apply set_QuestionModel_same.
  - intros raw Hraw. unfold fetchAndIncrementQuestionViewsById. rewrite Hraw.
    by eexists.
Qed.

Lemma X9_unknown_question_witness :
  (∃ m, addVoteToQuestion "q9" "alice" upvote Samples.fanoutStore
        = (Error m, Samples.fanoutStore)) ∧
  (∃ m, addSubscriberToQuestion "q9" "alice" Samples.fanoutStore
        = (Error m, Samples.fanoutStore)) ∧
  (∃ m, AskerProgress.incrementProgressForAskedByUser "q9" 5 Samples.fanoutStore
        = (Error m, Samples.fanoutStore)) ∧
  (∀ raw, Some raw = Some "q9" →
     fetchAndIncrementQuestionViewsById Some raw "alice" Samples.fanoutStore
     = (Ok None, Samples.fanoutStore)) ∧
  (∀ raw, Some raw = None →
     ∃ m, fetchAndIncrementQuestionViewsById Some raw "alice" Samples.fanoutStore
          = (Error m, Samples.fanoutStore)).
Proof.
  apply (X9_unknown_question Some "q9" "alice" upvote 5 Samples.fanoutStore).
  reflexivity.
Defined.

End question_more.

(** ** Failed fan-outs, blocked types and read marks *)
Section inbox_more.
Import Inbox Notify.

Lemma findUser_update name u (f : User → User) s :
  (∀ x, username (f x) = username x) →
  findUser u
    (set_UserModel
       (update_first (fun x => bool_decide (username x = name)) f (UserModel s)) s)
  = (if decide (u = name) then f else id) <$> findUser u s.
Proof.
  intros Hf. unfold findUser. simpl. destruct (decide (u = name)) as [->|Hne].
  - apply find_update_first. intros x. by rewrite Hf.
  - rewrite find_update_first_other; [by rewrite option_fmap_id| |].
    + intros x. by rewrite Hf.
    + intros x Hx%bool_decide_eq_true. apply bool_decide_eq_false. congruence.
Qed.

(** One delivery of a well-formed notification, failed or not. *)
Lemma addNotificationToUser_step name notif s r s' t nid b :
  addNotificationToUser name notif s = (r, s') →
  notificationType notif = Some t → isRead notif = Some b → n_id notif = Some nid →
  NotificationModel s' = NotificationModel s ∧
  (isError r = true ↔ findUser name s = None) ∧
  ∀ u, findUser u s'
       = (if decide (u = name ∧ hasBlocked name t s = false)
          then pushNotification nid else id) <$> findUser u s.
Proof.
  intros Hrun Ht Hb Hid. unfold addNotificationToUser in Hrun.
  rewrite Ht, Hb, Hid in Hrun. unfold hasBlocked.
  destruct (findUser name s) as [user|] eqn:Huser.
  - destruct (includes t (blockedNotifications user)) eqn:Hbl; injection Hrun as <- <-.
    + split; [done|]. split; [done|]. intros u.
      rewrite decide_False by (intros [_ Hx]; discriminate Hx).
      by rewrite option_fmap_id.
    + split; [done|]. split; [done|]. intros u.
      rewrite findUser_update by done.
      destruct (decide (u = name)) as [->|Hne].
      * by rewrite decide_True.
      * by rewrite decide_False by (intros [Hx _]; by apply Hne).
  - injection Hrun as <- <-. split; [done|]. split; [done|]. intros u.
    destruct (decide _) as [[-> _]|_].
    + by rewrite Huser.
    + by rewrite option_fmap_id.
Qed.

(** Delivering to every recipient: a delivery fails exactly for an unknown
    recipient, and the others take place all the same. *)
Lemma deliver_any t (pairs : list (string * Notification)) s rs s' :
  traverse (fun '(name, notif) => addNotificationToUser name notif) pairs s = (rs, s') →
  (∀ name notif, (name, notif) ∈ pairs →
     notificationType notif = Some t ∧ is_Some (n_id notif) ∧ is_Some (isRead notif)) →
  NotificationModel s' = NotificationModel s ∧
  (existsb isError rs = true
   ↔ ∃ name notif, (name, notif) ∈ pairs ∧ findUser name s = None) ∧
  ∀ u, (findUser u s' = None ↔ findUser u s = None) ∧
       hasBlocked u t s' = hasBlocked u t s ∧
       (is_Some (findUser u s) →
        inbox u s'
        = (if hasBlocked u t s then [] else deliveredTo u pairs) ++ inbox u s).
Proof.
  revert s rs s'. induction pairs as [|[name notif] pairs IH]; intros s rs s' Hrun Hall.
  - simpl in Hrun. injection Hrun as <- <-. split; [done|]. split.
    + split; [done|]. by intros (? & ? & ?%elem_of_nil & _).
    + intros u. split; [done|]. split; [done|]. by destruct (hasBlocked u t s).
  - rewrite traverse_cons in Hrun.
    destruct (addNotificationToUser name notif s) as [r s0] eqn:Hstep.
    destruct (traverse _ pairs s0) as [rs' s1] eqn:Hrest.
    injection Hrun as <- <-.
    destruct (Hall name notif (ltac:(by left))) as (Ht & [nid Hid] & [b Hb]).
    destruct (addNotificationToUser_step _ _ _ _ _ _ _ _ Hstep Ht Hb Hid)
      as (Hn0 & Herr0 & Hu0).
    destruct (IH _ _ _ Hrest) as (Hn1 & Herr1 & Hu1).
    { intros name' notif' Hin. apply (Hall name'). by right. }
    assert (Hnone0 : ∀ u, findUser u s0 = None ↔ findUser u s = None).
    { intros u. rewrite Hu0. apply fmap_None. }
    split; [congruence|]. split.
    + simpl. rewrite orb_true_iff, Herr0, Herr1. split.
      * intros [Hnone|(name' & notif' & Hin & Hnone)].
        -- exists name, notif. split; [by left|done].
        -- exists name', notif'. split; [by right|]. by apply Hnone0.
      * intros (name' & notif' & [Heq|Hin]%elem_of_cons & Hnone).
        -- left. congruence.
        -- right. exists name', notif'. split; [done|]. by apply Hnone0.
    + intros u. destruct (Hu1 u) as (Hnone1 & Hb1 & Hi1).
      assert (Hb0 : hasBlocked u t s0 = hasBlocked u t s).
      { eapply hasBlocked_fmap; [|apply Hu0]. intros x. by destruct (decide _). }
      split; [by rewrite Hnone1|]. split; [congruence|].
      intros [user Huser].
      assert (Hi0 : inbox u s0
                = (if decide (u = name ∧ hasBlocked name t s = false)
                   then [nid] else []) ++ inbox u s).
      { unfold inbox. rewrite Hu0, Huser. by destruct (decide _). }
      rewrite Hi1, Hb0, Hi0.
      2:{ rewrite Hu0, Huser. by eexists. }
      cbn [deliveredTo]. rewrite Hid.
      destruct (hasBlocked u t s) eqn:Hbu; simpl.
      * rewrite decide_False; [done|]. intros [-> Hx]. congruence.
      * destruct (decide (name = u)) as [->|Hne].
        -- rewrite decide_True by done. by rewrite <- app_assoc.
        -- rewrite decide_False by (intros [Hx _]; by apply Hne).
           by rewrite app_nil_r.
Qed.

Lemma elem_of_zip_exists {A B} (l : list A) (k : list B) x :
  length k = length l → x ∈ l → ∃ y, (x, y) ∈ zip l k.
Proof.
  revert k. induction l as [|a l IH]; intros [|b k] Hlen Hx; simpl in Hlen; try done.
  - by apply elem_of_nil in Hx.
  - apply elem_of_cons in Hx as [->|Hx].
    + exists b. by left.
    + destruct (IH k (ltac:(lia)) Hx) as [y Hy]. exists y. by right.
Qed.

(** X10: a fan-out that has nothing to deliver is an error and writes
    nothing: no object id, an empty one, a notification without a type, an
    object that does not resolve, or an empty list of recipients. *)
Theorem X10_fanout_rejected oid n s :
  (oid = None ∨ oid = Some "" ∨ notificationType n = None ∨
   ∃ o, oid = Some o ∧
        (usersToNotify o (notificationType n) s = Ok [] ∨
         isError (usersToNotify o (notificationType n) s) = true)) →
  notifyUsers oid n s = (Error "Error when adding notifications to users", s).
Proof.
  intros Hcase. unfold notifyUsers.
  destruct oid as [o|]; [|done].
  destruct (decide (o = "")) as [|Ho]; [done|].
  destruct Hcase as [Hc|[Hc|[Hc|(o' & Hc & Hus)]]]; try done.
  - congruence.
  - by rewrite Hc.
  - injection Hc as <-. destruct Hus as [->|Herr].
    + by rewrite decide_True.
    + by destruct (usersToNotify o (notificationType n) s).
Qed.

Lemma X10_fanout_rejected_witness :
  notifyUsers (Some "q9") Samples.answerNotification Samples.fanoutStore
  = (Error "Error when adding notifications to users", Samples.fanoutStore).
Proof.
  apply (X10_fanout_rejected (Some "q9") Samples.answerNotification Samples.fanoutStore).
  right. right. right. exists "q9". split; [reflexivity|]. right. reflexivity.
Defined.

(** Saving a notification whose id is taken already. *)
Lemma saveAll_taken (n : Notification) i (us : list string) s :
  n_id n = Some i → i ∈ notificationIds s →
  traverse (fun _ => saveNotification n) us s
  = ((fun _ => Error "Error when saving a notification") <$> us, s).
Proof.
  intros Hid Hin. induction us as [|u us IH]; [done|].
  rewrite traverse_cons. unfold saveNotification at 1.
  rewrite Hid, decide_True by done. by rewrite IH.
Qed.

(** X11: a fan-out is not undone when it fails half way.  For a notification
    without an id of its own: when one of the resolved recipients is not a
    stored user the call returns an error, but one notification per resolved
    recipient has been saved, and every stored recipient who has not blocked
    the type has received theirs.  For a notification that brings an unused
    id and two or more recipients: the first save stores it, the next is a
    duplicate key, the call returns an error, and the one notification stays
    saved while no user is touched. *)
Theorem X11_fanout_no_rollback oid n t b s us :
  oid ≠ "" →
  notificationType n = Some t → isRead n = Some b →
  usersToNotify oid (Some t) s = Ok us →
  let run := notifyUsers (Some oid) n s in
  (n_id n = None → (∃ u, u ∈ us ∧ findUser u s = None) →
   isError run.1 = true ∧
   length (NotificationModel run.2) = (length (NotificationModel s) + length us)%nat ∧
   ∀ u, is_Some (findUser u s) → hasBlocked u t s = false →
     length (inbox u run.2)
     = (length (filter (fun x => x = u) us) + length (inbox u s))%nat) ∧
  (∀ i, n_id n = Some i → i ∉ notificationIds s → (2 ≤ length us)%nat →
   isError run.1 = true ∧
   NotificationModel run.2 = NotificationModel s ++ [n] ∧
   UserModel run.2 = UserModel s).
Proof.
  intros Hoid Ht Hb Hus run. subst run. split.
  - intros Hid (ghost & Hghost & Hnone).
    unfold notifyUsers. rewrite Ht, decide_False by done. rewrite Hus.
    rewrite decide_False by (intros ->; by apply elem_of_nil in Hghost).
    destruct (traverse (fun _ => saveNotification n) us s) as [rs s1] eqn:Hsave.
    destruct (saveAll_total _ _ _ _ _ Hid Hsave) as [created Hsaved].
    rewrite Hsaved.
    destruct (saveAll_run _ _ _ _ _ _ Hsave Hsaved) as (-> & -> & Hlen & Hnd & Hall).
    destruct (traverse _ (zip us created) _) as [urs s2] eqn:Hdeliver.
    destruct (deliver_any t _ _ _ _ Hdeliver) as (Hn & Herr & Hu).
    { intros name notif Hin%elem_of_zip_r.
      destruct (Hall notif Hin) as (Hdt & Hdr & i & Hi & _).
      split; [congruence|]. split; [by exists i|]. exists b. congruence. }
    assert (Hfailed : existsb isError urs = true).
    { apply Herr. destruct (elem_of_zip_exists us created ghost Hlen Hghost) as [d Hd].
      by exists ghost, d. }
    rewrite Hfailed. simpl. split; [done|]. split.
    + rewrite Hn. simpl. rewrite length_app. lia.
    + intros u Hknown Hfree. destruct (Hu u) as (_ & _ & Hinbox).
      rewrite (Hinbox Hknown).
      change (hasBlocked u t (set_NotificationModel (NotificationModel s ++ created) s))
        with (hasBlocked u t s).
      rewrite Hfree, length_app. f_equal.
      apply deliveredTo_length; [done|].
      intros d Hd. destruct (Hall d Hd) as (_ & _ & i & Hi & _). by exists i.
  - intros i Hid Hfresh Hlen.
    destruct us as [|u1 [|u2 us]]; simpl in Hlen; [lia|lia|].
    assert (Hrun :
      notifyUsers (Some oid) n s
      = (Error "Error when adding notifications to users",
         set_NotificationModel
           (NotificationModel s
            ++ [mkNotification (Some i) (notificationType n) (isRead n)]) s)).
    { unfold notifyUsers. rewrite Ht, decide_False by done. rewrite Hus.
      rewrite decide_False by done.
      rewrite traverse_cons. unfold saveNotification at 1.
      rewrite Hid, decide_False by done.
      rewrite (saveAll_taken n i); [rewrite fmap_cons; simpl; by rewrite Ht|done|].
      unfold notificationIds. simpl. rewrite omap_app. simpl.
      apply elem_of_app. right. by left. }
    rewrite Hrun. simpl. split; [done|]. split; [|done].
    destruct n as [ni nt nr]. simpl in *. by subst.
Qed.

Lemma X11_fanout_no_rollback_witness :
  let s :=
    set_QuestionModel
      [mkQuestion (Some "q1") "alice" 10 [] [] [] [] ["ghost"; "carol"]]
      Samples.fanoutStore in
  let n := Samples.answerNotification in
  let m := mkNotification (Some 7%nat) (Some NotificationType.Answer) (Some false) in
  (isError (notifyUsers (Some "q1") n s).1 = true ∧
   length (NotificationModel (notifyUsers (Some "q1") n s).2)
   = (length (NotificationModel s) + 3)%nat ∧
   ∀ u, is_Some (findUser u s) → hasBlocked u NotificationType.Answer s = false →
     length (inbox u (notifyUsers (Some "q1") n s).2)
     = (length (filter (fun x => x = u) ["alice"; "ghost"; "carol"])
        + length (inbox u s))%nat) ∧
  (isError (notifyUsers (Some "q1") m s).1 = true ∧
   NotificationModel (notifyUsers (Some "q1") m s).2 = NotificationModel s ++ [m] ∧
   UserModel (notifyUsers (Some "q1") m s).2 = UserModel s).
Proof.
  intros s n m.
  assert (Hoid : "q1" ≠ "") by discriminate.
  assert (Hus : usersToNotify "q1" (Some NotificationType.Answer) s
                = Ok ["alice"; "ghost"; "carol"]) by reflexivity.
  pose proof (X11_fanout_no_rollback "q1" n NotificationType.Answer false s
                ["alice"; "ghost"; "carol"] Hoid eq_refl eq_refl Hus) as Hn.
  pose proof (X11_fanout_no_rollback "q1" m NotificationType.Answer false s
                ["alice"; "ghost"; "carol"] Hoid eq_refl eq_refl Hus) as Hm.
  cbv zeta in Hn, Hm. split.
  - apply (proj1 Hn); [reflexivity|].
    exists "ghost". split; [|reflexivity]. apply elem_of_cons. right. by left.
  - apply (proj2 Hm 7%nat); [reflexivity| |simpl; lia].
    intros Hin. by apply elem_of_nil in Hin.
Defined.

Lemma updateBlockedTypes_run name type s u :
  findUser name s = Some u →
  let u' := setBlocked (toggled type (blockedNotifications u)) u in
  let s1 :=
    set_UserModel
      (update_first (fun x => bool_decide (username x = name))
         (fun x => if includes type (blockedNotifications u)
                   then setBlocked (filter (fun t => t ≠ type) (blockedNotifications x)) x
                   else setBlocked (blockedNotifications x ++ [type]) x)
         (UserModel s)) s in
  updateBlockedTypes name type s = (Ok u', s1) ∧
  ∀ other, findUser other (updateBlockedTypes name type s).2
           = if decide (other = name) then Some u' else findUser other s.
Proof.
  intros Hu u' s1.
  assert (Hfind : ∀ other,
    findUser other s1 = if decide (other = name) then Some u' else findUser other s).
  { intros other. unfold s1.
    rewrite findUser_update by (intros x; by destruct (includes _ _)).
    destruct (decide (other = name)) as [->|Hne].
    - rewrite Hu. simpl. subst u'. unfold toggled.
      by destruct (includes type (blockedNotifications u)).
    - by rewrite option_fmap_id. }
  assert (Hrun : updateBlockedTypes name type s = (Ok u', s1)).
  { unfold updateBlockedTypes. rewrite Hu. cbv zeta. fold s1.
    rewrite (Hfind name), decide_True by done. reflexivity. }
  split; [exact Hrun|]. intros other. rewrite Hrun. apply Hfind.
Qed.

Lemma includes_toggled `{EqDecision A} (x y : A) l :
  includes y (toggled x l) = if decide (y = x) then negb (includes x l) else includes y l.
Proof.
  destruct (decide (y = x)) as [->|Hne].
  - destruct (includes x l) eqn:Hin; simpl.
    + apply includes_false. rewrite toggled_self. intros Hn. apply Hn.
      by apply includes_true.
    + apply includes_true. rewrite toggled_self. by apply includes_false.
  - unfold includes. apply bool_decide_ext. by apply toggled_other.
Qed.

(** X12: blocking a notification type is a toggle on the stored user: the
    type's blocked state flips, the other types keep theirs, the inbox and
    every other user are untouched, and the user returned is the one
    stored. *)
Theorem X12_block_toggle name type s u :
  findUser name s = Some u →
  let run := updateBlockedTypes name type s in
  ∃ u',
    run.1 = Ok u' ∧ findUser name run.2 = Some u' ∧
    hasBlocked name type run.2 = negb (hasBlocked name type s) ∧
    (∀ t, t ≠ type → hasBlocked name t run.2 = hasBlocked name t s) ∧
    inbox name run.2 = inbox name s ∧
    (∀ other, other ≠ name → findUser other run.2 = findUser other s) ∧
    NotificationModel run.2 = NotificationModel s.
Proof.
  intros Hu run. destruct (updateBlockedTypes_run name type s u Hu) as [Hrun Hfind].
  fold run in Hrun, Hfind.
  exists (setBlocked (toggled type (blockedNotifications u)) u).
  assert (Hself := Hfind name). rewrite decide_True in Hself by done.
  split; [by rewrite Hrun|]. split; [done|].
  unfold hasBlocked, inbox. rewrite Hself, Hu. simpl.
  split; [by rewrite includes_toggled, decide_True|].
  split; [intros t Ht; by rewrite includes_toggled, decide_False|].
  split; [done|]. split.
  - intros other Hne. by rewrite Hfind, decide_False.
  - by rewrite Hrun.
Qed.

Lemma X12_block_toggle_witness :
  let run := updateBlockedTypes "bob" NotificationType.Answer Samples.fanoutStore in
  ∃ u',
    run.1 = Ok u' ∧ findUser "bob" run.2 = Some u' ∧
    hasBlocked "bob" NotificationType.Answer run.2
    = negb (hasBlocked "bob" NotificationType.Answer Samples.fanoutStore) ∧
    (∀ t, t ≠ NotificationType.Answer →
       hasBlocked "bob" t run.2 = hasBlocked "bob" t Samples.fanoutStore) ∧
    inbox "bob" run.2 = inbox "bob" Samples.fanoutStore ∧
    (∀ other, other ≠ "bob" → findUser other run.2 = findUser other Samples.fanoutStore) ∧
    NotificationModel run.2 = NotificationModel Samples.fanoutStore.
Proof.
  apply (X12_block_toggle "bob" NotificationType.Answer Samples.fanoutStore
           (Samples.plainUser "bob" [NotificationType.Answer])).
  reflexivity.
Defined.

(** X13: the blocked list governs delivery.  Once a user has blocked a type,
    a notification of that type is accepted and dropped: the call succeeds
    and the store is as before.  After the user unblocks the type a
    delivery puts the notification at the head of the inbox. *)
Theorem X13_block_then_deliver name type s u notif nid b :
  findUser name s = Some u →
  type ∉ blockedNotifications u →
  notificationType notif = Some type → isRead notif = Some b → n_id notif = Some nid →
  let s1 := (updateBlockedTypes name type s).2 in
  let s2 := (updateBlockedTypes name type s1).2 in
  (∃ u1, addNotificationToUser name notif s1 = (Ok u1, s1)) ∧
  isError (addNotificationToUser name notif s2).1 = false ∧
  inbox name (addNotificationToUser name notif s2).2 = nid :: inbox name s.
Proof.
  intros Hu Hfree Ht Hb Hid s1 s2.
  destruct (updateBlockedTypes_run name type s u Hu) as [_ Hfind1].
  assert (Hu1 := Hfind1 name). fold s1 in Hu1. rewrite decide_True in Hu1 by done.
  destruct (updateBlockedTypes_run name type s1 _ Hu1) as [_ Hfind2].
  assert (Hu2 := Hfind2 name). fold s2 in Hu2. rewrite decide_True in Hu2 by done.
  split.
  - unfold addNotificationToUser. rewrite Ht, Hb, Hu1. simpl.
    rewrite includes_toggled, decide_True by done.
    apply includes_false in Hfree. rewrite Hfree. simpl. by eexists.
  - unfold addNotificationToUser. rewrite Ht, Hb, Hu2.
    assert (Hopen :
      includes type
        (blockedNotifications
           (setBlocked
              (toggled type
                 (blockedNotifications
                    (setBlocked (toggled type (blockedNotifications u)) u)))
              (setBlocked (toggled type (blockedNotifications u)) u))) = false).
    { simpl. rewrite !includes_toggled, !decide_True by done.
      apply includes_false in Hfree. by rewrite Hfree. }
    rewrite Hopen, Hid. simpl. split; [done|].
    unfold inbox. rewrite findUser_update by done.
    rewrite decide_True by done. rewrite Hu2, Hu. done.
Qed.

Lemma X13_block_then_deliver_witness :
  let notif := mkNotification (Some 7%nat) (Some NotificationType.Upvote) (Some false) in
  let s1 := (updateBlockedTypes "carol" NotificationType.Upvote Samples.fanoutStore).2 in
  let s2 := (updateBlockedTypes "carol" NotificationType.Upvote s1).2 in
  (∃ u1, addNotificationToUser "carol" notif s1 = (Ok u1, s1)) ∧
  isError (addNotificationToUser "carol" notif s2).1 = false ∧
  inbox "carol" (addNotificationToUser "carol" notif s2).2
  = 7%nat :: inbox "carol" Samples.fanoutStore.
Proof.
  apply (X13_block_then_deliver "carol" NotificationType.Upvote Samples.fanoutStore
           (Samples.plainUser "carol" []) _ 7%nat false).
  - reflexivity.
  - apply not_elem_of_nil.
  - reflexivity.
  - reflexivity.
  - reflexivity.
Defined.

End inbox_more.

(** ** Read marks *)
Section read_more.
Import Inbox.





Lemma markRead_idemp d : markRead (markRead d) = markRead d.
Proof. done. Qed.










(** X15: a user name that is not stored.  Toggling a blocked type, marking
    the inbox as read, a delivery and a challenge increment all report an
    error and write nothing, and the populated lookup returns null. *)
Theorem X15_unknown_user sourceTypeOf name type notif challengeType now s :
  Notify.findUser name s = None →
  updateBlockedTypes name type s = (Error "User not found", s) ∧
  findUser sourceTypeOf name s = None ∧
  updateUserNotifsAsRead sourceTypeOf name s = (Error "Error while finding the user", s) ∧
  Notify.addNotificationToUser name notif s
  = (Error "Error when adding notification to user", s) ∧
  Challenges.fetchAndIncrementChallengesByUserAndType name challengeType now s
  = (Error "User not found", s).
Proof.
  intros Hu.
  assert (Hpop : findUser sourceTypeOf name s = None).
  { unfold findUser. by rewrite Hu. }
  split; [unfold updateBlockedTypes; by rewrite Hu|].
  split; [done|].
  split; [unfold updateUserNotifsAsRead; by rewrite Hpop|].
  split.
  - unfold Notify.addNotificationToUser. rewrite Hu.
    by destruct (notificationType notif), (isRead notif).
  - unfold Challenges.fetchAndIncrementChallengesByUserAndType. by rewrite Hu.
Qed.

Lemma X15_unknown_user_witness :
  updateBlockedTypes "zed" NotificationType.Answer Samples.fanoutStore
  = (Error "User not found", Samples.fanoutStore) ∧
  findUser (fun _ => None) "zed" Samples.fanoutStore = None ∧
  updateUserNotifsAsRead (fun _ => None) "zed" Samples.fanoutStore
  = (Error "Error while finding the user", Samples.fanoutStore) ∧
  Notify.addNotificationToUser "zed" Samples.answerNotification Samples.fanoutStore
  = (Error "Error when adding notification to user", Samples.fanoutStore) ∧
  Challenges.fetchAndIncrementChallengesByUserAndType "zed" "upvote" 5 Samples.fanoutStore
  = (Error "User not found", Samples.fanoutStore).
Proof.
  apply (X15_unknown_user (fun _ => None) "zed" NotificationType.Answer
           Samples.answerNotification "upvote" 5 Samples.fanoutStore).
  reflexivity.
Defined.

End read_more.

(** ** Votes in polls and the sweep *)
Section poll_more.
Import Polls.

(** A vote that was accepted. *)
Lemma vote_accepted pollId optionId name now s p :
  findPoll pollId s = Some p →
  isError (addVoteToPollOption pollId optionId name now s).1 = false →
  let s1 :=
    set_PollOptionModel
      (update_first (fun o => bool_decide (o_id o = optionId)) (castVote name)
         (PollOptionModel s)) s in
  addVoteToPollOption pollId optionId name now s = (Ok (populatePoll s1 p), s1) ∧
  hasVoted name (populatePoll s p) = false ∧
  ∃ o, findOption optionId s = Some o ∧ findOption optionId s1 = Some (castVote name o).
Proof.
  intros Hp Hok s1. unfold addVoteToPollOption, findByIdPopulated in *.
  destruct (decide _); [done|]. rewrite Hp in *. simpl in *.
  destruct (bool_decide (pollDueDate p ≤ now)); [done|].
  destruct (hasVoted name (populatePoll s p)); [done|].
  destruct (findOption optionId s) as [o|] eqn:Ho; [|done].
  rewrite findPoll_after_vote, Hp. simpl. split; [done|]. split; [done|].
  exists o. split; [done|]. unfold findOption in *. simpl.
  by rewrite find_update_first, Ho.
Qed.

Lemma populated_option s p ref o :
  ref ∈ optionRefs p →
  List.find (fun x => bool_decide (o_id x = ref)) (PollOptionModel s) = Some o →
  o ∈ options (populatePoll s p).
Proof.
  intros Href Ho. unfold populatePoll. simpl.
  apply list_elem_of_omap. by exists ref.
Qed.

Lemma options_after_foreign_vote optionId name s (refs : list string) :
  optionId ∉ refs →
  omap (fun ref =>
          List.find (fun o => bool_decide (o_id o = ref))
            (update_first (fun o => bool_decide (o_id o = optionId)) (castVote name)
               (PollOptionModel s))) refs
  = omap (fun ref => List.find (fun o => bool_decide (o_id o = ref)) (PollOptionModel s))
      refs.
Proof.
  intros Hout. apply list_omap_ext, Forall_Forall2_diag, Forall_forall.
  intros ref Href. apply find_update_first_other; [done|].
  intros o Ho%bool_decide_eq_true. apply bool_decide_eq_false.
  intros Heq. apply Hout. congruence.
Qed.

(** X16: one vote per poll.  After a vote on one of the poll's own options
    has been accepted, every further vote of the same user in that poll is
    refused, whatever the option and the time, and changes nothing. *)
Theorem X16_one_vote_per_poll pollId optionId name now s p :
  findPoll pollId s = Some p →
  optionId ∈ optionRefs p →
  isError (addVoteToPollOption pollId optionId name now s).1 = false →
  let s1 := (addVoteToPollOption pollId optionId name now s).2 in
  hasVoted name (populatePoll s p) = false ∧
  hasVoted name (populatePoll s1 p) = true ∧
  ∀ optionId' now',
    isError (addVoteToPollOption pollId optionId' name now' s1).1 = true ∧
    (addVoteToPollOption pollId optionId' name now' s1).2 = s1.
Proof.
  intros Hp Href Hok s1.
  destruct (vote_accepted _ _ _ _ _ _ Hp Hok) as (Hrun & Hfresh & o & Ho & Ho1).
  subst s1. rewrite Hrun. simpl.
  set (s1 := set_PollOptionModel _ s) in *.
  assert (Hvoted : hasVoted name (populatePoll s1 p) = true).
  { apply hasVoted_true. exists (castVote name o). split.
    - by apply (populated_option s1 p optionId).
    - apply addToSet_elem. }
  split; [done|]. split; [done|].
  intros optionId' now'. unfold addVoteToPollOption, findByIdPopulated.
  destruct (decide _); [done|].
  change (findPoll pollId s1) with (findPoll pollId s). rewrite Hp. simpl.
  destruct (bool_decide (pollDueDate p ≤ now')); [done|].
  by rewrite Hvoted.
Qed.

Lemma X16_one_vote_per_poll_witness :
  let s1 := (addVoteToPollOption "p3" "o9" "erin" 200 (set_PollModel
       [mkPollDoc "p3" ["o9"] "bob" 500 (Some false)]
       (set_PollOptionModel [mkPollOption "o9" []] Samples.emptyStore))).2 in
  let p := mkPollDoc "p3" ["o9"] "bob" 500 (Some false) in
  hasVoted "erin" (populatePoll (set_PollModel
       [mkPollDoc "p3" ["o9"] "bob" 500 (Some false)]
       (set_PollOptionModel [mkPollOption "o9" []] Samples.emptyStore)) p) = false ∧
  hasVoted "erin" (populatePoll s1 p) = true ∧
  ∀ optionId' now',
    isError (addVoteToPollOption "p3" optionId' "erin" now' s1).1 = true ∧
    (addVoteToPollOption "p3" optionId' "erin" now' s1).2 = s1.
Proof.
  apply (X16_one_vote_per_poll "p3" "o9" "erin" 200
           (set_PollModel
              [mkPollDoc "p3" ["o9"] "bob" 500 (Some false)]
              (set_PollOptionModel [mkPollOption "o9" []] Samples.emptyStore))
           (mkPollDoc "p3" ["o9"] "bob" 500 (Some false))).
  - reflexivity.
  - left.
  - reflexivity.
Defined.

(** X17: the option is not checked against the poll.  A vote that names an
    existing option outside the poll's own options is accepted and recorded
    on that option, the poll comes back with its options as they were, and
    the user still counts as not having voted in the poll. *)
Theorem X17_foreign_option pollId optionId name now s p :
  findPoll pollId s = Some p →
  optionId ∉ optionRefs p →
  isError (addVoteToPollOption pollId optionId name now s).1 = false →
  let run := addVoteToPollOption pollId optionId name now s in
  run.1 = Ok (populatePoll s p) ∧
  hasVoted name (populatePoll run.2 p) = false ∧
  (∃ o, findOption optionId run.2 = Some o ∧ name ∈ usersVoted o) ∧
  PollModel run.2 = PollModel s.
Proof.
  intros Hp Hout Hok run.
  destruct (vote_accepted _ _ _ _ _ _ Hp Hok) as (Hrun & Hfresh & o & Ho & Ho1).
  subst run. rewrite Hrun. simpl.
  set (s1 := set_PollOptionModel _ s) in *.
  assert (Hsame : populatePoll s1 p = populatePoll s p).
  { unfold populatePoll. f_equal. by apply options_after_foreign_vote. }
  rewrite Hsame. split; [done|]. split; [done|]. split; [|done].
  exists (castVote name o). split; [done|]. apply addToSet_elem.
Qed.

Lemma X17_foreign_option_witness :
  let run := addVoteToPollOption "p3" "o3" "erin" 200 Samples.pollStore in
  let p := mkPollDoc "p3" [] "bob" 500 (Some false) in
  run.1 = Ok (populatePoll Samples.pollStore p) ∧
  hasVoted "erin" (populatePoll run.2 p) = false ∧
  (∃ o, findOption "o3" run.2 = Some o ∧ ("erin" : string) ∈ usersVoted o) ∧
  PollModel run.2 = PollModel Samples.pollStore.
Proof.
  apply (X17_foreign_option "p3" "o3" "erin" 200 Samples.pollStore
           (mkPollDoc "p3" [] "bob" 500 (Some false))).
  - reflexivity.
  - apply not_elem_of_nil.
  - reflexivity.
Defined.

(** X18: who hears that a poll has closed.  After an accepted vote on one of
    the poll's own options the recipients of a PollClosed notification are
    resolved, the creator comes first, and the voter is among them. *)
Theorem X18_voter_hears_of_closing pollId optionId name now s p :
  findPoll pollId s = Some p →
  optionId ∈ optionRefs p →
  isError (addVoteToPollOption pollId optionId name now s).1 = false →
  let s1 := (addVoteToPollOption pollId optionId name now s).2 in
  ∃ voters,
    Notify.usersToNotify pollId (Some NotificationType.PollClosed) s1
    = Ok (createdBy p :: voters) ∧
    name ∈ voters ∧
    ∀ u, u ∈ voters ↔ ∃ o, o ∈ options (populatePoll s1 p) ∧ u ∈ usersVoted o.
Proof.
  intros Hp Href Hok s1.
  destruct (vote_accepted _ _ _ _ _ _ Hp Hok) as (Hrun & Hfresh & o & Ho & Ho1).
  subst s1. rewrite Hrun. simpl.
  set (s1 := set_PollOptionModel _ s) in *.
  unfold Notify.usersToNotify, Notify.usersToNotifyPollClosed.
  change (List.find _ (PollModel s1)) with (findPoll pollId s). rewrite Hp.
  eexists. split; [done|].
  assert (Hmem : ∀ u, u ∈ concat (usersVoted <$> options (populatePoll s1 p))
                      ↔ ∃ o, o ∈ options (populatePoll s1 p) ∧ u ∈ usersVoted o).
  { intros u. rewrite list_elem_of_In, in_concat. split.
    - intros (l & (o' & -> & Ho')%list_elem_of_In%list_elem_of_fmap & Hu%list_elem_of_In).
      eauto.
    - intros (o' & Ho' & Hu). exists (usersVoted o'). split.
      + apply list_elem_of_In. by apply list_elem_of_fmap_2.
      + by apply list_elem_of_In. }
  split; [|exact Hmem].
  apply Hmem. exists (castVote name o). split.
  - by apply (populated_option s1 p optionId).
  - apply addToSet_elem.
Qed.

Lemma X18_voter_hears_of_closing_witness :
  let s :=
    set_PollModel
      [mkPollDoc "p3" ["o9"] "bob" 500 (Some false)]
      (set_PollOptionModel [mkPollOption "o9" ["dave"]] Samples.emptyStore) in
  let p := mkPollDoc "p3" ["o9"] "bob" 500 (Some false) in
  let s1 := (addVoteToPollOption "p3" "o9" "erin" 200 s).2 in
  ∃ voters,
    Notify.usersToNotify "p3" (Some NotificationType.PollClosed) s1
    = Ok ("bob" :: voters) ∧
    ("erin" : string) ∈ voters ∧
    ∀ u, u ∈ voters ↔ ∃ o, o ∈ options (populatePoll s1 p) ∧ u ∈ usersVoted o.
Proof.
  apply (X18_voter_hears_of_closing "p3" "o9" "erin" 200
           (set_PollModel
              [mkPollDoc "p3" ["o9"] "bob" 500 (Some false)]
              (set_PollOptionModel [mkPollOption "o9" ["dave"]] Samples.emptyStore))
           (mkPollDoc "p3" ["o9"] "bob" 500 (Some false))).
  - reflexivity.
  - left.
  - reflexivity.
Defined.



End poll_more.

(** ** Challenge increments: errors, bootstrap and frame *)
Section challenge_more.
Import Challenges.

Local Abbreviation sameRecord :=
  (fun d' d : UserChallengeDoc =>
     d_id d' = d_id d ∧ d_username d' = d_username d ∧ d_challenge d' = d_challenge d).

Lemma allOk_Ok {A} (l : list A) : allOk (Ok <$> l) = Ok l.
Proof.
  rewrite <- (list_fmap_id l) at 2. apply (allOk_all id).
Qed.

Lemma find_key_some {A K} `{EqDecision K} (key : A → K) k l :
  k ∈ key <$> l → is_Some (List.find (fun x => bool_decide (key x = k)) l).
Proof.
  induction l as [|x l IH]; simpl; [by intros ?%elem_of_nil|].
  intros Hk. case_bool_decide as Hx; [by eexists|].
  apply IH. apply elem_of_cons in Hk as [Hk|Hk]; [congruence|done].
Qed.

Lemma saveAllProgress_ok ucs s rs s' :
  traverse saveProgress ucs s = (rs, s') →
  (∀ uc, uc ∈ ucs → is_Some (findUserChallenge (uc_id uc) s)) →
  ∃ res, rs = Ok <$> res.
Proof.
  revert s rs s'. induction ucs as [|uc ucs IH]; intros s rs s' Hrun Hall.
  - simpl in Hrun. injection Hrun as <- <-. by exists [].
  - rewrite traverse_cons in Hrun.
    destruct (saveProgress uc s) as [r s0] eqn:Hstep.
    destruct (traverse saveProgress ucs s0) as [rs' s1] eqn:Hrest.
    injection Hrun as <- <-.
    destruct (saveProgress_run _ _ _ _ Hstep) as (Hf & _ & _ & Hr).
    destruct (IH _ _ _ Hrest) as [res ->].
    { intros uc' Huc'. rewrite Hf. apply fmap_is_Some. apply Hall. by right. }
    destruct (Hall uc (ltac:(by left))) as [d Hd]. rewrite Hd in Hr.
    eexists (_ :: res). rewrite fmap_cons. by rewrite Hr.
Qed.

Lemma update_first_shape (p : UserChallengeDoc → bool) f l :
  (∀ x, sameRecord (f x) x) → Forall2 sameRecord (update_first p f l) l.
Proof.
  intros Hf. induction l as [|x l IH]; simpl; [constructor|].
  destruct (p x).
  - constructor; [apply Hf|]. apply Forall_Forall2_diag, Forall_forall. done.
  - constructor; [done|exact IH].
Qed.

Lemma saveAllProgress_shape ucs s rs s' :
  traverse saveProgress ucs s = (rs, s') →
  Forall2 sameRecord (UserChallengeModel s') (UserChallengeModel s).
Proof.
  revert s rs s'. induction ucs as [|uc ucs IH]; intros s rs s' Hrun.
  - simpl in Hrun. injection Hrun as <- <-.
    apply Forall_Forall2_diag, Forall_forall. done.
  - rewrite traverse_cons in Hrun.
    destruct (saveProgress uc s) as [r s0] eqn:Hstep.
    destruct (traverse saveProgress ucs s0) as [rs' s1] eqn:Hrest.
    injection Hrun as <- <-.
    apply (Forall2_trans sameRecord sameRecord sameRecord _ (UserChallengeModel s0) _);
      [|apply (IH _ _ _ Hrest)|].
    + intros x y z (? & ? & ?) (? & ? & ?). repeat split; congruence.
    + unfold saveProgress in Hstep.
      destruct (findUserChallenge _ _); injection Hstep as <- <-; simpl;
        by apply update_first_shape.
Qed.

Lemma shape_ids (l' l : list UserChallengeDoc) :
  Forall2 sameRecord l' l →
  d_id <$> l' = d_id <$> l ∧ d_challenge <$> l' = d_challenge <$> l ∧
  ∀ name,
    d_challenge <$> filter (fun d => d_username d = name) l'
    = d_challenge <$> filter (fun d => d_username d = name) l.
Proof.
  induction 1 as [|x y l' l (Hi & Hu & Hc) _ (IH1 & IH2 & IH3)]; [done|].
  rewrite !fmap_cons, Hi, Hc, IH1, IH2. split; [done|]. split; [done|].
  intros name. destruct (decide (d_username y = name)) as [Hy|Hy].
  - rewrite !filter_cons_True by congruence. rewrite !fmap_cons. by rewrite Hc, IH3.
  - rewrite !filter_cons_False by congruence. apply IH3.
Qed.

Lemma shape_elem (l' l : list UserChallengeDoc) d :
  Forall2 sameRecord l' l → d ∈ l → ∃ d', d' ∈ l' ∧ sameRecord d' d.
Proof.
  induction 1 as [|x y l' l Hxy _ IH]; [by intros ?%elem_of_nil|].
  intros [->|Hd]%elem_of_cons.
  - exists x. split; [by left|done].
  - destruct (IH Hd) as (d' & Hd' & Hs). exists d'. split; [by right|done].
Qed.

Lemma distribute_findUser ucs s u :
  Notify.findUser u (distributeRewardsIfChallengeComplete ucs s) = None
  ↔ Notify.findUser u s = None.
Proof.
  unfold distributeRewardsIfChallengeComplete. revert s.
  induction ucs as [|uc ucs IH]; intros s; simpl; [done|].
  rewrite IH. destruct (complete uc); [|done].
  rewrite findUser_update by done. apply fmap_None.
Qed.

Lemma distribute_other_user name ucs s u :
  (∀ uc, uc ∈ ucs → uc_username uc = name) → u ≠ name →
  Notify.findUser u (distributeRewardsIfChallengeComplete ucs s) = Notify.findUser u s.
Proof.
  unfold distributeRewardsIfChallengeComplete. revert s.
  induction ucs as [|uc ucs IH]; intros s Hall Hne; simpl; [done|].
  rewrite IH; [|intros uc' Huc'; apply Hall; by right|done].
  destruct (complete uc); [|done].
  rewrite findUser_update by done.
  rewrite decide_False; [by rewrite option_fmap_id|].
  rewrite (Hall uc) by (by left). done.
Qed.

(** The run of an increment whose user exists and whose challenges to start
    could be computed. *)
Lemma increment_unfold name type now s u ts :
  Notify.findUser name s = Some u →
  challengesToStart
    (populate s <$> filter (fun d => d_username d = name) (UserChallengeModel s))
    (filter (fun c => challengeType c = type) (ChallengeModel s)) = Some ts →
  ∃ (starts : list (nat * Challenge)) res s',
    let sel :=
      omap (selected type)
        (populate s <$> filter (fun d => d_username d = name) (UserChallengeModel s)) in
    let toUpdate :=
      userChallengesToUpdate now (removeExpired now <$> sel)
        ((fun p => mkUserChallenge p.1 name p.2 []) <$> starts) in
    let s1 :=
      set_UserChallengeModel
        (UserChallengeModel s
         ++ ((fun p => mkUserChallengeDoc p.1 name (c_id p.2) []) <$> starts)) s in
    snd <$> starts = ts ∧
    traverse saveProgress toUpdate (distributeRewardsIfChallengeComplete toUpdate s1)
    = (Ok <$> res, s') ∧
    fetchAndIncrementChallengesByUserAndType name type now s = (Ok res, s').
Proof.
  intros Hu Hts. unfold fetchAndIncrementChallengesByUserAndType.
  rewrite Hu. unfold fetchUserChallengesByUsername. rewrite Hts.
  destruct (traverse (saveUserChallenge name) ts s) as [created s1] eqn:Hsave.
  destruct (saveNew_run _ _ _ _ _ Hsave) as (starts & <- & -> & -> & Hnd & Hfresh).
  rewrite allOk_all.
  destruct (traverse saveProgress _ _) as [rs s3] eqn:Hprog.
  destruct (saveAllProgress_ok _ _ _ _ Hprog) as [res ->].
  { intros uc Huc. unfold findUserChallenge.
    rewrite (proj1 (distribute_frame _ _)). simpl.
    apply (find_key_some d_id).
    apply (list_elem_of_fmap_2 uc_id) in Huc. rewrite toUpdate_ids in Huc.
    rewrite fmap_app, <- list_fmap_compose.
    apply elem_of_app in Huc as [Huc|Huc]; apply elem_of_app; [left|by right].
    apply list_elem_of_fmap in Huc as (uc' & -> & Huc').
    apply selected_elem in Huc' as (d & c & Hd & _ & _ & _ & _ & ->).
    simpl. by apply list_elem_of_fmap_2. }
  exists starts, res, s3. cbv zeta. rewrite allOk_Ok. done.
Qed.

Lemma increment_error_unchanged name type now s :
  let run := fetchAndIncrementChallengesByUserAndType name type now s in
  (isError run.1 = true
   ↔ Notify.findUser name s = None ∨
     challengesToStart
       (populate s <$> filter (fun d => d_username d = name) (UserChallengeModel s))
       (filter (fun c => challengeType c = type) (ChallengeModel s)) = None) ∧
  (isError run.1 = true → run.2 = s).
Proof.
  intros run. subst run.
  destruct (Notify.findUser name s) as [u|] eqn:Hu.
  - destruct (challengesToStart _ _) as [ts|] eqn:Hts.
    + destruct (increment_unfold name type now s u ts Hu Hts)
        as (starts & res & s' & _ & _ & ->).
      simpl. split; [|done]. split; [done|]. by intros [|].
    + unfold fetchAndIncrementChallengesByUserAndType.
      rewrite Hu. unfold fetchUserChallengesByUsername. rewrite Hts. simpl.
      split; [|done]. split; [|done]. intros _. by right.
  - unfold fetchAndIncrementChallengesByUserAndType. rewrite Hu. simpl.
    split; [|done]. split; [|done]. intros _. by left.
Qed.


Lemma someHasChallenge_ext (l1 l2 : list (UserChallengeDoc * option Challenge)) c :
  snd <$> l1 = snd <$> l2 → someHasChallenge l1 c = someHasChallenge l2 c.
Proof.
  revert l2. induction l1 as [|[d1 o1] l1 IH]; intros [|[d2 o2] l2] Heq;
    try done.
  rewrite !fmap_cons in Heq. injection Heq as Ho Hrest. simpl in Ho. subst o2.
  simpl. destruct o1 as [ch|]; [|done]. destruct (decide _); [done|]. by apply IH.
Qed.

Lemma someHasChallenge_app l1 l2 c :
  someHasChallenge (l1 ++ l2) c
  = match someHasChallenge l1 c with
    | Some false => someHasChallenge l2 c
    | r => r
    end.
Proof.
  induction l1 as [|[d [ch|]] l1 IH]; simpl; try done.
  by destruct (decide _).
Qed.

Lemma someHasChallenge_found l c :
  (∀ x, x ∈ l → is_Some x.2) →
  (∃ d ch, (d, Some ch) ∈ l ∧ c_id ch = c_id c) →
  someHasChallenge l c = Some true.
Proof.
  induction l as [|[d [ch|]] l IH]; intros Hall (d' & ch' & Hin & Heq).
  - by apply elem_of_nil in Hin.
  - simpl. destruct (decide (c_id ch = c_id c)) as [|Hne]; [done|].
    apply IH; [intros x Hx; apply Hall; by right|].
    apply elem_of_cons in Hin as [Hin|Hin]; [congruence|]. by exists d', ch'.
  - destruct (Hall (d, None) (ltac:(by left))) as [? Hx]. done.
Qed.

Lemma challengesToStart_none l cs :
  (∀ c, c ∈ cs → someHasChallenge l c = Some true) → challengesToStart l cs = Some [].
Proof.
  induction cs as [|c cs IH]; intros Hall; [done|].
  simpl. rewrite (Hall c) by (by left).
  rewrite IH; [done|]. intros c' Hc'. apply Hall. by right.
Qed.

(** X21: the challenges of a type are started once.  After an increment
    that succeeded the user has a record for every challenge of the type;
    any further increment of that type for the user succeeds and creates no
    record. *)
Theorem X21_challenges_started_once name type now s res s' :
  fetchAndIncrementChallengesByUserAndType name type now s = (Ok res, s') →
  (∀ c, c ∈ ChallengeModel s → challengeType c = type →
     ∃ d, d ∈ UserChallengeModel s' ∧ d_username d = name ∧ d_challenge d = c_id c) ∧
  ∀ now', ∃ res' s'',
    fetchAndIncrementChallengesByUserAndType name type now' s' = (Ok res', s'') ∧
    d_id <$> UserChallengeModel s'' = d_id <$> UserChallengeModel s' ∧
    d_challenge <$> UserChallengeModel s'' = d_challenge <$> UserChallengeModel s'.
Proof.
  intros Hrun.
  set (docs := filter (fun d => d_username d = name) (UserChallengeModel s)).
  set (cs := filter (fun c => challengeType c = type) (ChallengeModel s)).
  pose proof (increment_error_unchanged name type now s) as Hiff.
  cbv zeta in Hiff. rewrite Hrun in Hiff. simpl in Hiff. destruct Hiff as [Hiff _].
  fold docs cs in Hiff.
  destruct (Notify.findUser name s) as [u|] eqn:Hu;
    [|discriminate (proj2 Hiff (or_introl eq_refl))].
  destruct (challengesToStart (populate s <$> docs) cs) as [ts|] eqn:Hts;
    [|discriminate (proj2 Hiff (or_intror eq_refl))].
  clear Hiff.
  destruct (increment_unfold name type now s u ts Hu Hts)
    as (starts & res0 & s0 & Hstarts & Hprog & Hrun0).
  rewrite Hrun in Hrun0. injection Hrun0 as <- <-.
  set (new := (fun p : nat * Challenge => mkUserChallengeDoc p.1 name (c_id p.2) [])
                <$> starts) in *.
  set (s1 := set_UserChallengeModel (UserChallengeModel s ++ new) s) in *.
  pose proof (saveAllProgress_shape _ _ _ _ Hprog) as Hshape.
  rewrite (proj1 (distribute_frame _ _)) in Hshape. simpl in Hshape.
  destruct (saveAllProgress_frame _ _ _ _ Hprog) as [Husers Hcm].
  rewrite (proj2 (distribute_frame _ _)) in Hcm. simpl in Hcm.
  assert (Hcover := challengesToStart_cover _ _ _ Hts).
  assert (Hnew : ∀ c, c ∈ ts → ∃ p, p ∈ starts ∧ p.2 = c).
  { intros c Hc. rewrite <- Hstarts in Hc.
    apply list_elem_of_fmap in Hc as (p & -> & Hp). by exists p. }
  assert (Hstored : ∀ p, p ∈ starts → p.2 ∈ ChallengeModel s).
  { intros p Hp.
    assert (Hp2 : p.2 ∈ ts) by (rewrite <- Hstarts; by apply list_elem_of_fmap_2).
    apply (challengesToStart_subset _ _ _ Hts) in Hp2.
    by apply list_elem_of_filter in Hp2 as [_ ?]. }
  split.
  - intros c Hc Htype.
    assert (Hcs : c ∈ cs) by (by apply list_elem_of_filter).
    assert (Hold : ∃ d, d ∈ UserChallengeModel s ++ new ∧
                        d_username d = name ∧ d_challenge d = c_id c).
    { destruct (Hcover c Hcs) as [Hsome|[_ Hin]].
      - apply someHasChallenge_true in Hsome as (d & ch & Hin & Heq).
        apply list_elem_of_fmap in Hin as (d0 & Hpop & Hd0).
        unfold populate in Hpop. injection Hpop as <- Hfound.
        apply list_elem_of_filter in Hd0 as [Hname Hd0].
        exists d. split; [apply elem_of_app; by left|]. split; [done|].
        symmetry in Hfound. apply findChallenge_key in Hfound. congruence.
      - destruct (Hnew c Hin) as (p & Hp & <-).
        exists (mkUserChallengeDoc p.1 name (c_id p.2) []).
        split; [|done]. apply elem_of_app. right.
        unfold new. apply list_elem_of_fmap. by exists p. }
    destruct Hold as (d & Hd & Hname & Hch).
    destruct (shape_elem _ _ d Hshape Hd) as (d' & Hd' & _ & Hu' & Hc').
    exists d'. split; [done|]. split; congruence.
  - intros now'.
    assert (Hu' : is_Some (Notify.findUser name s')).
    { apply not_eq_None_Some. intros Hnone.
      unfold Notify.findUser in Hnone. rewrite Husers in Hnone.
      apply (distribute_findUser _ s1 name) in Hnone.
      unfold Notify.findUser in Hnone, Hu. simpl in Hnone. congruence. }
    destruct Hu' as [u' Hu'].
    assert (Hfind : ∀ r, findChallenge r s' = findChallenge r s).
    { intros r. unfold findChallenge. by rewrite Hcm. }
    pose (newPairs := (fun p : nat * Challenge =>
                         (mkUserChallengeDoc p.1 name (c_id p.2) [],
                          findChallenge (c_id p.2) s)) <$> starts).
    assert (Hsnd :
      snd <$> (populate s' <$> filter (fun d => d_username d = name)
                                 (UserChallengeModel s'))
      = snd <$> ((populate s <$> docs) ++ newPairs)).
    { rewrite fmap_app, <- !list_fmap_compose.
      destruct (shape_ids _ _ Hshape) as (_ & _ & Hrefs).
      transitivity ((fun r => findChallenge r s)
                      <$> (d_challenge <$> filter (fun d => d_username d = name)
                                             (UserChallengeModel s'))).
      { rewrite <- list_fmap_compose. apply list_fmap_ext. intros i d _. simpl.
        apply Hfind. }
      rewrite Hrefs, filter_app, fmap_app, fmap_app. f_equal.
      - rewrite <- list_fmap_compose. done.
      - assert (Hall : filter (fun d => d_username d = name) new = new).
        { unfold new. clear. induction starts as [|p l IH]; [done|].
          rewrite fmap_cons, filter_cons_True by done. by rewrite IH. }
        rewrite Hall. unfold new, newPairs. rewrite <- !list_fmap_compose. done. }
    assert (Hnone :
      challengesToStart
        (populate s' <$> filter (fun d => d_username d = name) (UserChallengeModel s'))
        (filter (fun c => challengeType c = type) (ChallengeModel s')) = Some []).
    { rewrite Hcm. fold cs. apply challengesToStart_none. intros c Hc.
      rewrite (someHasChallenge_ext _ _ c Hsnd), someHasChallenge_app.
      destruct (Hcover c Hc) as [->|[-> Hin]]; [done|].
      destruct (Hnew c Hin) as (p & Hp & <-).
      destruct (find_key_some c_id (c_id p.2) (ChallengeModel s)
                  (list_elem_of_fmap_2 _ _ _ (Hstored p Hp))) as [ch Hch].
      apply someHasChallenge_found.
      - intros x (p' & -> & Hp')%list_elem_of_fmap. simpl.
        apply (find_key_some c_id). apply list_elem_of_fmap_2. by apply Hstored.
      - exists (mkUserChallengeDoc p.1 name (c_id p.2) []), ch. split.
        + unfold newPairs. apply list_elem_of_fmap. exists p. split; [|done].
          unfold findChallenge. by rewrite Hch.
        + by apply (findChallenge_key _ s) in Hch. }
    destruct (increment_unfold name type now' s' u' [] Hu' Hnone)
      as (starts' & res' & s'' & Hnil & Hprog' & Hrun').
    exists res', s''. split; [done|].
    apply fmap_nil_inv in Hnil. subst starts'.
    pose proof (saveAllProgress_shape _ _ _ _ Hprog') as Hshape'.
    rewrite (proj1 (distribute_frame _ _)) in Hshape'. simpl in Hshape'.
    rewrite app_nil_r in Hshape'.
    destruct (shape_ids _ _ Hshape') as (Hids & Hrefs & _). done.
Qed.

Lemma X21_challenges_started_once_witness :
  let run :=
    fetchAndIncrementChallengesByUserAndType "alice" "upvote" 6000000
      Samples.challengeStore in
  (∀ c, c ∈ ChallengeModel Samples.challengeStore → challengeType c = "upvote" →
     ∃ d, d ∈ UserChallengeModel run.2 ∧ d_username d = "alice" ∧
          d_challenge d = c_id c) ∧
  ∀ now', ∃ res' s'',
    fetchAndIncrementChallengesByUserAndType "alice" "upvote" now' run.2
    = (Ok res', s'') ∧
    d_id <$> UserChallengeModel s'' = d_id <$> UserChallengeModel run.2 ∧
    d_challenge <$> UserChallengeModel s'' = d_challenge <$> UserChallengeModel run.2.
Proof.
  apply (X21_challenges_started_once "alice" "upvote" 6000000 Samples.challengeStore
           (match (fetchAndIncrementChallengesByUserAndType "alice" "upvote" 6000000
                     Samples.challengeStore).1 with
            | Ok l => l
            | Error _ => []
            end)).
  by vm_compute.
Defined.

(** X22: what an increment leaves alone.  With record ids that are keys, a
    successful increment for a user and a type keeps every record stored
    before that belongs to another user or was not selected (its challenge
    has another type or does not resolve, or its progress has reached the
    target) exactly as it was; it changes no other user and no challenge. *)
Theorem X22_increment_frame name type now s res s' :
  NoDup (d_id <$> UserChallengeModel s) →
  fetchAndIncrementChallengesByUserAndType name type now s = (Ok res, s') →
  (∀ d, d ∈ UserChallengeModel s →
     d_username d ≠ name ∨ selected type (populate s d) = None →
     findUserChallenge (d_id d) s' = Some d) ∧
  (∀ u, u ≠ name → Notify.findUser u s' = Notify.findUser u s) ∧
  ChallengeModel s' = ChallengeModel s.
Proof.
  intros Hnd Hrun.
  destruct (increment_run _ _ _ _ _ _ Hrun)
    as (_ & starts & rs & _ & Hnds & Hfresh & Hprog & _).
  cbv zeta in Hprog.
  set (sel := omap (selected type)
                (populate s <$> filter (fun d => d_username d = name)
                                  (UserChallengeModel s))) in *.
  set (new := (fun p : nat * Challenge => mkUserChallengeDoc p.1 name (c_id p.2) [])
                <$> starts) in *.
  set (s1 := set_UserChallengeModel (UserChallengeModel s ++ new) s) in *.
  set (toUpdate := userChallengesToUpdate now (removeExpired now <$> sel)
                     ((fun p => mkUserChallenge p.1 name p.2 []) <$> starts)) in *.
  destruct (saveAllProgress_frame _ _ _ _ Hprog) as [Husers Hcm].
  rewrite (proj2 (distribute_frame _ _)) in Hcm. simpl in Hcm.
  assert (Hnames : ∀ uc, uc ∈ toUpdate → uc_username uc = name).
  { intros uc Huc. unfold toUpdate, userChallengesToUpdate in Huc.
    apply list_elem_of_fmap in Huc as (uc0 & -> & Huc0). simpl.
    apply elem_of_app in Huc0 as [Huc0|Huc0].
    - apply list_elem_of_fmap in Huc0 as (uc1 & -> & Huc1).
      rewrite (proj1 (proj2 (removeExpired_shape now uc1))).
      apply selected_elem in Huc1 as (d & c & _ & Hname & _ & _ & _ & ->). done.
    - by apply list_elem_of_fmap in Huc0 as (p & -> & _). }
  split; [|split; [|done]].
  - intros d Hd Hout.
    rewrite (saveAllProgress_other _ _ _ _ _ Hprog).
    + unfold findUserChallenge. rewrite (proj1 (distribute_frame _ _)). simpl.
      apply (find_key_unique d_id).
      * by apply docs_NoDup.
      * apply elem_of_app. by left.
    + unfold toUpdate. rewrite toUpdate_ids. intros [Hin|Hin]%elem_of_app.
      * apply list_elem_of_fmap in Hin as (uc & Hid & Huc).
        apply selected_elem in Huc as (d2 & c & Hd2 & Hname & Hc & Htype & Hlen & ->).
        simpl in Hid.
        assert (d = d2) by (by eapply (key_inj_elem d_id)). subst d2.
        destruct Hout as [Hout|Hout]; [done|].
        unfold populate, selected in Hout. rewrite Hc in Hout.
        rewrite !bool_decide_eq_true_2 in Hout by done. done.
      * apply list_elem_of_fmap in Hin as (p & Hid & Hp).
        apply (Hfresh p Hp). rewrite <- Hid. by apply list_elem_of_fmap_2.
  - intros u Hne. unfold Notify.findUser at 1. rewrite Husers.
    change (Notify.findUser u (distributeRewardsIfChallengeComplete toUpdate s1)
            = Notify.findUser u s1).
    apply (distribute_other_user name); done.
Qed.

Lemma X22_increment_frame_witness :
  let s :=
    mkStore [] [] [Samples.plainUser "alice" []; Samples.plainUser "bob" []] [] [] [] []
      [Samples.hourChallenge; Samples.firstChallenge]
      [mkUserChallengeDoc 0 "alice" "c1" [1800000; 5400000];
       mkUserChallengeDoc 1 "bob" "c1" [100];
       mkUserChallengeDoc 2 "alice" "c2" [200]] in
  let run := fetchAndIncrementChallengesByUserAndType "alice" "upvote" 6000000 s in
  (∀ d, d ∈ UserChallengeModel s →
     d_username d ≠ "alice" ∨ selected "upvote" (populate s d) = None →
     findUserChallenge (d_id d) run.2 = Some d) ∧
  (∀ u, u ≠ "alice" → Notify.findUser u run.2 = Notify.findUser u s) ∧
  ChallengeModel run.2 = ChallengeModel s.
Proof.
  apply (X22_increment_frame "alice" "upvote" 6000000 _
           (match (fetchAndIncrementChallengesByUserAndType "alice" "upvote" 6000000
                     (mkStore [] []
                        [Samples.plainUser "alice" []; Samples.plainUser "bob" []]
                        [] [] [] []
                        [Samples.hourChallenge; Samples.firstChallenge]
                        [mkUserChallengeDoc 0 "alice" "c1" [1800000; 5400000];
                         mkUserChallengeDoc 1 "bob" "c1" [100];
                         mkUserChallengeDoc 2 "alice" "c2" [200]])).1 with
            | Ok l => l
            | Error _ => []
            end)).
  - apply (bool_decide_unpack _). vm_compute. exact I.
  - by vm_compute.
Defined.

End challenge_more.

(** ** Search strings *)
Section search_more.
Import Search.

Local Abbreviation notClose := (fun c : ascii => negb (Ascii.eqb c "]"%char)).

Lemma append_nil_l (t : string) : String.append EmptyString t = t.
Proof. done. Qed.

Lemma append_cons c (s t : string) :
  String.append (String c s) t = String c (String.append s t).
Proof. done. Qed.

Lemma append_nil_r (s : string) : String.append s EmptyString = s.
Proof. induction s as [|c s IH]; [done|]. by rewrite append_cons, IH. Qed.

Lemma snoc_append s c t : String.append (snoc s c) t = String.append s (String c t).
Proof. unfold snoc. induction s as [|c' s IH]; [done|]. by rewrite !append_cons, IH. Qed.

Lemma snoc_not_empty s c : String.eqb (snoc s c) EmptyString = false.
Proof. by destruct s. Qed.

Lemma allChars_snoc P s c : allChars P (snoc s c) = allChars P s && P c.
Proof.
  unfold snoc. induction s as [|c' s IH].
  - rewrite append_nil_l. simpl. by rewrite andb_true_r.
  - rewrite append_cons. simpl. by rewrite IH, andb_assoc.
Qed.

Lemma word_not_open c : isWordChar c = true → Ascii.eqb c "["%char = false.
Proof.
  intros Hc. destruct (Ascii.eqb_spec c "["%char) as [->|]; [|done].
  by vm_compute in Hc.
Qed.

Lemma scanTags_wf st s :
  match st with Outside => True | Inside read => allChars notClose read = true end →
  Forall (fun t => wellFormed (TagTerm t) = true) (scanTags st s).
Proof.
  revert st. induction s as [|c s IH]; intros st Hst; simpl; [constructor|].
  destruct st as [|read].
  - destruct (Ascii.eqb c "["); by apply IH.
  - destruct (Ascii.eqb c "]") eqn:Hc.
    + destruct (String.eqb read EmptyString) eqn:Hread; [by apply IH|].
      constructor; [|by apply IH]. simpl. by rewrite Hread, Hst.
    + apply IH. rewrite allChars_snoc, Hst. simpl. by rewrite Hc.
Qed.

Lemma scanWords_wf word s :
  allChars isWordChar word = true →
  Forall (fun w => wellFormed (WordTerm w) = true) (scanWords word s).
Proof.
  revert word. induction s as [|c s IH]; intros word Hword; simpl.
  - destruct (String.eqb word EmptyString) eqn:Hw; constructor; [|constructor].
    simpl. by rewrite Hw, Hword.
  - destruct (isWordChar c) eqn:Hc.
    + apply IH. by rewrite allChars_snoc, Hword, Hc.
    + apply Forall_app. split; [|by apply IH].
      destruct (String.eqb word EmptyString) eqn:Hw; constructor; [|constructor].
      simpl. by rewrite Hw, Hword.
Qed.

(** X23: what the parsers can return.  Every tag parsed from a search
    string is non-empty and holds no closing bracket; every keyword is
    non-empty and made of letters, digits and underscores only. *)
Theorem X23_parsed_terms_well_formed search :
  Forall (fun t => wellFormed (TagTerm t) = true) (parseTags search) ∧
  Forall (fun w => wellFormed (WordTerm w) = true) (parseKeyword search).
Proof.
  split.
  - by apply scanTags_wf.
  - by apply scanWords_wf.
Qed.

Lemma scanTags_inside read t rest :
  allChars notClose t = true →
  String.eqb (String.append read t) EmptyString = false →
  scanTags (Inside read) (String.append t (String "]" rest))
  = String.append read t :: scanTags Outside rest.
Proof.
  revert read. induction t as [|c t IH]; intros read Ht Hne.
  - rewrite append_nil_l, append_nil_r in *. simpl. by rewrite Hne.
  - rewrite append_cons. simpl in *. apply andb_true_iff in Ht as [Hc Ht].
    apply negb_true_iff in Hc. rewrite Hc.
    rewrite IH; [by rewrite snoc_append|done|].
    by rewrite snoc_append.
Qed.

Lemma replaceTags_inside read t rest :
  allChars notClose t = true →
  String.eqb (String.append read t) EmptyString = false →
  replaceTags (Inside read) (String.append t (String "]" rest))
  = String " " (replaceTags Outside rest).
Proof.
  revert read. induction t as [|c t IH]; intros read Ht Hne.
  - rewrite append_nil_l, append_nil_r in *. simpl. by rewrite Hne.
  - rewrite append_cons. simpl in *. apply andb_true_iff in Ht as [Hc Ht].
    apply negb_true_iff in Hc. rewrite Hc.
    apply IH; [done|]. by rewrite snoc_append.
Qed.

Lemma scanTags_word w rest :
  allChars isWordChar w = true →
  scanTags Outside (String.append w rest) = scanTags Outside rest.
Proof.
  induction w as [|c w IH]; intros Hw; [done|].
  rewrite append_cons. simpl in *. apply andb_true_iff in Hw as [Hc Hw].
  rewrite (word_not_open c Hc). by apply IH.
Qed.

Lemma replaceTags_word w rest :
  allChars isWordChar w = true →
  replaceTags Outside (String.append w rest)
  = String.append w (replaceTags Outside rest).
Proof.
  induction w as [|c w IH]; intros Hw; [done|].
  rewrite !append_cons. simpl in *. apply andb_true_iff in Hw as [Hc Hw].
  rewrite (word_not_open c Hc). by rewrite IH.
Qed.

Lemma scanWords_word word w rest :
  allChars isWordChar w = true →
  scanWords word (String.append w rest) = scanWords (String.append word w) rest.
Proof.
  revert word. induction w as [|c w IH]; intros word Hw.
  - by rewrite append_nil_l, append_nil_r.
  - rewrite append_cons. simpl in *. apply andb_true_iff in Hw as [Hc Hw].
    rewrite Hc, IH by done. by rewrite snoc_append.
Qed.

(** X24: parsing inverts writing.  For a search string written from
    well-formed terms, each followed by a space, [parseTags] returns the
    tags and [parseKeyword] the words, both in the order written. *)
Theorem X24_parse_inverts_render terms :
  Forall (fun term => wellFormed term = true) terms →
  parseTags (render terms) = tagTerms terms ∧
  parseKeyword (render terms) = wordTerms terms.
Proof.
  unfold parseTags, parseKeyword.
  induction 1 as [|term terms Hterm _ [IHt IHw]]; [done|].
  destruct term as [t|w]; simpl in Hterm;
    apply andb_true_iff in Hterm as [Hne Hchars]; apply negb_true_iff in Hne.
  - split.
    + cbn [render tagTerms omap list_omap]. cbn [scanTags]. simpl Ascii.eqb.
      rewrite scanTags_inside by done. simpl. by rewrite IHt.
    + cbn [render wordTerms omap list_omap]. cbn [replaceTags]. simpl Ascii.eqb.
      rewrite replaceTags_inside by done. simpl. exact IHw.
  - split.
    + cbn [render tagTerms omap list_omap].
      rewrite scanTags_word by done. simpl. exact IHt.
    + cbn [render wordTerms omap list_omap].
      rewrite replaceTags_word by done.
      rewrite scanWords_word by done. rewrite append_nil_l. simpl.
      rewrite Hne. simpl. by rewrite IHw.
Qed.

Lemma X24_parse_inverts_render_witness :
  parseTags (render [TagTerm "react native"; WordTerm "state"; TagTerm "hooks";
                     WordTerm "use_effect2"])
  = ["react native"; "hooks"] ∧
  parseKeyword (render [TagTerm "react native"; WordTerm "state"; TagTerm "hooks";
                        WordTerm "use_effect2"])
  = ["state"; "use_effect2"].
Proof.
  apply (X24_parse_inverts_render
           [TagTerm "react native"; WordTerm "state"; TagTerm "hooks";
            WordTerm "use_effect2"]).
  repeat constructor.
Defined.

End search_more.

(** ** Filtering by a search string *)
Section filter_more.
Import Search.

Lemma prefix_spec w s : String.prefix w s = true ↔ ∃ post, s = String.append w post.
Proof.
  revert s. induction w as [|a w IH]; intros s.
  - split; [intros _; by exists s|]. intros _. by destruct s.
  - destruct s as [|b s]; simpl.
    + split; [done|]. intros [post Hpost]. by rewrite append_cons in Hpost.
    + destruct (ascii_dec a b) as [->|Hne].
      * rewrite IH. split; intros [post Hpost]; exists post.
        -- by rewrite append_cons, Hpost.
        -- rewrite append_cons in Hpost. congruence.
      * split; [done|]. intros [post Hpost]. rewrite append_cons in Hpost. congruence.
Qed.

Lemma str_includes_spec w s :
  str_includes w s = true
  ↔ ∃ pre post, s = String.append pre (String.append w post).
Proof.
  induction s as [|c s IH]; cbn [str_includes]; rewrite orb_true_iff.
  - split.
    + intros [(post & Hpost)%prefix_spec|]; [|done]. by exists EmptyString, post.
    + intros (pre & post & Hs). left. apply prefix_spec. exists post.
      destruct pre; [done|]. by rewrite append_cons in Hs.
  - rewrite IH. split.
    + intros [(post & Hpost)%prefix_spec|(pre & post & Hs)].
      * by exists EmptyString, post.
      * exists (String c pre), post. by rewrite append_cons, Hs.
    + intros (pre & post & Hs). destruct pre as [|c' pre].
      * left. apply prefix_spec. by exists post.
      * right. rewrite append_cons in Hs. exists pre, post. congruence.
Qed.

Lemma checkTagInQuestion_spec q taglist :
  checkTagInQuestion q taglist = true
  ↔ ∃ tag, tag ∈ tags q ∧ Tags.name tag ∈ taglist.
Proof.
  unfold checkTagInQuestion. rewrite existsb_exists. split.
  - intros (t & Ht%list_elem_of_In & (tag & Htag%list_elem_of_In & Heq)%existsb_exists).
    apply String.eqb_eq in Heq as ->. by exists tag.
  - intros (tag & Htag & Ht). exists (Tags.name tag).
    split; [by apply list_elem_of_In|]. apply existsb_exists. exists tag.
    split; [by apply list_elem_of_In|]. apply String.eqb_refl.
Qed.

Lemma checkKeywordInQuestion_spec q keywordlist :
  checkKeywordInQuestion q keywordlist = true
  ↔ ∃ w pre post, w ∈ keywordlist ∧
      (title q = String.append pre (String.append w post) ∨
       text q = String.append pre (String.append w post)).
Proof.
  unfold checkKeywordInQuestion. rewrite existsb_exists. split.
  - intros (w & Hw%list_elem_of_In & Hin). exists w.
    apply orb_true_iff in Hin as [(pre & post & Hs)%str_includes_spec
                                 |(pre & post & Hs)%str_includes_spec];
      exists pre, post; auto.
  - intros (w & pre & post & Hw & Hin). exists w. split; [by apply list_elem_of_In|].
    apply orb_true_iff.
    destruct Hin as [Hs|Hs]; [left|right]; apply str_includes_spec; by exists pre, post.
Qed.

Lemma filterQuestionsBySearch_filter qlist search :
  filterQuestionsBySearch qlist search
  = List.filter
      (fun q =>
         match parseKeyword search, parseTags search with
         | [], [] => true
         | [], _ => checkTagInQuestion q (parseTags search)
         | _, [] => checkKeywordInQuestion q (parseKeyword search)
         | _, _ => checkKeywordInQuestion q (parseKeyword search)
                   || checkTagInQuestion q (parseTags search)
         end) qlist.
Proof.
  unfold filterQuestionsBySearch. destruct qlist as [|q0 qlist]; [done|].
  apply filter_ext_in. intros q _.
  by destruct (parseKeyword search), (parseTags search).
Qed.

(** X25: which questions a search keeps.  A question of the list is kept
    exactly when the search string has neither tags nor keywords, or one of
    the question's tags has a name among the parsed tags, or its title or
    text contains one of the parsed keywords. *)
Theorem X25_search_keeps qlist search q :
  q ∈ filterQuestionsBySearch qlist search ↔
  q ∈ qlist ∧
  ((parseTags search = [] ∧ parseKeyword search = []) ∨
   (∃ tag, tag ∈ tags q ∧ Tags.name tag ∈ parseTags search) ∨
   (∃ w pre post, w ∈ parseKeyword search ∧
      (title q = String.append pre (String.append w post) ∨
       text q = String.append pre (String.append w post)))).
Proof.
  rewrite filterQuestionsBySearch_filter, list_elem_of_In, filter_In, <- list_elem_of_In.
  rewrite <- checkTagInQuestion_spec, <- checkKeywordInQuestion_spec.
  destruct (parseKeyword search) as [|w ws] eqn:Hk,
           (parseTags search) as [|t ts] eqn:Ht.
  all: rewrite ?orb_true_iff; split; [tauto|].
  all: intros [Hq [[? ?]|[Hx|Hx]]]; (split; [done|]); try done; tauto.
Qed.

Lemma filter_comm {A} (f g : A → bool) l :
  List.filter f (List.filter g l) = List.filter g (List.filter f l).
Proof.
  induction l as [|x l IH]; [done|]. simpl.
  destruct (g x) eqn:Hg, (f x) eqn:Hf; simpl; rewrite ?Hg, ?Hf, IH; done.
Qed.

(** X26: a search for one tag, and the two filters together.  The search
    string of a single well-formed tag keeps exactly the questions that
    carry a tag of that name, in list order; filtering by asker and by a
    search string gives the same list in either order. *)
Theorem X26_tag_search qlist t :
  wellFormed (TagTerm t) = true →
  filterQuestionsBySearch qlist (render [TagTerm t])
  = List.filter (fun q => existsb (fun tag => String.eqb t (Tags.name tag)) (tags q))
      qlist ∧
  ∀ search asker,
    filterQuestionsByAskedBy (filterQuestionsBySearch qlist search) asker
    = filterQuestionsBySearch (filterQuestionsByAskedBy qlist asker) search.
Proof.
  intros Ht. split.
  - simpl in Ht. apply andb_true_iff in Ht as [Hne Hchars].
    apply negb_true_iff in Hne.
    assert (Htags : parseTags (render [TagTerm t]) = [t]).
    { unfold parseTags. cbn [render scanTags]. simpl Ascii.eqb.
      by rewrite scanTags_inside. }
    assert (Hwords : parseKeyword (render [TagTerm t]) = []).
    { unfold parseKeyword. cbn [render replaceTags]. simpl Ascii.eqb.
      by rewrite replaceTags_inside. }
    rewrite filterQuestionsBySearch_filter, Htags, Hwords.
    apply filter_ext_in. intros q _. unfold checkTagInQuestion. simpl.
    by rewrite orb_false_r.
  - intros search asker. rewrite !filterQuestionsBySearch_filter.
    unfold filterQuestionsByAskedBy. apply filter_comm.
Qed.

Lemma X26_tag_search_witness :
  let qlist :=
    [mkPopulatedQuestion Samples.qReact "Hooks" "How do hooks work"
       [Tags.mkTag (Some 0%nat) "react" "React"];
     mkPopulatedQuestion Samples.qRouter "Routes" "Nested routes"
       [Tags.mkTag (Some 1%nat) "router" "Routing"]] in
  filterQuestionsBySearch qlist (render [TagTerm "react"])
  = List.filter (fun q => existsb (fun tag => String.eqb "react" (Tags.name tag)) (tags q))
      qlist ∧
  ∀ search asker,
    filterQuestionsByAskedBy (filterQuestionsBySearch qlist search) asker
    = filterQuestionsBySearch (filterQuestionsByAskedBy qlist asker) search.
Proof.
  apply (X26_tag_search _ "react"). reflexivity.
Defined.

End filter_more.

(** ** Tags *)
Section tag_more.
Import Tags.

Lemma find_app_l {A} (p : A → bool) l k x :
  List.find p l = Some x → List.find p (l ++ k) = Some x.
Proof.
  induction l as [|y l IH]; simpl; [done|]. by destruct (p y).
Qed.

Lemma find_app_r {A} (p : A → bool) l k :
  List.find p l = None → List.find p (l ++ k) = List.find p k.
Proof.
  induction l as [|y l IH]; simpl; [done|]. by destruct (p y).
Qed.

Lemma filter_ext_elem {A} (P Q : A → Prop) `{∀ x, Decision (P x)} `{∀ x, Decision (Q x)}
    (l : list A) :
  (∀ x, x ∈ l → P x ↔ Q x) → filter P l = filter Q l.
Proof.
  induction l as [|x l IH]; intros Hext; [done|].
  assert (Hx := Hext x (list_elem_of_here _ _)).
  assert (Hl : filter P l = filter Q l).
  { apply IH. intros y Hy. apply Hext. by right. }
  destruct (decide (P x)) as [Hp|Hp].
  - rewrite !filter_cons_True by tauto. by rewrite Hl.
  - rewrite !filter_cons_False by tauto. done.
Qed.

Lemma findOne_name n TagModel t : findOne n TagModel = Some t → name t = n ∧ t ∈ TagModel.
Proof.
  intros [Hin Hp]%find_elem_of. by apply bool_decide_eq_true in Hp.
Qed.

Lemma uniqueTagNamesSet_fold (tags : list Tag) set :
  NoDup set →
  NoDup (fold_left (fun set tag => addToSet (name tag) set) tags set) ∧
  ∀ n, n ∈ fold_left (fun set tag => addToSet (name tag) set) tags set
       ↔ n ∈ set ∨ n ∈ name <$> tags.
Proof.
  revert set. induction tags as [|tag tags IH]; intros set Hnd; simpl.
  - split; [done|]. intros n. rewrite elem_of_nil. tauto.
  - destruct (IH (addToSet (name tag) set)) as [Hnd' Hin].
    { by apply addToSet_NoDup. }
    split; [done|]. intros n.
    rewrite Hin, addToSet_elem_iff, elem_of_cons. tauto.
Qed.

Lemma uniqueTags_found tags :
  ∃ uniqueTags,
    mapM (fun n => findOne n tags) (uniqueTagNamesSet tags) = Some uniqueTags ∧
    name <$> uniqueTags = uniqueTagNamesSet tags.
Proof.
  destruct (uniqueTagNamesSet_fold tags [] (NoDup_nil_2)) as [_ Hin].
  destruct (mapM_is_Some_2 (fun n => findOne n tags) (uniqueTagNamesSet tags))
    as [uniqueTags Hfound].
  { apply Forall_forall. intros n Hn. simpl.
    apply (find_key_some name). apply Hin in Hn as [?%elem_of_nil|]; done. }
  exists uniqueTags. split; [done|].
  apply (mapM_fmap_Some_inv _ name _ _ Hfound).
  intros n t Ht. by apply findOne_name in Ht as [? _].
Qed.

Lemma processOne_run tag TagModel :
  ∃ r new,
    processOne tag TagModel = (Some r, TagModel ++ new) ∧
    name r = name tag ∧
    findOne (name tag) (TagModel ++ new) = Some r ∧
    name <$> new = if decide (name tag ∈ name <$> TagModel) then [] else [name tag].
Proof.
  unfold processOne, addTag.
  destruct (findOne (name tag) TagModel) as [existingTag|] eqn:Hfound.
  - exists existingTag, []. rewrite app_nil_r.
    destruct (findOne_name _ _ _ Hfound) as [Hname Hin].
    split; [done|]. split; [done|]. split; [done|].
    rewrite decide_True; [done|]. rewrite <- Hname. by apply list_elem_of_fmap_2.
  - eexists _, [_]. split; [done|]. split; [done|]. split.
    + unfold findOne in *. rewrite find_app_r by done. simpl.
      by rewrite bool_decide_eq_true_2.
    + rewrite decide_False; [done|]. intros Hin.
      destruct (find_key_some name _ _ Hin) as [x Hx].
      unfold findOne in Hfound. congruence.
Qed.

Lemma processAll_run uniqueTags TagModel :
  NoDup (name <$> uniqueTags) →
  ∃ rs new,
    traverse processOne uniqueTags TagModel = (Some <$> rs, TagModel ++ new) ∧
    name <$> rs = name <$> uniqueTags ∧
    name <$> new
    = filter (fun n => n ∉ name <$> TagModel) (name <$> uniqueTags) ∧
    Forall (fun r => findOne (name r) (TagModel ++ new) = Some r) rs.
Proof.
  revert TagModel. induction uniqueTags as [|tag uniqueTags IH]; intros TagModel Hnd.
  - exists [], []. by rewrite app_nil_r.
  - rewrite fmap_cons in Hnd. apply NoDup_cons in Hnd as [Hfresh Hnd].
    destruct (processOne_run tag TagModel) as (r & new0 & Hstep & Hr & Hfound & Hnew0).
    destruct (IH (TagModel ++ new0) Hnd) as (rs & new1 & Hrest & Hrs & Hnew1 & Hall).
    exists (r :: rs), (new0 ++ new1).
    rewrite traverse_cons, Hstep, Hrest, app_assoc.
    split; [done|]. split; [by rewrite !fmap_cons, Hr, Hrs|]. split.
    + rewrite fmap_app, Hnew0, Hnew1, fmap_cons.
      rewrite (filter_ext_elem (fun n => n ∉ name <$> TagModel ++ new0)
                 (fun n => n ∉ name <$> TagModel)).
      * destruct (decide (name tag ∈ name <$> TagModel)) as [Hin|Hin].
        -- by rewrite filter_cons_False by (intros Hx; by apply Hx).
        -- by rewrite filter_cons_True by done.
      * intros n Hn. rewrite fmap_app, elem_of_app, Hnew0.
        destruct (decide (name tag ∈ name <$> TagModel)).
        -- rewrite elem_of_nil. tauto.
        -- rewrite list_elem_of_singleton. split; [tauto|].
           intros Hout [? | ->]; done.
    + constructor; [|done].
      rewrite Hr. unfold findOne in *. by apply find_app_l.
Qed.

Lemma same_found TagModel (rs rs' : list Tag) :
  name <$> rs' = name <$> rs →
  Forall (fun r => findOne (name r) TagModel = Some r) rs →
  Forall (fun r => findOne (name r) TagModel = Some r) rs' →
  rs' = rs.
Proof.
  revert rs'. induction rs as [|r rs IH]; intros [|r' rs'] Hnames Hrs Hrs'; try done.
  rewrite !fmap_cons in Hnames. injection Hnames as Hname Hnames.
  apply Forall_cons in Hrs as [Hr Hrs]. apply Forall_cons in Hrs' as [Hr' Hrs'].
  rewrite Hname in Hr'. f_equal; [congruence|]. by apply IH.
Qed.

Lemma processTags_run tags TagModel :
  ∃ rs new,
    processTags tags TagModel = (rs, TagModel ++ new) ∧
    name <$> rs = uniqueTagNamesSet tags ∧
    name <$> new = filter (fun n => n ∉ name <$> TagModel) (uniqueTagNamesSet tags) ∧
    Forall (fun r => findOne (name r) (TagModel ++ new) = Some r) rs.
Proof.
  destruct (uniqueTags_found tags) as (uniqueTags & Hunique & Hnames).
  destruct (uniqueTagNamesSet_fold tags [] (NoDup_nil_2)) as [Hnd _].
  fold (uniqueTagNamesSet tags) in Hnd.
  destruct (processAll_run uniqueTags TagModel) as (rs & new & Hrun & Hrs & Hnew & Hall).
  { by rewrite Hnames. }
  exists rs, new. unfold processTags. rewrite Hunique, Hrun.
  rewrite (mapM_fmap_Some id Some) by done.
  rewrite <- Hnames. done.
Qed.

(** X27: processing tags.  The result has one tag per distinct name of the
    input, in the order of first occurrence; each of them is the tag stored
    under its name afterwards; the collection grows at its end by exactly
    the names that were not stored, so names that are keys stay keys; and
    processing the same tags again returns the same tags and adds
    nothing. *)
Theorem X27_process_tags tags TagModel :
  let run := processTags tags TagModel in
  name <$> run.1 = uniqueTagNamesSet tags ∧
  NoDup (name <$> run.1) ∧
  (∀ n, n ∈ name <$> run.1 ↔ n ∈ name <$> tags) ∧
  (∃ new, run.2 = TagModel ++ new ∧
     name <$> new = filter (fun n => n ∉ name <$> TagModel) (uniqueTagNamesSet tags)) ∧
  (∀ t, t ∈ run.1 → findOne (name t) run.2 = Some t) ∧
  (NoDup (name <$> TagModel) → NoDup (name <$> run.2)) ∧
  processTags tags run.2 = (run.1, run.2).
Proof.
  intros run. subst run.
  destruct (processTags_run tags TagModel) as (rs & new & Hrun & Hrs & Hnew & Hall).
  rewrite Hrun. simpl.
  destruct (uniqueTagNamesSet_fold tags [] (NoDup_nil_2)) as [Hnd Hin].
  fold (uniqueTagNamesSet tags) in Hnd, Hin.
  split; [done|]. split; [by rewrite Hrs|]. split.
  { intros n. rewrite Hrs, Hin, elem_of_nil. tauto. }
  split; [by exists new|]. split.
  { intros t Ht. by apply (proj1 (Forall_forall _ _) Hall). }
  split.
  { intros Hkeys. rewrite fmap_app. apply NoDup_app. split; [done|]. split.
    - intros n Hn. rewrite Hnew, list_elem_of_filter. tauto.
    - rewrite Hnew. by apply NoDup_filter. }
  destruct (processTags_run tags (TagModel ++ new))
    as (rs' & new' & Hrun' & Hrs' & Hnew' & Hall').
  assert (Hnone : new' = []).
  { apply (fmap_nil_inv name). rewrite Hnew'. apply filter_none.
    intros n Hn Hout. apply Hout. rewrite <- Hrs in Hn.
    apply list_elem_of_fmap in Hn as (r & -> & Hr).
    apply (proj1 (Forall_forall _ _) Hall) in Hr.
    apply findOne_name in Hr as [_ Hr]. by apply list_elem_of_fmap_2. }
  subst new'. rewrite app_nil_r in *. rewrite Hrun'. f_equal.
  apply (same_found (TagModel ++ new)); [congruence|done|done].
Qed.

End tag_more.

(** ** Tag counts *)
Section count_more.
Import Tags Search.

Local Abbreviation countOne :=
  (fun (tmap : list (string * nat)) (t : Tag) =>
     TagCounts.set (name t) (default 0%nat (TagCounts.get (name t) tmap) + 1)%nat tmap).

Lemma get_set k k' v m :
  TagCounts.get k' (TagCounts.set k v m)
  = if decide (k' = k) then Some v else TagCounts.get k' m.
Proof.
  unfold TagCounts.get. induction m as [|[k0 v0] m IH]; simpl.
  - destruct (decide (k' = k)) as [->|Hne].
    + by rewrite bool_decide_eq_true_2.
    + by rewrite bool_decide_eq_false_2.
  - destruct (decide (k0 = k)) as [->|Hne0]; simpl.
    + destruct (decide (k' = k)) as [->|Hne].
      * by rewrite bool_decide_eq_true_2.
      * by rewrite !bool_decide_eq_false_2.
    + case_bool_decide as Hk0; simpl.
      * rewrite decide_False by congruence. done.
      * exact IH.
Qed.

Lemma keys_set k v (m : list (string * nat)) :
  fst <$> TagCounts.set k v m
  = if decide (k ∈ fst <$> m) then fst <$> m else (fst <$> m) ++ [k].
Proof.
  induction m as [|[k0 v0] m IH].
  - by rewrite decide_False by apply not_elem_of_nil.
  - cbn [TagCounts.set]. destruct (decide (k0 = k)) as [->|Hne]; rewrite !fmap_cons;
      cbn [fst].
    + by rewrite decide_True by (by left).
    + rewrite IH. destruct (decide (k ∈ fst <$> m)) as [Hin|Hin].
      * by rewrite decide_True by (by right).
      * by rewrite decide_False by (intros [?|?]%elem_of_cons; done).
Qed.

Lemma keys_set_elem k v (m : list (string * nat)) n :
  n ∈ fst <$> TagCounts.set k v m ↔ n = k ∨ n ∈ fst <$> m.
Proof.
  rewrite keys_set. destruct (decide (k ∈ fst <$> m)) as [Hin|Hin].
  - split; [tauto|]. by intros [->|].
  - rewrite elem_of_app, list_elem_of_singleton. tauto.
Qed.

Lemma keys_set_NoDup k v (m : list (string * nat)) :
  NoDup (fst <$> m) → NoDup (fst <$> TagCounts.set k v m).
Proof.
  intros Hnd. rewrite keys_set. destruct (decide (k ∈ fst <$> m)) as [Hin|Hin]; [done|].
  apply NoDup_app. split; [done|]. split; [|apply NoDup_singleton].
  intros n Hn ->%list_elem_of_singleton. done.
Qed.

Lemma fold_concat {A B} (f : A → B → A) (ls : list (list B)) a :
  fold_left (fun a l => fold_left f l a) ls a = fold_left f (concat ls) a.
Proof.
  revert a. induction ls as [|l ls IH]; intros a; simpl; [done|].
  by rewrite fold_left_app, IH.
Qed.

Lemma count_fold (ts : list Tag) (m : list (string * nat)) :
  NoDup (fst <$> m) →
  NoDup (fst <$> fold_left countOne ts m) ∧
  (∀ n, n ∈ fst <$> fold_left countOne ts m ↔ n ∈ fst <$> m ∨ n ∈ name <$> ts) ∧
  ∀ n, default 0%nat (TagCounts.get n (fold_left countOne ts m))
       = (default 0%nat (TagCounts.get n m)
          + length (filter (fun t => name t = n) ts))%nat.
Proof.
  revert m. induction ts as [|t ts IH]; intros m Hnd; simpl.
  - split; [done|]. split; [intros n; rewrite elem_of_nil; tauto|].
    intros n. lia.
  - destruct (IH (countOne m t)) as (Hnd' & Hkeys & Hget).
    { by apply keys_set_NoDup. }
    split; [done|]. split.
    + intros n. rewrite Hkeys, keys_set_elem, elem_of_cons. tauto.
    + intros n. rewrite Hget, get_set.
      destruct (decide (n = name t)) as [->|Hne].
      * rewrite filter_cons_True by done. simpl. lia.
      * rewrite filter_cons_False by congruence. done.
Qed.

Lemma init_fold (tlist : list Tag) (m : list (string * nat)) :
  NoDup (fst <$> m) →
  (∀ n, default 0%nat (TagCounts.get n m) = 0%nat) →
  let tmap := fold_left (fun m t => TagCounts.set (name t) 0%nat m) tlist m in
  NoDup (fst <$> tmap) ∧
  (∀ n, n ∈ fst <$> tmap ↔ n ∈ fst <$> m ∨ n ∈ name <$> tlist) ∧
  ∀ n, default 0%nat (TagCounts.get n tmap) = 0%nat.
Proof.
  revert m. induction tlist as [|t tlist IH]; intros m Hnd Hzero; simpl.
  - split; [done|]. split; [intros n; rewrite elem_of_nil; tauto|done].
  - destruct (IH (TagCounts.set (name t) 0%nat m)) as (Hnd' & Hkeys & Hget).
    { by apply keys_set_NoDup. }
    { intros n. rewrite get_set. by destruct (decide _). }
    split; [done|]. split; [|done].
    intros n. rewrite Hkeys, keys_set_elem, elem_of_cons. tauto.
Qed.

(** X28: the tag count map.  The result is null exactly when no tag is
    stored, whatever the questions.  Otherwise the map has one entry per
    name, for the names of the stored tags and the names of the tags on the
    questions, and the entry of a name is the number of tags of that name on
    the questions. *)
Theorem X28_tag_counts tlist qlist :
  (TagCounts.getTagCountMap tlist qlist = None ↔ tlist = []) ∧
  ∀ tmap, TagCounts.getTagCountMap tlist qlist = Some tmap →
    NoDup (fst <$> tmap) ∧
    (∀ n, n ∈ fst <$> tmap
          ↔ n ∈ name <$> tlist ∨ n ∈ name <$> concat (tags <$> qlist)) ∧
    ∀ n, n ∈ fst <$> tmap → TagCounts.get n tmap = Some (TagCounts.occurrences n qlist).
Proof.
  split; [by destruct tlist|].
  assert (Hflat : ∀ m0,
    fold_left (fun tmap q => fold_left countOne (tags q) tmap) qlist m0
    = fold_left countOne (concat (tags <$> qlist)) m0).
  { intros m0. rewrite <- fold_concat. revert m0.
    induction qlist as [|q qlist IH]; intros m0; [done|]. apply IH. }
  intros tmap Hrun.
  assert (Hmap :
    tmap = fold_left countOne (concat (tags <$> qlist))
             (fold_left (fun m t => TagCounts.set (name t) 0%nat m) tlist [])).
  { unfold TagCounts.getTagCountMap in Hrun. destruct tlist as [|t0 tlist]; [done|].
    injection Hrun as <-. apply Hflat. }
  destruct (init_fold tlist []) as (Hnd0 & Hkeys0 & Hzero); [constructor|done|].
  destruct (count_fold (concat (tags <$> qlist)) _ Hnd0) as (Hnd & Hkeys & Hget).
  rewrite <- Hmap in Hnd, Hkeys, Hget.
  split; [done|]. split.
  - intros n. rewrite Hkeys, Hkeys0, elem_of_nil. tauto.
  - intros n Hn. destruct (find_key_some fst n tmap Hn) as [[k v] Hfound].
    assert (Hsome : TagCounts.get n tmap = Some v).
    { unfold TagCounts.get. by rewrite Hfound. }
    specialize (Hget n). rewrite Hsome, Hzero in Hget. simpl in Hget.
    rewrite Hsome. f_equal. exact Hget.
Qed.

End count_more.
